(** * video_watermark.py: watermark geometry, placement and batch loop

    A shallow embedding of [src/video_watermark.py].  Python integers are
    [Z]; Python floats are IEEE 754 binary64 values, represented by the
    executable specification [SpecFloat] of the standard library; file names
    are [string]s of bytes; exceptions are an explicit [result] type.  The external
    collaborators (ffprobe, ffmpeg, Pillow, the random module) appear as the
    fields of a [world] record from which the program reads their answers. *)

From Stdlib Require Import ZArith Lia List Bool String Ascii.
From Stdlib Require Import SpecFloat.
From Stdlib Require Import Sorted Permutation Mergesort Orders.
From Stdlib Require Reals Lra.
Import ListNotations.

Local Open Scope Z_scope.

(** ** Exceptions *)

(** The exception classes that the modelled statements can raise.  All of
    them derive from Python's [Exception]. *)
Inductive exn : Type :=
| RuntimeError        (* raised by [probe_size] and [run_ffmpeg] *)
| ValueError          (* [int] of a NaN *)
| OverflowError       (* [int] of an infinity, an integer too large for a float or for C *)
| ZeroDivisionError   (* [/] with a zero divisor *)
| OSError.            (* a file that cannot be opened, decoded or written *)

Inductive result (A : Type) : Type :=
| Ok (a : A)
| Raise (e : exn).

Arguments Ok {A} a.
Arguments Raise {A} e.

Definition bind {A B : Type} (r : result A) (k : A -> result B) : result B :=
  match r with
  | Ok a => k a
  | Raise e => Raise e
  end.

Notation "x <- c1 ;; c2" := (bind c1 (fun x => c2))
  (at level 61, c1 at next level, right associativity).

Definition raises {A : Type} (r : result A) : Prop :=
  exists e, r = Raise e.

(** ** Python floats *)

Module PyFloat.

Definition prec : Z := 53.
Definition emax : Z := 1024.

Definition float : Set := spec_float.

(** An integer taken exactly, as the operand of a correctly rounded
    operation (the mantissa is not yet cut to 53 bits). *)
Definition exact_int (n : Z) : float :=
  match n with
  | Z0 => S754_zero false
  | Zpos p => S754_finite false p 0
  | Zneg p => S754_finite true p 0
  end.

(** A decimal literal [n/d] ([d] a power of ten) denotes the double that is
    nearest to it. *)
Definition decimal (n d : Z) : float :=
  SFdiv prec emax (exact_int n) (exact_int d).

Definition one : float := Eval vm_compute in decimal 1 1.

(** [float(n)], as done implicitly when an [int] meets a [float]. *)
Definition of_int (n : Z) : result float :=
  match binary_normalize prec emax n 0 false with
  | S754_infinity _ => Raise OverflowError
  | f => Ok f
  end.

Definition add (x y : float) : float := SFadd prec emax x y.
Definition sub (x y : float) : float := SFsub prec emax x y.
Definition mul (x y : float) : float := SFmul prec emax x y.
Definition ltb (x y : float) : bool := SFltb x y.
Definition leb (x y : float) : bool := SFleb x y.

Definition zero : float := S754_zero false.

Definition is_finite (x : float) : bool :=
  match x with
  | S754_zero _ | S754_finite _ _ _ => true
  | _ => false
  end.

(** [n * y], [n - y] with [n] an [int] and [y] a [float]. *)
Definition imul (n : Z) (y : float) : result float :=
  x <- of_int n ;; Ok (mul x y).
Definition isub (n : Z) (y : float) : result float :=
  x <- of_int n ;; Ok (sub x y).

(** [a / b] on two [int]s: the exact quotient, rounded once. *)
Definition truediv (a b : Z) : result float :=
  if b =? 0 then Raise ZeroDivisionError
  else match SFdiv prec emax (exact_int a) (exact_int b) with
       | S754_infinity _ => Raise OverflowError
       | f => Ok f
       end.

(** [int(x)]: truncation toward zero. *)
Definition trunc (x : float) : result Z :=
  match x with
  | S754_zero _ => Ok 0
  | S754_finite s m e => Ok (cond_Zopp s (Z.shiftl (Zpos m) e))
  | S754_infinity _ => Raise OverflowError
  | S754_nan => Raise ValueError
  end.

(** [math.ceil(x)]. *)
Definition ceil (x : float) : result Z :=
  match x with
  | S754_zero _ => Ok 0
  | S754_finite false m e => Ok (- Z.shiftl (Zneg m) e)
  | S754_finite true m e => Ok (- Z.shiftl (Zpos m) e)
  | S754_infinity _ => Raise OverflowError
  | S754_nan => Raise ValueError
  end.

(** [round(x)] of Python 3 (half to even); the source never calls it, the
    specification does. *)
Definition round_half_even (x : float) : result Z :=
  match x with
  | S754_zero _ => Ok 0
  | S754_finite s m e =>
      let q := Z.shiftl (Zpos m) e in
      let r := Zpos m mod 2 ^ (- e) in
      let half := 2 ^ (- e - 1) in
      let up := (e <? 0) && ((half <? r) || ((half =? r) && Z.odd q)) in
      Ok (cond_Zopp s (if up then q + 1 else q))
  | S754_infinity _ => Raise OverflowError
  | S754_nan => Raise ValueError
  end.

End PyFloat.

Import PyFloat.

(** ** Parameters of the script (lines 21-31) *)

Definition videos_folder : string := "videos".
Definition output_folder : string := "output".

Definition WM_REL_WIDTH : float := Eval vm_compute in decimal 25 100.
Definition WM_OPACITY : float := Eval vm_compute in decimal 1 10.
Definition ROTATE_DEG_RANGE : Z := 8.
Definition SCALE_VARIATION : float := Eval vm_compute in decimal 15 100.
Definition MARGIN_X : float := Eval vm_compute in decimal 5 100.
Definition MARGIN_Y : float := Eval vm_compute in decimal 5 10.

(** ** Images, as far as the script looks into them *)

(** One RGBA pixel; every band is an 8-bit value. *)
Record pixel : Type := Pixel { red : Z; green : Z; blue : Z; alpha : Z }.

Record image : Type := Image { size : Z * Z; pixels : list pixel }.

Definition clip8 (v : Z) : Z := Z.min 255 (Z.max 0 v).

(** Sequencing a list of computations, stopping at the first exception. *)
Fixpoint mapM {A B : Type} (f : A -> result B) (l : list A) : result (list B) :=
  match l with
  | [] => Ok []
  | a :: l' => b <- f a ;; bs <- mapM f l' ;; Ok (b :: bs)
  end.

(** An integer handed to C: [PyLong_AsLong] raises OverflowError when it
    does not fit in the 64 bits of a [long]; the assignment to an [int]
    keeps the low 32 bits, as a signed number. *)
Definition c_long (v : Z) : result Z :=
  if (- 2 ^ 63 <=? v) && (v <? 2 ^ 63) then Ok v else Raise OverflowError.

Definition c_int (v : Z) : Z := (v + 2 ^ 31) mod 2 ^ 32 - 2 ^ 31.

(** [Image.point(f)] on an 8-bit band: Pillow calls [f] once on each of
    0..255, reads the answers as C integers, stores them, cut to 0..255, in
    a table of 8-bit cells and maps the band through the table. *)
Definition point_table (f : Z -> result Z) : result (list Z) :=
  t <- mapM f (map Z.of_nat (seq 0 256)) ;;
  longs <- mapM c_long t ;;
  Ok (map (fun v => clip8 (c_int v)) longs).

Definition lookup (table : list Z) (v : Z) : Z := nth (Z.to_nat v) table 0.

(** Lines 97-100: the alpha band is multiplied by the opacity, the other
    bands are put back as they were. *)
Definition scale_alpha (opacity : float) (pil : image) : result image :=
  if ltb opacity one then
    table <- point_table (fun p => x <- imul p opacity ;; trunc x) ;;
    Ok (Image (size pil)
              (map (fun px => Pixel (red px) (green px) (blue px)
                                    (lookup table (alpha px)))
                   (pixels pil)))
  else Ok pil.

(** ** Geometry (lines 67-77 and 119) *)

Record canvas_plan : Type := CanvasPlan {
  target_h : Z;
  need_pad : bool;
  pad_top : Z;
  pad_bottom : Z
}.

Definition plan (vw vh : Z) : result canvas_plan :=
  q <- truediv (vw * 16) 9 ;;
  target_h <- ceil q ;;
  let need_pad := vh <? target_h in
  if need_pad then
    let extra := target_h - vh in
    let pad_top := extra / 2 in
    Ok (CanvasPlan target_h need_pad pad_top (extra - pad_top))
  else Ok (CanvasPlan target_h need_pad 0 0).

Definition dest_h (p : canvas_plan) (vh : Z) : Z :=
  if need_pad p then target_h p else vh.

(** ** Watermark size (lines 87-93) *)

(** [u] is the value drawn by [random.uniform(-SCALE_VARIATION, SCALE_VARIATION)]. *)
Definition target_wm_w (vw : Z) (u : float) : result Z :=
  let variation := add one u in
  x <- imul vw WM_REL_WIDTH ;;
  t <- trunc (mul x variation) ;;
  Ok (Z.max 8 t).

Definition target_h_wm (h0 target_w w0 : Z) : result Z :=
  r <- truediv target_w w0 ;;
  x <- imul h0 r ;;
  t <- trunc x ;;
  Ok (Z.max 1 t).

(** ** Placement (lines 113-122) *)

Inductive corner : Type := Left | Right.

Definition pos_x (c : corner) (vw wm_w : Z) (margin_x : float) : result Z :=
  match c with
  | Left => x <- imul vw margin_x ;; trunc x
  | Right => m <- imul vw margin_x ;; x <- isub (vw - wm_w) m ;; trunc x
  end.

Definition pos_y (dest_h wm_h : Z) (margin_y : float) : result Z :=
  m <- imul dest_h margin_y ;;
  x <- isub (dest_h - wm_h) m ;;
  y <- trunc x ;;
  Ok (if y <? 0 then 0 else y).

Definition resolve (c : corner) (wm : Z * Z) (vw dest_h : Z)
    (margin_x margin_y : float) : result (Z * Z) :=
  x <- pos_x c vw (fst wm) margin_x ;;
  y <- pos_y dest_h (snd wm) margin_y ;;
  Ok (x, y).

(** ** The collaborators *)

(** The two shapes of the [-filter_complex] argument (lines 126-141), by the
    numbers that are formatted into it. *)
Inductive filter_complex : Type :=
| PadOverlay (vw target_h pad_y pos_x pos_y : Z)
| Overlay (pos_x pos_y : Z).

Record command : Type := Command {
  cmd_input : string;
  cmd_filter : filter_complex;
  cmd_output : string
}.

(** What the outside answers while one video is processed. *)
Record world : Type := World {
  probe_size : result (Z * Z);            (* ffprobe, parsed (lines 37-50) *)
  image_open : result image;              (* [Image.open(..).convert("RGBA")] *)
  uniform_scale : float;                  (* the draw of line 87 *)
  resize : image -> Z * Z -> list pixel;  (* the Lanczos kernel of line 94 *)
  uniform_angle : float;                  (* the draw of line 103 *)
  rotate : float -> image -> image;       (* [Image.rotate(.., expand=True)] *)
  image_save : image -> result unit;      (* line 107 *)
  choice_corner : corner;                 (* the draw of line 113 *)
  run_ffmpeg : command -> result unit     (* lines 52-56 *)
}.

(** ** One video (lines 59-167) *)

(** The local variables of [process_one_video] once the overlay position is
    known. *)
Record composition : Type := Composition {
  c_plan : canvas_plan;
  c_resized : Z * Z;        (* [(target_w, target_h_wm)] *)
  c_wm : Z * Z;             (* [(wm_w, wm_h)] *)
  c_pos : Z * Z             (* [(pos_x, pos_y)] *)
}.

Definition compose (w : world) (vw vh : Z) : result composition :=
  p <- plan vw vh ;;
  pil <- image_open w ;;
  target_w <- target_wm_w vw (uniform_scale w) ;;
  let '(w0, h0) := size pil in
  th <- target_h_wm h0 target_w w0 ;;
  let pil := Image (target_w, th) (resize w pil (target_w, th)) in
  pil <- scale_alpha WM_OPACITY pil ;;
  let pil := rotate w (uniform_angle w) pil in
  _ <- image_save w pil ;;
  pos <- resolve (choice_corner w) (size pil) vw (dest_h p vh) MARGIN_X MARGIN_Y ;;
  Ok (Composition p (target_w, th) (size pil) pos).

Definition filter_of (vw : Z) (c : composition) : filter_complex :=
  let p := c_plan c in
  if need_pad p
  then PadOverlay vw (target_h p) (pad_top p) (fst (c_pos c)) (snd (c_pos c))
  else Overlay (fst (c_pos c)) (snd (c_pos c)).

(** ** Paths and file names *)

Fixpoint rfind (c : ascii) (s : string) : Z :=
  match s with
  | EmptyString => -1
  | String a s' =>
      let r := rfind c s' in
      if 0 <=? r then r + 1 else if Ascii.eqb a c then 0 else -1
  end.

Definition slice_to (i : Z) (s : string) : string :=
  substring 0 (Z.to_nat i) s.

Definition slice_from (i : Z) (s : string) : string :=
  substring (Z.to_nat i) (String.length s - Z.to_nat i) s.

(** The loop of [genericpath._splitext] that skips leading dots: is there a
    character other than a dot among the [steps] ones from [filenameIndex]? *)
Fixpoint has_non_dot (p : string) (filenameIndex steps : nat) : bool :=
  match steps with
  | O => false
  | S k =>
      match get filenameIndex p with
      | Some c => if Ascii.eqb c "." then has_non_dot p (S filenameIndex) k else true
      | None => true
      end
  end.

(** [os.path.splitext] (POSIX). *)
Definition splitext (p : string) : string * string :=
  let sepIndex := rfind "/" p in
  let dotIndex := rfind "." p in
  if (sepIndex <? dotIndex)
     && has_non_dot p (Z.to_nat (sepIndex + 1)) (Z.to_nat (dotIndex - (sepIndex + 1)))
  then (slice_to dotIndex p, slice_from dotIndex p)
  else (p, EmptyString).

(** [os.path.basename] and [os.path.join] (POSIX, two components). *)
Definition basename (p : string) : string :=
  slice_from (rfind "/" p + 1) p.

Definition ends_with_sep (a : string) : bool :=
  match get (String.length a - 1) a with
  | Some c => Ascii.eqb c "/"
  | None => false
  end.

Definition path_join (a b : string) : string :=
  match b with
  | String "/" _ => b
  | _ => if (String.length a =? 0)%nat || ends_with_sep a
         then a ++ b else a ++ "/" ++ b
  end.

(** ** The text of a file name

    [os.listdir] hands every name over as a [str]: the bytes of the entry,
    decoded as UTF-8 with the error handler [surrogateescape]
    ([os.fsdecode]; a byte that belongs to no well-formed sequence becomes
    the code point U+DC00 + byte).  A name is modelled by these bytes, a
    [string].  The functions of [os.path] above look for [/] and [.], which
    UTF-8 writes as one byte that is part of no other character, so that
    they cut the bytes where Python cuts the [str].  [str.lower] works on
    the code points, modelled as numbers. *)

Definition byte_of (c : ascii) : Z := Z.of_N (N_of_ascii c).
Definition char_of (b : Z) : ascii := ascii_of_N (Z.to_N b).

Definition between (first last c : Z) : bool := (first <=? c) && (c <=? last).

Definition continuation (b : Z) : bool := between 128 191 b.

(** The well-formed sequences of two, three and four bytes. *)
Definition two_bytes (b0 b1 : Z) : bool := between 194 223 b0 && continuation b1.

Definition three_bytes (b0 b1 b2 : Z) : bool :=
  ((b0 =? 224) && between 160 191 b1 || between 225 236 b0 && continuation b1
   || (b0 =? 237) && between 128 159 b1 || between 238 239 b0 && continuation b1)
  && continuation b2.

Definition four_bytes (b0 b1 b2 b3 : Z) : bool :=
  ((b0 =? 240) && between 144 191 b1 || between 241 243 b0 && continuation b1
   || (b0 =? 244) && between 128 143 b1)
  && continuation b2 && continuation b3.

(** [os.fsdecode]: the code points of a name. *)
Fixpoint fsdecode (s : string) : list Z :=
  match s with
  | EmptyString => []
  | String c0 s0 =>
      let b0 := byte_of c0 in
      let escape := (56320 + b0) :: fsdecode s0 in
      if b0 <? 128 then b0 :: fsdecode s0
      else
        match s0 with
        | EmptyString => escape
        | String c1 s1 =>
            let b1 := byte_of c1 in
            if two_bytes b0 b1
            then ((b0 - 192) * 64 + (b1 - 128)) :: fsdecode s1
            else
              match s1 with
              | EmptyString => escape
              | String c2 s2 =>
                  let b2 := byte_of c2 in
                  if three_bytes b0 b1 b2
                  then ((b0 - 224) * 4096 + (b1 - 128) * 64 + (b2 - 128)) :: fsdecode s2
                  else
                    match s2 with
                    | EmptyString => escape
                    | String c3 s3 =>
                        let b3 := byte_of c3 in
                        if four_bytes b0 b1 b2 b3
                        then ((b0 - 240) * 262144 + (b1 - 128) * 4096
                              + (b2 - 128) * 64 + (b3 - 128)) :: fsdecode s3
                        else escape
                    end
              end
        end
  end.

(** [os.fsencode]: the bytes of a [str], code point by code point.  (The
    surrogates U+DC80..U+DCFF stand for single bytes; no other surrogate
    comes out of [fsdecode] or of [str.lower].) *)
Definition encode_point (c : Z) : string :=
  if c <? 128 then String (char_of c) EmptyString
  else if between 56448 56575 c then String (char_of (c - 56320)) EmptyString
  else if c <? 2048 then
    String (char_of (192 + c / 64)) (String (char_of (128 + c mod 64)) EmptyString)
  else if c <? 65536 then
    String (char_of (224 + c / 4096))
      (String (char_of (128 + c / 64 mod 64))
         (String (char_of (128 + c mod 64)) EmptyString))
  else
    String (char_of (240 + c / 262144))
      (String (char_of (128 + c / 4096 mod 64))
         (String (char_of (128 + c / 64 mod 64))
            (String (char_of (128 + c mod 64)) EmptyString))).

Fixpoint fsencode (l : list Z) : string :=
  match l with
  | [] => EmptyString
  | c :: l' => (encode_point c ++ fsencode l')%string
  end.

(** *** The case tables

    The data of [str.lower] in CPython 3.11, which follows Unicode 14.0.0. *)

(** The simple lowercase mappings, in runs: [(first, last, step, delta)]
    stands for the code points [first], [first + step], ..., [last], each of
    which is mapped to itself plus [delta]. *)
Definition lower_table : list (Z * Z * Z * Z) :=
  [(65, 90, 1, 32); (192, 214, 1, 32); (216, 222, 1, 32); (256, 302, 2, 1);
   (306, 310, 2, 1); (313, 327, 2, 1); (330, 374, 2, 1); (376, 376, 1, -121);
   (377, 381, 2, 1); (385, 385, 1, 210); (386, 388, 2, 1); (390, 390, 1, 206);
   (391, 391, 1, 1); (393, 394, 1, 205); (395, 395, 1, 1); (398, 398, 1, 79);
   (399, 399, 1, 202); (400, 400, 1, 203); (401, 401, 1, 1);
   (403, 403, 1, 205); (404, 404, 1, 207); (406, 406, 1, 211);
   (407, 407, 1, 209); (408, 408, 1, 1); (412, 412, 1, 211);
   (413, 413, 1, 213); (415, 415, 1, 214); (416, 420, 2, 1);
   (422, 422, 1, 218); (423, 423, 1, 1); (425, 425, 1, 218); (428, 428, 1, 1);
   (430, 430, 1, 218); (431, 431, 1, 1); (433, 434, 1, 217); (435, 437, 2, 1);
   (439, 439, 1, 219); (440, 440, 1, 1); (444, 444, 1, 1); (452, 452, 1, 2);
   (453, 453, 1, 1); (455, 455, 1, 2); (456, 456, 1, 1); (458, 458, 1, 2);
   (459, 475, 2, 1); (478, 494, 2, 1); (497, 497, 1, 2); (498, 500, 2, 1);
   (502, 502, 1, -97); (503, 503, 1, -56); (504, 542, 2, 1);
   (544, 544, 1, -130); (546, 562, 2, 1); (570, 570, 1, 10795);
   (571, 571, 1, 1); (573, 573, 1, -163); (574, 574, 1, 10792);
   (577, 577, 1, 1); (579, 579, 1, -195); (580, 580, 1, 69);
   (581, 581, 1, 71); (582, 590, 2, 1); (880, 882, 2, 1); (886, 886, 1, 1);
   (895, 895, 1, 116); (902, 902, 1, 38); (904, 906, 1, 37);
   (908, 908, 1, 64); (910, 911, 1, 63); (913, 929, 1, 32); (932, 939, 1, 32);
   (975, 975, 1, 8); (984, 1006, 2, 1); (1012, 1012, 1, -60);
   (1015, 1015, 1, 1); (1017, 1017, 1, -7); (1018, 1018, 1, 1);
   (1021, 1023, 1, -130); (1024, 1039, 1, 80); (1040, 1071, 1, 32);
   (1120, 1152, 2, 1); (1162, 1214, 2, 1); (1216, 1216, 1, 15);
   (1217, 1229, 2, 1); (1232, 1326, 2, 1); (1329, 1366, 1, 48);
   (4256, 4293, 1, 7264); (4295, 4295, 1, 7264); (4301, 4301, 1, 7264);
   (5024, 5103, 1, 38864); (5104, 5109, 1, 8); (7312, 7354, 1, -3008);
   (7357, 7359, 1, -3008); (7680, 7828, 2, 1); (7838, 7838, 1, -7615);
   (7840, 7934, 2, 1); (7944, 7951, 1, -8); (7960, 7965, 1, -8);
   (7976, 7983, 1, -8); (7992, 7999, 1, -8); (8008, 8013, 1, -8);
   (8025, 8031, 2, -8); (8040, 8047, 1, -8); (8072, 8079, 1, -8);
   (8088, 8095, 1, -8); (8104, 8111, 1, -8); (8120, 8121, 1, -8);
   (8122, 8123, 1, -74); (8124, 8124, 1, -9); (8136, 8139, 1, -86);
   (8140, 8140, 1, -9); (8152, 8153, 1, -8); (8154, 8155, 1, -100);
   (8168, 8169, 1, -8); (8170, 8171, 1, -112); (8172, 8172, 1, -7);
   (8184, 8185, 1, -128); (8186, 8187, 1, -126); (8188, 8188, 1, -9);
   (8486, 8486, 1, -7517); (8490, 8490, 1, -8383); (8491, 8491, 1, -8262);
   (8498, 8498, 1, 28); (8544, 8559, 1, 16); (8579, 8579, 1, 1);
   (9398, 9423, 1, 26); (11264, 11311, 1, 48); (11360, 11360, 1, 1);
   (11362, 11362, 1, -10743); (11363, 11363, 1, -3814);
   (11364, 11364, 1, -10727); (11367, 11371, 2, 1); (11373, 11373, 1, -10780);
   (11374, 11374, 1, -10749); (11375, 11375, 1, -10783);
   (11376, 11376, 1, -10782); (11378, 11378, 1, 1); (11381, 11381, 1, 1);
   (11390, 11391, 1, -10815); (11392, 11490, 2, 1); (11499, 11501, 2, 1);
   (11506, 11506, 1, 1); (42560, 42604, 2, 1); (42624, 42650, 2, 1);
   (42786, 42798, 2, 1); (42802, 42862, 2, 1); (42873, 42875, 2, 1);
   (42877, 42877, 1, -35332); (42878, 42886, 2, 1); (42891, 42891, 1, 1);
   (42893, 42893, 1, -42280); (42896, 42898, 2, 1); (42902, 42920, 2, 1);
   (42922, 42922, 1, -42308); (42923, 42923, 1, -42319);
   (42924, 42924, 1, -42315); (42925, 42925, 1, -42305);
   (42926, 42926, 1, -42308); (42928, 42928, 1, -42258);
   (42929, 42929, 1, -42282); (42930, 42930, 1, -42261);
   (42931, 42931, 1, 928); (42932, 42946, 2, 1); (42948, 42948, 1, -48);
   (42949, 42949, 1, -42307); (42950, 42950, 1, -35384); (42951, 42953, 2, 1);
   (42960, 42960, 1, 1); (42966, 42968, 2, 1); (42997, 42997, 1, 1);
   (65313, 65338, 1, 32); (66560, 66599, 1, 40); (66736, 66771, 1, 40);
   (66928, 66938, 1, 39); (66940, 66954, 1, 39); (66956, 66962, 1, 39);
   (66964, 66965, 1, 39); (68736, 68786, 1, 64); (71840, 71871, 1, 32);
   (93760, 93791, 1, 32); (125184, 125217, 1, 34)].

(** The code points with the property Case_Ignorable, in intervals
    [(first, last)]. *)
Definition case_ignorable_table : list (Z * Z) :=
  [(39, 39); (46, 46); (58, 58); (94, 94); (96, 96); (168, 168); (173, 173);
   (175, 175); (180, 180); (183, 184); (688, 879); (884, 885); (890, 890);
   (900, 901); (903, 903); (1155, 1161); (1369, 1369); (1375, 1375);
   (1425, 1469); (1471, 1471); (1473, 1474); (1476, 1477); (1479, 1479);
   (1524, 1524); (1536, 1541); (1552, 1562); (1564, 1564); (1600, 1600);
   (1611, 1631); (1648, 1648); (1750, 1757); (1759, 1768); (1770, 1773);
   (1807, 1807); (1809, 1809); (1840, 1866); (1958, 1968); (2027, 2037);
   (2042, 2042); (2045, 2045); (2070, 2093); (2137, 2139); (2184, 2184);
   (2192, 2193); (2200, 2207); (2249, 2306); (2362, 2362); (2364, 2364);
   (2369, 2376); (2381, 2381); (2385, 2391); (2402, 2403); (2417, 2417);
   (2433, 2433); (2492, 2492); (2497, 2500); (2509, 2509); (2530, 2531);
   (2558, 2558); (2561, 2562); (2620, 2620); (2625, 2626); (2631, 2632);
   (2635, 2637); (2641, 2641); (2672, 2673); (2677, 2677); (2689, 2690);
   (2748, 2748); (2753, 2757); (2759, 2760); (2765, 2765); (2786, 2787);
   (2810, 2815); (2817, 2817); (2876, 2876); (2879, 2879); (2881, 2884);
   (2893, 2893); (2901, 2902); (2914, 2915); (2946, 2946); (3008, 3008);
   (3021, 3021); (3072, 3072); (3076, 3076); (3132, 3132); (3134, 3136);
   (3142, 3144); (3146, 3149); (3157, 3158); (3170, 3171); (3201, 3201);
   (3260, 3260); (3263, 3263); (3270, 3270); (3276, 3277); (3298, 3299);
   (3328, 3329); (3387, 3388); (3393, 3396); (3405, 3405); (3426, 3427);
   (3457, 3457); (3530, 3530); (3538, 3540); (3542, 3542); (3633, 3633);
   (3636, 3642); (3654, 3662); (3761, 3761); (3764, 3772); (3782, 3782);
   (3784, 3789); (3864, 3865); (3893, 3893); (3895, 3895); (3897, 3897);
   (3953, 3966); (3968, 3972); (3974, 3975); (3981, 3991); (3993, 4028);
   (4038, 4038); (4141, 4144); (4146, 4151); (4153, 4154); (4157, 4158);
   (4184, 4185); (4190, 4192); (4209, 4212); (4226, 4226); (4229, 4230);
   (4237, 4237); (4253, 4253); (4348, 4348); (4957, 4959); (5906, 5908);
   (5938, 5939); (5970, 5971); (6002, 6003); (6068, 6069); (6071, 6077);
   (6086, 6086); (6089, 6099); (6103, 6103); (6109, 6109); (6155, 6159);
   (6211, 6211); (6277, 6278); (6313, 6313); (6432, 6434); (6439, 6440);
   (6450, 6450); (6457, 6459); (6679, 6680); (6683, 6683); (6742, 6742);
   (6744, 6750); (6752, 6752); (6754, 6754); (6757, 6764); (6771, 6780);
   (6783, 6783); (6823, 6823); (6832, 6862); (6912, 6915); (6964, 6964);
   (6966, 6970); (6972, 6972); (6978, 6978); (7019, 7027); (7040, 7041);
   (7074, 7077); (7080, 7081); (7083, 7085); (7142, 7142); (7144, 7145);
   (7149, 7149); (7151, 7153); (7212, 7219); (7222, 7223); (7288, 7293);
   (7376, 7378); (7380, 7392); (7394, 7400); (7405, 7405); (7412, 7412);
   (7416, 7417); (7468, 7530); (7544, 7544); (7579, 7679); (8125, 8125);
   (8127, 8129); (8141, 8143); (8157, 8159); (8173, 8175); (8189, 8190);
   (8203, 8207); (8216, 8217); (8228, 8228); (8231, 8231); (8234, 8238);
   (8288, 8292); (8294, 8303); (8305, 8305); (8319, 8319); (8336, 8348);
   (8400, 8432); (11388, 11389); (11503, 11505); (11631, 11631);
   (11647, 11647); (11744, 11775); (11823, 11823); (12293, 12293);
   (12330, 12333); (12337, 12341); (12347, 12347); (12441, 12446);
   (12540, 12542); (40981, 40981); (42232, 42237); (42508, 42508);
   (42607, 42610); (42612, 42621); (42623, 42623); (42652, 42655);
   (42736, 42737); (42752, 42785); (42864, 42864); (42888, 42890);
   (42994, 42996); (43000, 43001); (43010, 43010); (43014, 43014);
   (43019, 43019); (43045, 43046); (43052, 43052); (43204, 43205);
   (43232, 43249); (43263, 43263); (43302, 43309); (43335, 43345);
   (43392, 43394); (43443, 43443); (43446, 43449); (43452, 43453);
   (43471, 43471); (43493, 43494); (43561, 43566); (43569, 43570);
   (43573, 43574); (43587, 43587); (43596, 43596); (43632, 43632);
   (43644, 43644); (43696, 43696); (43698, 43700); (43703, 43704);
   (43710, 43711); (43713, 43713); (43741, 43741); (43756, 43757);
   (43763, 43764); (43766, 43766); (43867, 43871); (43881, 43883);
   (44005, 44005); (44008, 44008); (44013, 44013); (64286, 64286);
   (64434, 64450); (65024, 65039); (65043, 65043); (65056, 65071);
   (65106, 65106); (65109, 65109); (65279, 65279); (65287, 65287);
   (65294, 65294); (65306, 65306); (65342, 65342); (65344, 65344);
   (65392, 65392); (65438, 65439); (65507, 65507); (65529, 65531);
   (66045, 66045); (66272, 66272); (66422, 66426); (67456, 67461);
   (67463, 67504); (67506, 67514); (68097, 68099); (68101, 68102);
   (68108, 68111); (68152, 68154); (68159, 68159); (68325, 68326);
   (68900, 68903); (69291, 69292); (69446, 69456); (69506, 69509);
   (69633, 69633); (69688, 69702); (69744, 69744); (69747, 69748);
   (69759, 69761); (69811, 69814); (69817, 69818); (69821, 69821);
   (69826, 69826); (69837, 69837); (69888, 69890); (69927, 69931);
   (69933, 69940); (70003, 70003); (70016, 70017); (70070, 70078);
   (70089, 70092); (70095, 70095); (70191, 70193); (70196, 70196);
   (70198, 70199); (70206, 70206); (70367, 70367); (70371, 70378);
   (70400, 70401); (70459, 70460); (70464, 70464); (70502, 70508);
   (70512, 70516); (70712, 70719); (70722, 70724); (70726, 70726);
   (70750, 70750); (70835, 70840); (70842, 70842); (70847, 70848);
   (70850, 70851); (71090, 71093); (71100, 71101); (71103, 71104);
   (71132, 71133); (71219, 71226); (71229, 71229); (71231, 71232);
   (71339, 71339); (71341, 71341); (71344, 71349); (71351, 71351);
   (71453, 71455); (71458, 71461); (71463, 71467); (71727, 71735);
   (71737, 71738); (71995, 71996); (71998, 71998); (72003, 72003);
   (72148, 72151); (72154, 72155); (72160, 72160); (72193, 72202);
   (72243, 72248); (72251, 72254); (72263, 72263); (72273, 72278);
   (72281, 72283); (72330, 72342); (72344, 72345); (72752, 72758);
   (72760, 72765); (72767, 72767); (72850, 72871); (72874, 72880);
   (72882, 72883); (72885, 72886); (73009, 73014); (73018, 73018);
   (73020, 73021); (73023, 73029); (73031, 73031); (73104, 73105);
   (73109, 73109); (73111, 73111); (73459, 73460); (78896, 78904);
   (92912, 92916); (92976, 92982); (92992, 92995); (94031, 94031);
   (94095, 94111); (94176, 94177); (94179, 94180); (110576, 110579);
   (110581, 110587); (110589, 110590); (113821, 113822); (113824, 113827);
   (118528, 118573); (118576, 118598); (119143, 119145); (119155, 119170);
   (119173, 119179); (119210, 119213); (119362, 119364); (121344, 121398);
   (121403, 121452); (121461, 121461); (121476, 121476); (121499, 121503);
   (121505, 121519); (122880, 122886); (122888, 122904); (122907, 122913);
   (122915, 122916); (122918, 122922); (123184, 123197); (123566, 123566);
   (123628, 123631); (125136, 125142); (125252, 125259); (127995, 127999);
   (917505, 917505); (917536, 917631); (917760, 917999)].

(** The code points with the property Cased. *)
Definition cased_table : list (Z * Z) :=
  [(65, 90); (97, 122); (170, 170); (181, 181); (186, 186); (192, 214);
   (216, 246); (248, 442); (444, 447); (452, 659); (661, 696); (704, 705);
   (736, 740); (837, 837); (880, 883); (886, 887); (890, 893); (895, 895);
   (902, 902); (904, 906); (908, 908); (910, 929); (931, 1013); (1015, 1153);
   (1162, 1327); (1329, 1366); (1376, 1416); (4256, 4293); (4295, 4295);
   (4301, 4301); (4304, 4346); (4349, 4351); (5024, 5109); (5112, 5117);
   (7296, 7304); (7312, 7354); (7357, 7359); (7424, 7615); (7680, 7957);
   (7960, 7965); (7968, 8005); (8008, 8013); (8016, 8023); (8025, 8025);
   (8027, 8027); (8029, 8029); (8031, 8061); (8064, 8116); (8118, 8124);
   (8126, 8126); (8130, 8132); (8134, 8140); (8144, 8147); (8150, 8155);
   (8160, 8172); (8178, 8180); (8182, 8188); (8305, 8305); (8319, 8319);
   (8336, 8348); (8450, 8450); (8455, 8455); (8458, 8467); (8469, 8469);
   (8473, 8477); (8484, 8484); (8486, 8486); (8488, 8488); (8490, 8493);
   (8495, 8500); (8505, 8505); (8508, 8511); (8517, 8521); (8526, 8526);
   (8544, 8575); (8579, 8580); (9398, 9449); (11264, 11492); (11499, 11502);
   (11506, 11507); (11520, 11557); (11559, 11559); (11565, 11565);
   (42560, 42605); (42624, 42653); (42786, 42887); (42891, 42894);
   (42896, 42954); (42960, 42961); (42963, 42963); (42965, 42969);
   (42997, 42998); (43000, 43002); (43824, 43866); (43868, 43880);
   (43888, 43967); (64256, 64262); (64275, 64279); (65313, 65338);
   (65345, 65370); (66560, 66639); (66736, 66771); (66776, 66811);
   (66928, 66938); (66940, 66954); (66956, 66962); (66964, 66965);
   (66967, 66977); (66979, 66993); (66995, 67001); (67003, 67004);
   (67456, 67456); (67459, 67461); (67463, 67504); (67506, 67514);
   (68736, 68786); (68800, 68850); (71840, 71903); (93760, 93823);
   (119808, 119892); (119894, 119964); (119966, 119967); (119970, 119970);
   (119973, 119974); (119977, 119980); (119982, 119993); (119995, 119995);
   (119997, 120003); (120005, 120069); (120071, 120074); (120077, 120084);
   (120086, 120092); (120094, 120121); (120123, 120126); (120128, 120132);
   (120134, 120134); (120138, 120144); (120146, 120485); (120488, 120512);
   (120514, 120538); (120540, 120570); (120572, 120596); (120598, 120628);
   (120630, 120654); (120656, 120686); (120688, 120712); (120714, 120744);
   (120746, 120770); (120772, 120779); (122624, 122633); (122635, 122654);
   (125184, 125251); (127280, 127305); (127312, 127337); (127344, 127369)].

Definition in_run (r : Z * Z * Z * Z) (c : Z) : bool :=
  let '(first, last, step, _) := r in
  between first last c && ((c - first) mod step =? 0).

Definition in_interval (c : Z) (r : Z * Z) : bool := between (fst r) (snd r) c.

Definition case_ignorable (c : Z) : bool := existsb (in_interval c) case_ignorable_table.

Definition cased (c : Z) : bool := existsb (in_interval c) cased_table.

(** The lowercase of one code point, whatever stands around it: U+0130
    (capital I with a dot above) becomes two code points, every other one
    becomes one. *)
Definition to_lower (c : Z) : list Z :=
  if c =? 304 then [105; 775]
  else
    match find (fun r => in_run r c) lower_table with
    | Some (_, _, _, delta) => [c + delta]
    | None => [c]
    end.

(** Is the first code point of [l] that is not case-ignorable a cased
    one? *)
Fixpoint next_cased (l : list Z) : bool :=
  match l with
  | [] => false
  | c :: l' => if case_ignorable c then next_cased l' else cased c
  end.

(** [str.lower] on the code points.  The capital sigma, U+03A3, becomes the
    final sigma U+03C2 when a cased code point stands before it and none
    after it, case-ignorable code points set aside, and the small sigma
    U+03C3 otherwise.  [before]: the last code point seen that is not
    case-ignorable was a cased one. *)
Fixpoint do_lower (before : bool) (l : list Z) : list Z :=
  match l with
  | [] => []
  | c :: l' =>
      (if c =? 931
       then [if before && negb (next_cased l') then 962 else 963]
       else to_lower c)
      ++ do_lower (if case_ignorable c then before else cased c) l'
  end.

(** [str.lower] on a name. *)
Definition lower (s : string) : string := fsencode (do_lower false (fsdecode s)).

Definition video_extensions : list string :=
  [".mp4"; ".mov"; ".mkv"; ".avi"; ".webm"; ".mpeg"; ".mpg"; ".flv"]%string.

Definition is_video_file (fn : string) : bool :=
  let ext := lower (snd (splitext fn)) in
  existsb (String.eqb ext) video_extensions.

(** ** The probe (lines 37-50)

    [probe_size] runs ffprobe and reads its standard output.  The model
    starts where [subprocess.run] has returned: [probe_size_of returncode
    stdout] is what the function does with the two fields it looks at.  (The
    name [probe_size] is the field of [world] below, through which
    [process_one_video] sees the outcome.)  The text that ffprobe prints is
    a [string] whose characters are code points below 256. *)

Definition in_range (lo hi : nat) (c : ascii) : bool :=
  let n := nat_of_ascii c in ((lo <=? n) && (n <=? hi))%nat.

(** What [str.strip()] removes. *)
Definition is_space (c : ascii) : bool :=
  in_range 9 13 c || in_range 28 32 c || in_range 133 133 c || in_range 160 160 c.

(** What [int] skips around the digits. *)
Definition int_space (c : ascii) : bool :=
  in_range 9 13 c || in_range 32 32 c || in_range 133 133 c || in_range 160 160 c.

Fixpoint drop_while (p : ascii -> bool) (s : string) : string :=
  match s with
  | EmptyString => EmptyString
  | String c s' => if p c then drop_while p s' else s
  end.

Fixpoint rstrip (s : string) : string :=
  match s with
  | EmptyString => EmptyString
  | String c s' =>
      match rstrip s' with
      | EmptyString => if is_space c then EmptyString else String c EmptyString
      | r => String c r
      end
  end.

Definition strip (s : string) : string := rstrip (drop_while is_space s).

(** [str.split(sep)] with a separator of one character. *)
Fixpoint split (sep : ascii) (s : string) : list string :=
  match s with
  | EmptyString => [EmptyString]
  | String c s' =>
      if Ascii.eqb c sep then EmptyString :: split sep s'
      else match split sep s' with
           | w :: ws => String c w :: ws
           | [] => [String c EmptyString]
           end
  end.

Definition digit (c : ascii) : option Z :=
  if in_range 48 57 c then Some (Z.of_nat (nat_of_ascii c - 48)) else None.

(** The digits of an [int] literal, with single underscores between them:
    the value, the number of digits and what follows them. *)
Fixpoint scan_digits (s : string) (acc : Z) (count : nat) (after_underscore : bool)
  : option (Z * nat * string) :=
  match s with
  | EmptyString => if after_underscore then None else Some (acc, count, s)
  | String c s' =>
      match digit c with
      | Some d => scan_digits s' (10 * acc + d) (S count) false
      | None =>
          if Ascii.eqb c "_"
          then if after_underscore then None else scan_digits s' acc count true
          else if after_underscore then None else Some (acc, count, s)
      end
  end.

(** [sys.get_int_max_str_digits()], by default. *)
Definition int_max_str_digits : nat := 4300.

(** [int(s)] on a [str]; [None] is a [ValueError]. *)
Definition py_int (s : string) : option Z :=
  let s1 := drop_while int_space s in
  let '(negative, s2) :=
    match s1 with
    | String "+" r => (false, r)
    | String "-" r => (true, r)
    | _ => (false, s1)
    end in
  match s2 with
  | String "_" _ => None
  | _ =>
      match scan_digits s2 0 0 false with
      | Some (v, count, rest) =>
          if (count =? 0)%nat then None
          else if (int_max_str_digits <? count)%nat then None
          else match drop_while int_space rest with
               | EmptyString => Some (if negative then - v else v)
               | _ => None
               end
      | None => None
      end
  end.

(** The exceptions that leave [probe_size]. *)
Inductive probe_exn : Type :=
| ProbeRuntimeError   (* line 48 *)
| ProbeValueError     (* [int] of a field that is no integer *)
| ProbeIndexError.    (* [w_h[1]] when there is one field only *)

Inductive probed : Type :=
| Probed (w h : Z)
| ProbeRaises (e : probe_exn).

Definition probe_size_of (returncode : Z) (stdout : string) : probed :=
  if negb (returncode =? 0) || (String.length (strip stdout) =? 0)%nat
  then ProbeRaises ProbeRuntimeError
  else
    let w_h := split "x" (strip stdout) in
    match py_int (nth 0 w_h EmptyString) with
    | None => ProbeRaises ProbeValueError
    | Some w =>
        match nth_error w_h 1 with
        | None => ProbeRaises ProbeIndexError
        | Some f =>
            match py_int f with
            | None => ProbeRaises ProbeValueError
            | Some h => Probed w h
            end
        end
    end.

(** ** What is printed

    One [event] is one call of [print].  The text of a call may hold more
    than one line: the message that line 56 builds for a failure of ffmpeg,
    printed by line 162, has three line breaks. *)

Inductive event : Type :=
| Processing (name : string)                  (* line 60 *)
| ProbeError (e : exn)                        (* line 64 *)
| FfmpegError (e : exn)                       (* line 162 *)
| Done (name : string)                        (* line 167 *)
| NoVideos                                    (* line 178 *)
| ErrorProcessing (fname : string) (e : exn). (* line 188 *)

(** [process_one_video]: what is printed, and how the call ends (a normal
    return, or an exception that leaves the function). *)
Definition process_one_video (w : world) (input_path output_path : string)
  : list event * result unit :=
  let out := [Processing (basename input_path)] in
  match probe_size w with
  | Raise e => (out ++ [ProbeError e], Ok tt)
  | Ok (vw, vh) =>
      match compose w vw vh with
      | Raise e => (out, Raise e)
      | Ok c =>
          match run_ffmpeg w (Command input_path (filter_of vw c) output_path) with
          | Raise e => (out ++ [FfmpegError e], Ok tt)
          | Ok _ => (out ++ [Done (basename output_path)], Ok tt)
          end
      end
  end.

(** ** The batch (lines 175-188) *)

(** The order of [str]: the code points are compared one by one, and the
    first difference decides. *)
Fixpoint points_leb (a b : list Z) : bool :=
  match a, b with
  | [], _ => true
  | _ :: _, [] => false
  | x :: a', y :: b' => if x =? y then points_leb a' b' else x <? y
  end.

Definition str_leb (a b : string) : bool := points_leb (fsdecode a) (fsdecode b).

Definition points_leb_total (a : list Z) :
  forall b, points_leb a b = true \/ points_leb b a = true.
Proof.
  induction a as [|x a IH]; intros b; [left; reflexivity|].
  destruct b as [|y b]; [right; reflexivity|]. cbn [points_leb].
  rewrite (Z.eqb_sym y x). destruct (Z.eqb_spec x y); [apply IH|].
  destruct (Z.ltb_spec x y); [left; reflexivity|right]. apply Z.ltb_lt. lia.
Qed.

Module StringOrder <: TotalLeBool.
Definition t : Type := string.
Definition leb : t -> t -> bool := str_leb.
Definition leb_total : forall a b, leb a b = true \/ leb b a = true :=
  fun a b => points_leb_total (fsdecode a) (fsdecode b).
End StringOrder.

Module StringSort := Sort StringOrder.

(** [sorted] on a list of [str]. *)
Definition sorted (l : list string) : list string := StringSort.sort l.

(** The body of the [for] loop on one file name: the call inside [try], and
    the [except Exception] handler. *)
Definition one_file (w : world) (fname : string) : list event :=
  let in_path := path_join videos_folder fname in
  let out_fname := (fst (splitext fname) ++ "_wm.mp4")%string in
  let out_path := path_join output_folder out_fname in
  match process_one_video w in_path out_path with
  | (out, Ok _) => out
  | (out, Raise e) => out ++ [ErrorProcessing fname e]
  end.

Fixpoint for_files (worlds : string -> world) (files : list string) : list event :=
  match files with
  | [] => []
  | fname :: rest => one_file (worlds fname) fname ++ for_files worlds rest
  end.

(** [listing] is what [os.listdir(videos_folder)] returned; [worlds fname] is
    the outside during the iteration on [fname]. *)
Definition main (listing : list string) (worlds : string -> world) : list event :=
  let files := filter is_video_file (sorted listing) in
  match files with
  | [] => [NoVideos]
  | _ => for_files worlds files
  end.

(** ** Statements of the specification, for comparison *)

(** The ceiling of [a / b] in exact arithmetic. *)
Definition ceil_div (a b : Z) : Z := - ((- a) / b).

(** The target width as the specification words it: the product rounded to
    the nearest integer. *)
Definition spec_target_width (vw : Z) (u : float) : result Z :=
  let variation := add one u in
  x <- imul vw WM_REL_WIDTH ;;
  t <- round_half_even (mul x variation) ;;
  Ok (Z.max 8 t).

(** The left-corner abscissa as the specification words it. *)
Definition spec_left_x (vw : Z) (margin_x : float) : result Z :=
  x <- imul vw margin_x ;; round_half_even x.

(** The guard that the specification describes: an error exactly on a
    dimension that is not positive. *)
Definition dimension_guard (vw vh : Z) : Prop :=
  raises (plan vw vh) <-> (vw <= 0 \/ vh <= 0).

(** A quiet outside: every collaborator succeeds, both draws of
    [random.uniform] are [0.0], and a rotation by [0.0] hands the image back
    as it is. *)
Definition quiet_world (c : corner) (dims : Z * Z) : world :=
  World (Ok dims) (Ok (Image (400, 100) [Pixel 255 255 255 255])) zero
        (fun _ _ => [Pixel 255 255 255 255]) zero
        (fun _ pil => pil) (fun _ => Ok tt) c (fun _ => Ok tt).

(** The end-to-end scenario of the specification: a 1080x1920 video, a
    400x100 watermark, no jitter, no rotation, the left corner. *)
Definition scenario : world := quiet_world Left (1080, 1920).

(** The colour bands of two pixels agree. *)
Definition same_rgb (px px' : pixel) : Prop :=
  red px' = red px /\ green px' = green px /\ blue px' = blue px.

(** An outside in which the probe fails, and a batch in which it fails for
    [a.MOV] only. *)
Definition broken_probe : world :=
  World (Raise RuntimeError) (Ok (Image (400, 100) [])) zero (fun _ _ => []) zero
        (fun _ pil => pil) (fun _ => Ok tt) Left (fun _ => Ok tt).

Definition one_broken (fname : string) : world :=
  if String.eqb fname "a.MOV" then broken_probe else quiet_world Left (1080, 1350).

(** The order of [sorted] on file names. *)
Definition name_le (a b : string) : Prop := str_leb a b = true.

(** What one iteration records after its [Processing] line. *)
Definition recorded (w : world) (fname : string) : list event :=
  let in_path := path_join videos_folder fname in
  let out_path := path_join output_folder (fst (splitext fname) ++ "_wm.mp4")%string in
  match probe_size w with
  | Raise e => [ProbeError e]
  | Ok (vw, vh) =>
      match compose w vw vh with
      | Raise e => [ErrorProcessing fname e]
      | Ok c =>
          match run_ffmpeg w (Command in_path (filter_of vw c) out_path) with
          | Raise e => [FfmpegError e]
          | Ok _ => [Done (basename out_path)]
          end
      end
  end.

(** ** The rotation, after the specification

    The script hands the rotation to Pillow (line 104) and reads the size of
    the result (line 110); the model has it as the field [rotate] of
    [world].  The specification says what comes back (4.2, step 4, and the
    glossary): the image is turned about its centre, and the canvas is the
    smallest rectangle with sides along the axes that holds the turned
    image.  The definitions below follow these words, on real numbers and
    before any rounding to whole pixels: the four corners of a [w] x [h]
    image centred at the origin are turned by [theta] (in radians), and the
    box spans their abscissas and their ordinates. *)

Section SpecRotation.
Import Reals.
Local Open Scope R_scope.

Definition spec_radians (degrees : R) : R := degrees * PI / 180.

Definition spec_turn_x (theta x y : R) : R := x * cos theta - y * sin theta.
Definition spec_turn_y (theta x y : R) : R := x * sin theta + y * cos theta.

Definition spec_extent (a b c d : R) : R :=
  Rmax (Rmax a b) (Rmax c d) - Rmin (Rmin a b) (Rmin c d).

Definition spec_box_width (w h theta : R) : R :=
  spec_extent (spec_turn_x theta (w / 2) (h / 2)) (spec_turn_x theta (- w / 2) (h / 2))
              (spec_turn_x theta (- w / 2) (- h / 2)) (spec_turn_x theta (w / 2) (- h / 2)).

Definition spec_box_height (w h theta : R) : R :=
  spec_extent (spec_turn_y theta (w / 2) (h / 2)) (spec_turn_y theta (- w / 2) (h / 2))
              (spec_turn_y theta (- w / 2) (- h / 2)) (spec_turn_y theta (w / 2) (- h / 2)).

End SpecRotation.

(** * Proofs *)

(** ** Vocabulary of the rounding proofs *)

(** One run of right shifts: the mantissa is divided, and the final position
    is exact just when no bit was lost. *)
Definition shifted (n : Z) (a b : shr_record) : Prop :=
  0 <= shr_m a ->
  shr_m b = shr_m a / 2 ^ n /\
  (loc_of_shr_record b = loc_Exact <->
   loc_of_shr_record a = loc_Exact /\ shr_m a mod 2 ^ n = 0).

(** The number of bits that [shr_fexp] drops. *)
Definition dropped (m e : Z) : Z :=
  Z.max 0 (fexp prec emax (Zdigits2 m + e) - e).

(** How [binary_round_aux] packs a mantissa that already fits. *)
Definition pack (sx : bool) (m e : Z) : float :=
  match m with
  | Z0 => S754_zero sx
  | Zpos p => if e <=? 971 then S754_finite sx p e else S754_infinity sx
  | Zneg _ => S754_nan
  end.

(** [|f| <= A * 2^a], and [f] is finite; the comparison is made on integers
    after scaling by [2^(-s)]. *)
Definition mag_le (f : float) (A a s : Z) : Prop :=
  match f with
  | S754_zero _ => True
  | S754_finite _ m e => s <= e /\ Zpos m * 2 ^ (e - s) <= A * 2 ^ (a - s)
  | _ => False
  end.

(** [A * 2^a <= |f|]. *)
Definition mag_ge (f : float) (A a s : Z) : Prop :=
  match f with
  | S754_finite _ m e => s <= e /\ A * 2 ^ (a - s) <= Zpos m * 2 ^ (e - s)
  | S754_infinity _ => True
  | _ => False
  end.

(** The sign of the result is the sign that was asked for. *)
Definition sign_is (sx : bool) (f : float) : Prop :=
  match f with
  | S754_zero s | S754_infinity s | S754_finite s _ _ => s = sx
  | S754_nan => False
  end.

(** ** Values on a scale

    [fval s f] is the value of [f] multiplied by [2^(-s)]; it is an integer
    as soon as [s] is below the exponent of [f] ([finite_at s f]). *)
Definition fval (s : Z) (f : float) : Z :=
  match f with
  | S754_finite sg m e => cond_Zopp sg (Zpos m * 2 ^ (e - s))
  | _ => 0
  end.

Definition finite_at (s : Z) (f : float) : Prop :=
  match f with
  | S754_zero _ => True
  | S754_finite _ _ e => s <= e
  | _ => False
  end.

(** [v * 2^s] is the magnitude of a binary64 number (with room to spare at
    the top of the range). *)
Definition grid (s v : Z) : Prop :=
  exists A a, 0 <= A < 2 ^ 53 /\ s <= a /\ -1074 <= a <= 918 /\ v = A * 2 ^ (a - s).

Definition scale : Z := -1074.

Definition value (f : float) : Z := fval scale f.

(** The plan as a function of the target height. *)
Definition plan_of (th vh : Z) : canvas_plan :=
  if vh <? th
  then CanvasPlan th true ((th - vh) / 2) (th - vh - (th - vh) / 2)
  else CanvasPlan th false 0 0.

(** A double between 0 and 1. *)
Definition unit_float (m : float) : Prop :=
  valid_binary prec emax m = true /\ leb zero m = true /\ leb m one = true.

(** Floor and ceiling of the exact product of an integer and a float. *)
Definition floor_mul (n : Z) (m : float) : Z := (n * value m) / 2 ^ (- scale).

Definition ceil_mul (n : Z) (m : float) : Z := - ((- (n * value m)) / 2 ^ (- scale)).

(** After [n >= 1] right shifts the round bit is bit [n - 1] of the mantissa
    that was shifted. *)
Definition round_bit (n : Z) (a b : shr_record) : Prop :=
  0 <= shr_m a -> shr_r b = Z.odd (shr_m a / 2 ^ (n - 1)).

(** ** Vocabulary of the statements on names and on the probe *)

(** A name as [os.listdir] returns it: no separator. *)
Definition no_sep (s : string) : Prop := rfind "/" s = -1.

(** A string made of dots only (the empty string included). *)
Fixpoint all_dots (s : string) : bool :=
  match s with
  | EmptyString => true
  | String c s' => Ascii.eqb c "." && all_dots s'
  end.

Fixpoint all_chars (p : ascii -> bool) (s : string) : bool :=
  match s with
  | EmptyString => true
  | String c s' => p c && all_chars p s'
  end.

Definition is_digit (c : ascii) : bool := in_range 48 57 c.

Definition not_space (c : ascii) : bool := negb (is_space c).

Definition not_sep (sep c : ascii) : bool := negb (Ascii.eqb c sep).

(** The number that a string of decimal digits denotes. *)
Fixpoint decimal_value (acc : Z) (s : string) : Z :=
  match s with
  | EmptyString => acc
  | String c s' => decimal_value (10 * acc + Z.of_nat (nat_of_ascii c - 48)) s'
  end.

(** A field as ffprobe prints it: decimal digits, at least one, not more
    than [int] accepts. *)
Definition numeral (s : string) : Prop :=
  all_chars is_digit s = true /\
  (0 < String.length s <= int_max_str_digits)%nat.

Definition newline : string := String (ascii_of_nat 10) EmptyString.

(** Where the scan of the digits stops. *)
Definition stops (rest : string) : Prop :=
  match rest with
  | EmptyString => True
  | String c _ => digit c = None /\ Ascii.eqb c "_" = false
  end.

(** A code point of Unicode. *)
Definition valid_point (c : Z) : Prop := 0 <= c <= 1114111.

(** A name given by its bytes. *)
Definition of_bytes (l : list Z) : string := string_of_list_ascii (map char_of l).

(** The bytes of a name, as numbers; a name of ASCII characters only. *)
Definition codes (s : string) : list Z := map byte_of (list_ascii_of_string s).

Definition ascii_only (s : string) : bool := forallb (fun b => b <? 128) (codes s).

(** The code points that [str.lower] can turn into the ASCII character [a]:
    the character itself, the capital letter of a small letter, and for [k]
    the Kelvin sign U+212A. *)
Definition lowers_to (c a : Z) : Prop :=
  c = a \/ (97 <= a <= 122 /\ c = a - 32) \/ (a = 107 /\ c = 8490).

Definition unlower (a : Z) : list Z :=
  a :: (if between 97 122 a then [a - 32] else [])
    ++ (if a =? 107 then [8490] else []).

Fixpoint unlower_all (m : list Z) : list (list Z) :=
  match m with
  | [] => [[]]
  | a :: m' => flat_map (fun c => map (cons c) (unlower_all m')) (unlower a)
  end.

(** The spellings of an extension that the filter takes: every small letter
    as it is or as a capital, and for [k] also the Kelvin sign (the bytes
    E2 84 AA). *)
Definition kelvin_sign : string := of_bytes [226; 132; 170].

Definition letter_variants (c : ascii) : list string :=
  String c EmptyString
  :: (if between 97 122 (byte_of c)
      then [String (char_of (byte_of c - 32)) EmptyString] else [])
  ++ (if byte_of c =? 107 then [kelvin_sign] else []).

Fixpoint case_variants (t : string) : list string :=
  match t with
  | EmptyString => [EmptyString]
  | String c t' =>
      flat_map (fun v => map (append v) (case_variants t')) (letter_variants c)
  end.

(** The letters A to Z made small, byte by byte, and what this can come
    from. *)
Definition ascii_lower_char (c : ascii) : ascii :=
  if between 65 90 (byte_of c) then char_of (byte_of c + 32) else c.

Fixpoint ascii_lower (s : string) : string :=
  match s with
  | EmptyString => EmptyString
  | String c s' => String (ascii_lower_char c) (ascii_lower s')
  end.

Definition ascii_raise (a : ascii) : list ascii :=
  a :: (if between 97 122 (byte_of a) then [char_of (byte_of a - 32)] else []).

Fixpoint ascii_raise_all (t : string) : list string :=
  match t with
  | EmptyString => [EmptyString]
  | String a t' => flat_map (fun c => map (String c) (ascii_raise_all t')) (ascii_raise a)
  end.

Definition among (l : list string) (s : string) : bool := existsb (String.eqb s) l.

(** ** The model on concrete inputs

    The values on the right are what CPython prints for the same
    expressions. *)

Example literal_MARGIN_X : MARGIN_X = S754_finite false 0x1999999999999a (-57).
Proof. reflexivity. Qed.

Example literal_WM_OPACITY : WM_OPACITY = S754_finite false 0x1999999999999a (-56).
Proof. reflexivity. Qed.

Example literal_SCALE_VARIATION :
  SCALE_VARIATION = S754_finite false 0x13333333333333 (-55).
Proof. reflexivity. Qed.

Example ceil_1081 : (q <- truediv (1081 * 16) 9 ;; ceil q) = Ok 1922.
Proof. reflexivity. Qed.

Example ceil_minus_1081 : (q <- truediv (-1081 * 16) 9 ;; ceil q) = Ok (-1921).
Proof. reflexivity. Qed.

Example truediv_wide :
  truediv (2 ^ 60 + 1) 9 = Ok (S754_finite false 0x1c71c71c71c71c 4).
Proof. reflexivity. Qed.

Example truediv_minus_zero : truediv 0 (-9) = Ok (S754_zero true).
Proof. reflexivity. Qed.

Example int_of_67_5 : target_h_wm 100 270 400 = Ok 67.
Proof. reflexivity. Qed.

Example int_of_minus_54_75 : (x <- imul (-1095) MARGIN_X ;; trunc x) = Ok (-54).
Proof. reflexivity. Qed.

Example round_54_5 : spec_left_x 1090 MARGIN_X = Ok 54.
Proof. reflexivity. Qed.

Example round_55_5 : spec_left_x 1110 MARGIN_X = Ok 56.
Proof. reflexivity. Qed.

Example splitext_plain : splitext "clip.MP4" = ("clip", ".MP4")%string.
Proof. reflexivity. Qed.

Example splitext_dotfile : splitext ".MP4" = (".MP4", "")%string.
Proof. reflexivity. Qed.

Example splitext_dir : splitext "a/b.c/d" = ("a/b.c/d", "")%string.
Proof. reflexivity. Qed.

Example splitext_two : splitext "a.tar.gz" = ("a.tar", ".gz")%string.
Proof. reflexivity. Qed.

Example is_video_file_dotfile : is_video_file ".MP4" = false.
Proof. reflexivity. Qed.

Example is_video_file_kelvin :
  is_video_file (of_bytes [97; 46; 109; 226; 132; 170; 118]) = true.
Proof. vm_compute. reflexivity. Qed.

Example lower_kelvin : lower (of_bytes [97; 46; 77; 226; 132; 170; 86]) = "a.mkv"%string.
Proof. vm_compute. reflexivity. Qed.

Example lower_dotted_I : fsdecode (lower (of_bytes [196; 176])) = [105; 775].
Proof. vm_compute. reflexivity. Qed.

Example lower_final_sigma :
  fsdecode (lower (of_bytes [206; 159; 206; 148; 206; 159; 206; 163]))
  = [959; 948; 959; 962].
Proof. vm_compute. reflexivity. Qed.

Example lower_sigma_after_dot :
  fsdecode (lower (of_bytes [97; 46; 206; 163])) = [97; 46; 962] /\
  fsdecode (lower (of_bytes [46; 206; 163])) = [46; 963].
Proof. vm_compute. split; reflexivity. Qed.

Example lower_undecodable :
  fsdecode (of_bytes [65; 255; 46; 77]) = [65; 56575; 46; 77] /\
  lower (of_bytes [65; 255; 46; 77]) = of_bytes [97; 255; 46; 109].
Proof. vm_compute. split; reflexivity. Qed.

Example sorted_names :
  sorted ["b.mp4"; "B.mp4"; "a10.mp4"; "a2.mp4"; "_x"; "Z"]%string
  = ["B.mp4"; "Z"; "_x"; "a10.mp4"; "a2.mp4"; "b.mp4"]%string.
Proof. reflexivity. Qed.

Example sorted_code_points :
  sorted [of_bytes [238; 128; 128]; of_bytes [255]; "z"%string]
  = ["z"%string; of_bytes [255]; of_bytes [238; 128; 128]].
Proof. vm_compute. reflexivity. Qed.

Example batch_of_three :
  main ["b.mp4"; "a.MOV"; "c.txt"]%string one_broken
  = [Processing "a.MOV"; ProbeError RuntimeError;
     Processing "b.mp4"; Done "b_wm.mp4"].
Proof. vm_compute. reflexivity. Qed.

(** The probe on what ffprobe prints, and on what it should not print. *)

Example probe_1920x1080 :
  probe_size_of 0 ("1920x1080" ++ newline) = Probed 1920 1080.
Proof. reflexivity. Qed.

Example probe_signs : probe_size_of 0 " -5x+0_3 " = Probed (-5) 3.
Proof. reflexivity. Qed.

Example probe_one_field : probe_size_of 0 "1920" = ProbeRaises ProbeIndexError.
Proof. reflexivity. Qed.

Example probe_not_available : probe_size_of 0 "N/AxN/A" = ProbeRaises ProbeValueError.
Proof. reflexivity. Qed.

Example probe_blank : probe_size_of 0 "  " = ProbeRaises ProbeRuntimeError.
Proof. reflexivity. Qed.

(** An exact proportion that [int] cuts one below: 27 * 13 / 3 = 117. *)
Example target_h_wm_one_less : target_h_wm 27 13 3 = Ok 116.
Proof. vm_compute. reflexivity. Qed.

(** ** Powers of two and bit lengths *)

Lemma pow2_gt0 n : 0 <= n -> 0 < 2 ^ n.
Proof. intros; now apply Z.pow_pos_nonneg. Qed.

Lemma pow2_split a b : 0 <= a -> 0 <= b -> 2 ^ (a + b) = 2 ^ a * 2 ^ b.
Proof. intros; now apply Z.pow_add_r. Qed.

Lemma digits2_pos_bounds p :
  2 ^ (Zpos (digits2_pos p) - 1) <= Zpos p < 2 ^ Zpos (digits2_pos p).
Proof.
  induction p as [p IH|p IH|]; cbn [digits2_pos].
  - rewrite Pos2Z.inj_succ.
    replace (Z.succ (Zpos (digits2_pos p)) - 1) with (Zpos (digits2_pos p)) by lia.
    rewrite Z.pow_succ_r by lia.
    replace (2 ^ Zpos (digits2_pos p)) with (2 * 2 ^ (Zpos (digits2_pos p) - 1)) in *
      by (rewrite <- Z.pow_succ_r by lia; f_equal; lia).
    lia.
  - rewrite Pos2Z.inj_succ.
    replace (Z.succ (Zpos (digits2_pos p)) - 1) with (Zpos (digits2_pos p)) by lia.
    rewrite Z.pow_succ_r by lia.
    replace (2 ^ Zpos (digits2_pos p)) with (2 * 2 ^ (Zpos (digits2_pos p) - 1)) in *
      by (rewrite <- Z.pow_succ_r by lia; f_equal; lia).
    lia.
  - cbn. lia.
Qed.

Lemma Zdigits2_bounds m :
  0 < m -> 2 ^ (Zdigits2 m - 1) <= m < 2 ^ Zdigits2 m.
Proof.
  destruct m as [|p|p]; try lia. intros _. apply digits2_pos_bounds.
Qed.

Lemma Zdigits2_pos m : 0 < m -> 0 < Zdigits2 m.
Proof. destruct m; cbn; lia. Qed.

(** If [m < 2^k] then [m] has at most [k] digits. *)
Lemma Zdigits2_le m k : 0 < m -> 0 <= k -> m < 2 ^ k -> Zdigits2 m <= k.
Proof.
  intros Hm Hk Hlt.
  destruct (Z_le_gt_dec (Zdigits2 m) k) as [H|H]; [exact H|exfalso].
  pose proof (Zdigits2_bounds m Hm) as [Hlo _].
  assert (2 ^ k <= 2 ^ (Zdigits2 m - 1)) by (apply Z.pow_le_mono_r; lia).
  lia.
Qed.

Lemma Zdigits2_ge m k : 0 < m -> 2 ^ k <= m -> k + 1 <= Zdigits2 m.
Proof.
  intros Hm Hle.
  destruct (Z_le_gt_dec (k + 1) (Zdigits2 m)) as [H|H]; [exact H|exfalso].
  pose proof (Zdigits2_bounds m Hm) as [_ Hhi].
  pose proof (Zdigits2_pos m Hm).
  assert (2 ^ Zdigits2 m <= 2 ^ k) by (apply Z.pow_le_mono_r; lia).
  lia.
Qed.

(** ** Right shifts of the mantissa *)

Lemma shifted_1 a : shifted 1 a (shr_1 a).
Proof.
  destruct a as [m r s]. unfold shifted. cbn [shr_m]. intros Hm.
  change (2 ^ 1) with 2.
  destruct m as [|[p|p|]|p]; try lia; cbn [shr_1 shr_m loc_of_shr_record].
  - split; [reflexivity|]. destruct r, s; cbn; intuition congruence.
  - split. { rewrite Pos2Z.inj_xI. apply Z.div_unique with (r := 1); lia. }
    assert (Z.pos p~1 mod 2 = 1).
    { rewrite Pos2Z.inj_xI. symmetry. apply Z.mod_unique with (q := Z.pos p); lia. }
    destruct (r || s); split; try discriminate; intros [_ H']; lia.
  - split. { rewrite Pos2Z.inj_xO. apply Z.div_unique with (r := 0); lia. }
    assert (Z.pos p~0 mod 2 = 0).
    { rewrite Pos2Z.inj_xO, Z.mul_comm. apply Z.mod_mul. lia. }
    destruct r, s; cbn; intuition congruence.
  - split; [reflexivity|].
    destruct (r || s); split; try discriminate; intros [_ H']; cbn in H'; lia.
Qed.

Lemma shifted_trans n k a b c :
  0 <= n -> 0 <= k -> shifted n a b -> shifted k b c -> shifted (n + k) a c.
Proof.
  unfold shifted. intros Hn Hk Hab Hbc Ha.
  destruct (Hab Ha) as [Hb1 Hb2].
  assert (Hb : 0 <= shr_m b).
  { rewrite Hb1. apply Z.div_pos; [exact Ha|now apply pow2_gt0]. }
  destruct (Hbc Hb) as [Hc1 Hc2].
  pose proof (pow2_gt0 n Hn). pose proof (pow2_gt0 k Hk).
  split.
  - rewrite Hc1, Hb1, pow2_split by assumption.
    rewrite Z.div_div by lia. reflexivity.
  - rewrite Hc2, Hb2, pow2_split by assumption.
    rewrite Z.rem_mul_r by lia. rewrite <- Hb1.
    pose proof (Z.mod_pos_bound (shr_m a) (2 ^ n) ltac:(lia)).
    pose proof (Z.mod_pos_bound (shr_m b) (2 ^ k) ltac:(lia)).
    split.
    + intros [[Hae Ham] Hbm]. split; [exact Hae|]. rewrite Ham, Hbm. lia.
    + intros [Hae Hs].
      assert (shr_m a mod 2 ^ n = 0) by nia.
      assert (shr_m b mod 2 ^ k = 0) by nia.
      auto.
Qed.

Lemma shifted_iter p a : shifted (Zpos p) a (iter_pos shr_1 p a).
Proof.
  revert a. induction p as [p IH|p IH|]; intros a; cbn [iter_pos].
  - replace (Zpos p~1) with (1 + (Zpos p + Zpos p)) by lia.
    apply shifted_trans with (b := shr_1 a); try lia; [apply shifted_1|].
    apply shifted_trans with (b := iter_pos shr_1 p (shr_1 a)); try lia; apply IH.
  - replace (Zpos p~0) with (Zpos p + Zpos p) by lia.
    apply shifted_trans with (b := iter_pos shr_1 p a); try lia; apply IH.
  - apply shifted_1.
Qed.

Lemma loc_of_shr_record_of_loc m l :
  loc_of_shr_record (shr_record_of_loc m l) = l.
Proof. destruct l as [|[]]; reflexivity. Qed.

Lemma shr_m_of_loc m l : shr_m (shr_record_of_loc m l) = m.
Proof. destruct l as [|[]]; reflexivity. Qed.

Lemma shr_fexp_spec m e l :
  0 <= m ->
  let n := dropped m e in
  snd (shr_fexp prec emax m e l) = e + n /\
  shr_m (fst (shr_fexp prec emax m e l)) = m / 2 ^ n /\
  (loc_of_shr_record (fst (shr_fexp prec emax m e l)) = loc_Exact <->
   l = loc_Exact /\ m mod 2 ^ n = 0).
Proof.
  intros Hm n.
  unfold shr_fexp, shr, n, dropped.
  destruct (fexp prec emax (Zdigits2 m + e) - e) as [|p|p] eqn:E; cbn [fst snd].
  - rewrite Z.max_l by lia. rewrite Z.add_0_r, shr_m_of_loc, loc_of_shr_record_of_loc.
    change (2 ^ 0) with 1. rewrite Z.div_1_r, Z.mod_1_r. intuition.
  - rewrite Z.max_r by lia.
    pose proof (shifted_iter p (shr_record_of_loc m l)) as H.
    unfold shifted in H. rewrite shr_m_of_loc, loc_of_shr_record_of_loc in H.
    destruct (H Hm) as [H1 H2]. auto.
  - rewrite Z.max_l by lia. rewrite Z.add_0_r, shr_m_of_loc, loc_of_shr_record_of_loc.
    change (2 ^ 0) with 1. rewrite Z.div_1_r, Z.mod_1_r. intuition.
Qed.

(** ** One rounding step: [binary_round_aux] *)

Lemma fexp_eq e : fexp prec emax e = Z.max (e - 53) (-1074).
Proof. reflexivity. Qed.

Lemma dropped_nonneg m e : 0 <= dropped m e.
Proof. unfold dropped. lia. Qed.

Lemma dropped_small m e :
  0 <= m -> m < 2 ^ 53 -> -1074 <= e -> dropped m e = 0.
Proof.
  intros Hm Hlt He. unfold dropped. rewrite fexp_eq.
  destruct (Z.eq_dec m 0) as [->|Hne].
  - cbn [Zdigits2]. lia.
  - pose proof (Zdigits2_le m 53 ltac:(lia) ltac:(lia) Hlt). lia.
Qed.

Lemma round_nearest_even_bracket m l :
  m <= round_nearest_even m l <= m + 1 /\
  (l = loc_Exact -> round_nearest_even m l = m).
Proof.
  destruct l as [|[]]; cbn [round_nearest_even]; try (split; [lia|]; congruence).
  destruct (Z.even m); split; try lia; congruence.
Qed.

Lemma binary_round_aux_spec sx mx ex lx :
  0 <= mx ->
  let n := dropped mx ex in
  exists m2 m3 e3,
    mx / 2 ^ n <= m2 <= mx / 2 ^ n + 1 /\
    (lx = loc_Exact -> mx mod 2 ^ n = 0 -> m2 = mx / 2 ^ n) /\
    0 <= m3 < 2 ^ 53 /\
    ex + n <= e3 /\ -1074 <= e3 /\
    m3 * 2 ^ (e3 - (ex + n)) = m2 /\
    (2 ^ 52 <= m3 \/ e3 <= Z.max ex (-1074)) /\
    binary_round_aux prec emax sx mx ex lx = pack sx m3 e3.
Proof.
  intros Hmx n.
  pose proof (dropped_nonneg mx ex) as Hn. fold n in Hn.
  pose proof (pow2_gt0 n Hn) as Hpn.
  destruct (shr_fexp_spec mx ex lx Hmx) as (He1 & Hm1 & Hx1). fold n in He1, Hm1, Hx1.
  unfold binary_round_aux.
  destruct (shr_fexp prec emax mx ex lx) as [mrs1 e1]. cbn [fst snd] in *.
  set (m2 := round_nearest_even (shr_m mrs1) (loc_of_shr_record mrs1)).
  destruct (round_nearest_even_bracket (shr_m mrs1) (loc_of_shr_record mrs1)) as [Hb Hbe].
  fold m2 in Hb, Hbe. rewrite Hm1 in Hb, Hbe.
  assert (Hm1pos : 0 <= mx / 2 ^ n) by (apply Z.div_pos; lia).
  assert (Hm2 : 0 <= m2) by lia.
  assert (Hm1lt : mx / 2 ^ n < 2 ^ 53).
  { destruct (Z.eq_dec mx 0) as [->|Hne]; [rewrite Z.div_0_l by lia; now apply pow2_gt0|].
    apply Z.div_lt_upper_bound; [lia|].
    pose proof (Zdigits2_bounds mx ltac:(lia)) as [_ Hhi].
    pose proof (Zdigits2_pos mx ltac:(lia)) as Hd.
    assert (Hnd : Zdigits2 mx - 53 <= n).
    { unfold n, dropped. rewrite fexp_eq. lia. }
    rewrite Z.mul_comm, <- pow2_split by lia.
    assert (2 ^ Zdigits2 mx <= 2 ^ (53 + n)) by (apply Z.pow_le_mono_r; lia).
    lia. }
  assert (He1lo : -1074 <= e1).
  { rewrite He1. unfold n, dropped. rewrite fexp_eq. lia. }
  destruct (shr_fexp_spec m2 e1 loc_Exact Hm2) as (He3 & Hm3 & _).
  destruct (shr_fexp prec emax m2 e1 loc_Exact) as [mrs3 e3]. cbn [fst snd] in *.
  exists m2, (shr_m mrs3), e3.
  assert (Hexact : lx = loc_Exact -> mx mod 2 ^ n = 0 -> m2 = mx / 2 ^ n).
  { intros H1 H2. apply Hbe, Hx1. auto. }
  assert (Hpack : match shr_m mrs3 with
                  | 0 => S754_zero sx
                  | Z.pos m => if e3 <=? emax - prec then S754_finite sx m e3
                               else S754_infinity sx
                  | Z.neg _ => S754_nan
                  end = pack sx (shr_m mrs3) e3) by reflexivity.
  assert (Hcases : m2 < 2 ^ 53 \/ m2 = 2 ^ 53) by lia.
  destruct Hcases as [Hlt|Heq].
  - rewrite (dropped_small m2 e1 Hm2 Hlt He1lo) in He3, Hm3.
    change (2 ^ 0) with 1 in Hm3. rewrite Z.div_1_r in Hm3.
    rewrite Hm3, He3, He1 in *.
    replace (ex + n + 0 - (ex + n)) with 0 by lia. change (2 ^ 0) with 1.
    repeat split; try lia; auto.
    destruct (Z.eq_dec n 0) as [Hn0|Hn0]; [right; lia|].
    assert (Hfe : ex + n = fexp prec emax (Zdigits2 mx + ex)) by (unfold n, dropped in *; lia).
    rewrite fexp_eq in Hfe.
    destruct (Z_le_gt_dec (Zdigits2 mx + ex - 53) (-1074)); [right; lia|left].
    assert (Hnd : n = Zdigits2 mx - 53) by lia.
    assert (Hmxpos : 0 < mx).
    { destruct (Z.eq_dec mx 0) as [->|]; [cbn [Zdigits2] in Hnd; lia|lia]. }
    pose proof (Zdigits2_bounds mx Hmxpos) as [Hlo _].
    assert (2 ^ 52 <= mx / 2 ^ n); [|lia].
    apply Z.div_le_lower_bound; [lia|].
    rewrite <- pow2_split by lia. replace (n + 52) with (Zdigits2 mx - 1) by lia. exact Hlo.
  - assert (Hd : dropped m2 e1 = 1).
    { unfold dropped. rewrite fexp_eq, Heq. change (Zdigits2 (2 ^ 53)) with 54. lia. }
    rewrite Hd in He3, Hm3. rewrite Heq in Hm3. change (2 ^ 53 / 2 ^ 1) with (2 ^ 52) in Hm3.
    rewrite Hm3, He3, He1 in *.
    replace (ex + n + 1 - (ex + n)) with 1 by lia.
    repeat split; try lia; auto.
Qed.

(** ** A rounded value stays below, and above, a float that bounds it *)

Lemma pow2_lt_inv a b : 0 <= b -> 2 ^ a < 2 ^ b -> a < b.
Proof.
  intros Hb H. destruct (Z_lt_le_dec a b) as [|Hle]; [assumption|exfalso].
  assert (2 ^ b <= 2 ^ a) by (apply Z.pow_le_mono_r; lia). lia.
Qed.

Lemma round_upper sx mx ex lx A a s :
  0 <= mx -> s <= ex -> s <= a ->
  0 <= A < 2 ^ 53 -> -1074 <= a <= 918 ->
  mx * 2 ^ (ex - s) <= A * 2 ^ (a - s) ->
  (lx <> loc_Exact -> mx * 2 ^ (ex - s) < A * 2 ^ (a - s)) ->
  (lx = loc_Exact \/ ex <= fexp prec emax (Zdigits2 mx + ex)) ->
  mag_le (binary_round_aux prec emax sx mx ex lx) A a s.
Proof.
  intros Hmx Hs Hsa HA Ha Hle Hlt Hcan.
  destruct (binary_round_aux_spec sx mx ex lx Hmx)
    as (m2 & m3 & e3 & Hb & Hexact & Hm3 & He3 & He3lo & Hval & Hnorm & ->).
  set (n := dropped mx ex) in *.
  pose proof (dropped_nonneg mx ex) as Hn. fold n in Hn.
  set (P := 2 ^ (ex - s)) in *. assert (HP : 0 < P) by (apply pow2_gt0; lia).
  pose proof (pow2_gt0 n Hn) as Hpn.
  assert (Hpk : 0 < 2 ^ (e3 - (ex + n))) by (apply pow2_gt0; lia).
  assert (Hscale : m3 * 2 ^ (e3 - s) = m2 * (2 ^ n * P)).
  { replace (e3 - s) with ((e3 - (ex + n)) + (n + (ex - s))) by lia.
    rewrite pow2_split by lia. rewrite (pow2_split n) by lia.
    fold P. rewrite <- Hval. ring. }
  assert (Hm1 : 0 <= mx / 2 ^ n) by (apply Z.div_pos; lia).
  assert (Hgoal : m3 * 2 ^ (e3 - s) <= A * 2 ^ (a - s)).
  { rewrite Hscale.
    destruct (Z_le_gt_dec (ex + n) a) as [Hae|Hae].
    - (* the bound is on the grid of the result *)
      set (G := A * 2 ^ (a - (ex + n))).
      assert (HG : A * 2 ^ (a - s) = G * (2 ^ n * P)).
      { unfold G. replace (a - s) with ((a - (ex + n)) + (n + (ex - s))) by lia.
        rewrite pow2_split by lia. rewrite (pow2_split n) by lia. fold P. ring. }
      rewrite HG in *.
      assert (HmG : mx <= G * 2 ^ n).
      { apply (Z.mul_le_mono_pos_r _ _ P HP). lia. }
      assert (Hm1G : mx / 2 ^ n <= G).
      { apply Z.div_le_upper_bound; [lia|]. lia. }
      assert (m2 <= G);
        [|apply Z.mul_le_mono_nonneg_r; [|assumption]; apply Z.lt_le_incl, Z.mul_pos_pos; lia].
      destruct (Z.eq_dec (mx / 2 ^ n) G) as [HeqG|]; [|lia].
      pose proof (Z.mul_div_le mx (2 ^ n) Hpn) as Hdl.
      assert (Hmxeq : mx = G * 2 ^ n) by nia.
      assert (Hmod : mx mod 2 ^ n = 0).
      { rewrite Hmxeq. apply Z.mod_mul. lia. }
      assert (Hlx : lx = loc_Exact).
      { destruct lx as [|c]; [reflexivity|exfalso].
        assert (mx * P < G * (2 ^ n * P)) by (apply Hlt; discriminate). nia. }
      rewrite (Hexact Hlx Hmod). lia.
    - (* the bound is finer than the grid: the value is a float already *)
      destruct (Z.eq_dec n 0) as [Hn0|Hn0].
      + destruct Hcan as [Hlx|Hfe].
        * rewrite Hn0 in *. change (2 ^ 0) with 1 in *.
          rewrite Z.mod_1_r, Z.div_1_r in *. rewrite (Hexact Hlx eq_refl). lia.
        * exfalso.
          assert (Hfe' : ex = fexp prec emax (Zdigits2 mx + ex)) by (unfold n, dropped in Hn0; lia).
          rewrite fexp_eq in Hfe'.
          assert (Hmxpos : 0 < mx).
          { destruct (Z.eq_dec mx 0) as [->|]; [cbn [Zdigits2] in Hfe'; lia|lia]. }
          pose proof (Zdigits2_bounds mx Hmxpos) as [Hlo _].
          assert (Hd : Zdigits2 mx = 53) by lia. rewrite Hd in Hlo.
          assert (A * 2 ^ (a - s) < 2 ^ 52 * P); [|nia].
          assert (2 * 2 ^ (a - s) <= P).
          { unfold P. rewrite <- Z.pow_succ_r by lia. apply Z.pow_le_mono_r; lia. }
          pose proof (pow2_gt0 (a - s) ltac:(lia)).
          change (2 ^ 53) with (2 ^ 52 * 2) in HA. nia.
      + exfalso.
        assert (Hfe' : ex + n = fexp prec emax (Zdigits2 mx + ex)) by (unfold n, dropped in *; lia).
        rewrite fexp_eq in Hfe'.
        assert (Hmxpos : 0 < mx).
        { destruct (Z.eq_dec mx 0) as [->|]; [cbn [Zdigits2] in Hfe'; lia|lia]. }
        pose proof (Zdigits2_bounds mx Hmxpos) as [Hlo _].
        assert (Hd : Zdigits2 mx - 1 = n + 52) by lia. rewrite Hd in Hlo.
        rewrite pow2_split in Hlo by lia.
        assert (A * 2 ^ (a - s) < 2 ^ 52 * (2 ^ n * P)); [|nia].
        assert (2 * 2 ^ (a - s) <= 2 ^ n * P).
        { unfold P. rewrite <- pow2_split by lia. rewrite <- Z.pow_succ_r by lia.
          apply Z.pow_le_mono_r; lia. }
        pose proof (pow2_gt0 (a - s) ltac:(lia)).
        change (2 ^ 53) with (2 ^ 52 * 2) in HA. nia. }
  unfold mag_le, pack.
  destruct m3 as [|p|p]; [exact I| |lia].
  assert (He3hi : e3 <= 971).
  { pose proof (pow2_gt0 (e3 - s) ltac:(lia)). pose proof (pow2_gt0 (a - s) ltac:(lia)).
    assert (H1 : 2 ^ (e3 - s) < 2 ^ (53 + (a - s))).
    { rewrite (pow2_split 53 (a - s)) by lia. nia. }
    apply pow2_lt_inv in H1; lia. }
  apply Z.leb_le in He3hi. rewrite He3hi. split; [lia|exact Hgoal].
Qed.

Lemma round_lower sx mx ex lx A a s :
  0 <= mx -> s <= ex -> s <= a ->
  0 < A < 2 ^ 53 -> -1074 <= a ->
  A * 2 ^ (a - s) < (mx + 1) * 2 ^ (ex - s) ->
  (lx = loc_Exact -> A * 2 ^ (a - s) <= mx * 2 ^ (ex - s)) ->
  (lx = loc_Exact \/ ex <= fexp prec emax (Zdigits2 mx + ex)) ->
  mag_ge (binary_round_aux prec emax sx mx ex lx) A a s.
Proof.
  intros Hmx Hs Hsa HA Ha Hlt Hle Hcan.
  destruct (binary_round_aux_spec sx mx ex lx Hmx)
    as (m2 & m3 & e3 & Hb & Hexact & Hm3 & He3 & He3lo & Hval & Hnorm & ->).
  set (n := dropped mx ex) in *.
  pose proof (dropped_nonneg mx ex) as Hn. fold n in Hn.
  set (P := 2 ^ (ex - s)) in *. assert (HP : 0 < P) by (apply pow2_gt0; lia).
  pose proof (pow2_gt0 n Hn) as Hpn.
  pose proof (pow2_gt0 (a - s) ltac:(lia)) as Hpa.
  assert (Hscale : m3 * 2 ^ (e3 - s) = m2 * (2 ^ n * P)).
  { replace (e3 - s) with ((e3 - (ex + n)) + (n + (ex - s))) by lia.
    rewrite pow2_split by lia. rewrite (pow2_split n) by lia.
    fold P. rewrite <- Hval. ring. }
  assert (Hm1 : 0 <= mx / 2 ^ n) by (apply Z.div_pos; lia).
  assert (HnP : 0 < 2 ^ n * P) by (apply Z.mul_pos_pos; lia).
  assert (Hgoal : A * 2 ^ (a - s) <= m3 * 2 ^ (e3 - s)).
  { rewrite Hscale.
    destruct (Z_le_gt_dec (ex + n) a) as [Hae|Hae].
    - set (G := A * 2 ^ (a - (ex + n))).
      assert (HG : A * 2 ^ (a - s) = G * (2 ^ n * P)).
      { unfold G. replace (a - s) with ((a - (ex + n)) + (n + (ex - s))) by lia.
        rewrite pow2_split by lia. rewrite (pow2_split n) by lia. fold P. ring. }
      rewrite HG in *.
      assert (HmG : G * 2 ^ n < mx + 1).
      { apply (Z.mul_lt_mono_pos_r P _ _ HP). lia. }
      assert (Hm1G : G <= mx / 2 ^ n).
      { apply Z.div_le_lower_bound; lia. }
      apply Z.mul_le_mono_nonneg_r; lia.
    - assert (Hbig : lx = loc_Exact /\ n = 0 \/ 2 ^ 52 <= mx / 2 ^ n).
      { destruct (Z.eq_dec n 0) as [Hn0|Hn0].
        - destruct Hcan as [Hlx|Hfe]; [left; auto|right].
          assert (Hfe' : ex = fexp prec emax (Zdigits2 mx + ex)) by (unfold n, dropped in Hn0; lia).
          rewrite fexp_eq in Hfe'.
          assert (Hmxpos : 0 < mx).
          { destruct (Z.eq_dec mx 0) as [->|]; [cbn [Zdigits2] in Hfe'; lia|lia]. }
          pose proof (Zdigits2_bounds mx Hmxpos) as [Hlo _].
          assert (Hd : Zdigits2 mx = 53) by lia. rewrite Hd in Hlo.
          rewrite Hn0. change (2 ^ 0) with 1. rewrite Z.div_1_r. exact Hlo.
        - right.
          assert (Hfe' : ex + n = fexp prec emax (Zdigits2 mx + ex))
            by (unfold n, dropped in *; lia).
          rewrite fexp_eq in Hfe'.
          assert (Hmxpos : 0 < mx).
          { destruct (Z.eq_dec mx 0) as [->|]; [cbn [Zdigits2] in Hfe'; lia|lia]. }
          pose proof (Zdigits2_bounds mx Hmxpos) as [Hlo _].
          assert (Hd : Zdigits2 mx - 1 = n + 52) by lia. rewrite Hd in Hlo.
          rewrite pow2_split in Hlo by lia.
          apply Z.div_le_lower_bound; lia. }
      destruct Hbig as [[Hlx Hn0]|Hbig].
      + rewrite Hn0 in *. change (2 ^ 0) with 1 in *.
        rewrite Z.div_1_r in *. specialize (Hle Hlx). nia.
      + assert (A * 2 ^ (a - s) < 2 ^ 52 * (2 ^ n * P)).
        { assert (2 * 2 ^ (a - s) <= 2 ^ n * P).
          { unfold P. rewrite <- pow2_split by lia. rewrite <- Z.pow_succ_r by lia.
            apply Z.pow_le_mono_r; lia. }
          change (2 ^ 53) with (2 ^ 52 * 2) in HA. nia. }
        assert (2 ^ 52 * (2 ^ n * P) <= m2 * (2 ^ n * P)); [|lia].
        apply Z.mul_le_mono_nonneg_r; lia. }
  assert (Hm3pos : 0 < m3).
  { pose proof (pow2_gt0 (e3 - s) ltac:(lia)). nia. }
  unfold mag_ge, pack.
  destruct m3 as [|p|p]; try lia.
  destruct (e3 <=? 971); [split; [lia|exact Hgoal]|exact I].
Qed.

Lemma round_sign sx mx ex lx :
  0 <= mx -> sign_is sx (binary_round_aux prec emax sx mx ex lx).
Proof.
  intros Hmx.
  destruct (binary_round_aux_spec sx mx ex lx Hmx)
    as (m2 & m3 & e3 & _ & _ & Hm3 & _ & _ & _ & _ & ->).
  unfold pack. destruct m3 as [|p|p]; try lia; [reflexivity|].
  destruct (e3 <=? 971); reflexivity.
Qed.

(** ** Rounding between two numbers of the grid *)

Lemma grid_nonneg s v : grid s v -> 0 <= v.
Proof.
  intros (A & a & HA & Hs & Ha & ->).
  pose proof (pow2_gt0 (a - s) ltac:(lia)). nia.
Qed.

Lemma grid_0 s : s <= 0 -> grid s 0.
Proof. intros Hs. exists 0, 0. repeat split; try lia. Qed.

Lemma grid_int s N : s <= 0 -> 0 <= N < 2 ^ 53 -> grid s (N * 2 ^ (- s)).
Proof.
  intros Hs HN. exists N, 0. repeat split; try lia.
Qed.

Lemma fval_opp s f : fval s (SFopp f) = - fval s f.
Proof. destruct f as [| | |[] m e]; cbn; lia. Qed.

Lemma finite_at_opp s f : finite_at s (SFopp f) <-> finite_at s f.
Proof. destruct f; cbn; tauto. Qed.

Lemma binary_round_aux_opp m e l :
  binary_round_aux prec emax true m e l = SFopp (binary_round_aux prec emax false m e l).
Proof.
  unfold binary_round_aux.
  destruct (shr_fexp prec emax m e l) as [mrs1 e1].
  destruct (shr_fexp prec emax _ e1 loc_Exact) as [mrs3 e3].
  destruct (shr_m mrs3); try reflexivity.
  destruct (e3 <=? emax - prec); reflexivity.
Qed.

(** Rounding is monotone and leaves every binary64 number where it is: a
    value between two numbers of the grid is rounded between them. *)
Lemma round_between mx ex lx L U s :
  0 <= mx -> s <= ex -> grid s L -> grid s U ->
  (lx = loc_Exact -> L <= mx * 2 ^ (ex - s) <= U) ->
  (lx <> loc_Exact -> L < (mx + 1) * 2 ^ (ex - s) /\ mx * 2 ^ (ex - s) < U) ->
  (lx = loc_Exact \/ ex <= fexp prec emax (Zdigits2 mx + ex)) ->
  let f := binary_round_aux prec emax false mx ex lx in
  finite_at s f /\ L <= fval s f <= U.
Proof.
  intros Hmx Hs HL HU Hex Hin Hcan f.
  pose proof (grid_nonneg _ _ HL) as HL0.
  pose proof (pow2_gt0 (ex - s) ltac:(lia)) as HP.
  destruct HU as (AU & aU & HAU & HsU & HaU & ->).
  assert (Hup : mag_le f AU aU s).
  { apply round_upper; try assumption.
    - destruct lx as [|c]; [apply Hex; reflexivity|].
      apply Z.lt_le_incl, Hin. discriminate.
    - intros Hne. apply Hin, Hne. }
  pose proof (round_sign false mx ex lx Hmx) as Hsg. fold f in Hsg.
  destruct (Z.eq_dec L 0) as [->|HLne].
  - destruct f as [sg|sg| |sg m e]; unfold mag_le, sign_is, finite_at, fval in *;
      try tauto; try lia.
    subst sg. unfold cond_Zopp. destruct Hup as [Hse Hup]. split; [lia|]. split; [|lia].
    pose proof (pow2_gt0 (e - s) ltac:(lia)). nia.
  - destruct HL as (AL & aL & HAL & HsL & HaL & ->).
    assert (HALpos : 0 < AL) by (destruct (Z.eq_dec AL 0); [subst; lia|lia]).
    assert (Hlo : mag_ge f AL aL s).
    { apply round_lower; try assumption; try lia.
      - destruct lx as [|c]; [|apply Hin; discriminate].
        specialize (Hex eq_refl). nia.
      - intros Hlx. apply Hex, Hlx. }
    destruct f as [sg|sg| |sg m e]; unfold mag_le, mag_ge, sign_is, finite_at, fval in *;
      try tauto.
    subst sg. unfold cond_Zopp. lia.
Qed.

Lemma shl_align_spec mx ex ex' :
  let '(mz, ez) := shl_align mx ex ex' in
  ez = Z.min ex ex' /\ Zpos mz = Zpos mx * 2 ^ (ex - ez).
Proof.
  unfold shl_align. destruct (ex' - ex) as [|d|d] eqn:E.
  - split; [lia|]. replace (ex - ex) with 0 by lia. lia.
  - split; [lia|]. replace (ex - ex) with 0 by lia. lia.
  - split; [lia|]. replace (ex - ex') with (Zpos d) by lia.
    change (Pos.iter xO mx d) with (shift_pos d mx).
    rewrite shift_pos_correct. change (Z.pow_pos 2 d) with (2 ^ Zpos d). ring.
Qed.

(** [binary_round] on a positive mantissa, between two numbers of the grid. *)
Lemma binary_round_between mx ex L U s :
  s <= ex -> s <= -1074 -> grid s L -> grid s U ->
  L <= Zpos mx * 2 ^ (ex - s) <= U ->
  let f := binary_round prec emax false mx ex in
  finite_at s f /\ L <= fval s f <= U.
Proof.
  intros Hs Hs' HL HU Hb. unfold binary_round.
  pose proof (shl_align_spec mx ex (fexp prec emax (Zpos (digits2_pos mx) + ex))) as Hal.
  destruct (shl_align mx ex _) as [mz ez]. destruct Hal as [Hez Hmz].
  rewrite fexp_eq in Hez.
  assert (Hv : Zpos mz * 2 ^ (ez - s) = Zpos mx * 2 ^ (ex - s)).
  { rewrite Hmz. replace (ex - s) with ((ex - ez) + (ez - s)) by lia.
    rewrite pow2_split by lia. ring. }
  apply round_between; try assumption.
  - lia.
  - lia.
  - intros _. rewrite Hv. exact Hb.
  - intros H; contradiction H; reflexivity.
  - left; reflexivity.
Qed.

(** [binary_normalize]: the same for an integer mantissa of either sign. *)
Lemma binary_normalize_between z e L U s :
  s <= e -> s <= -1074 -> grid s (Z.abs L) -> grid s (Z.abs U) ->
  L <= z * 2 ^ (e - s) <= U ->
  let f := binary_normalize prec emax z e false in
  finite_at s f /\ L <= fval s f <= U.
Proof.
  intros Hs Hs' HL HU Hb.
  pose proof (pow2_gt0 (e - s) ltac:(lia)) as HP.
  destruct z as [|p|p]; cbn [binary_normalize].
  - cbn. split; [exact I|lia].
  - assert (H0 : grid s 0) by (apply grid_0; lia).
    destruct (Z_le_gt_dec 0 L) as [HL0|HL0].
    + rewrite Z.abs_eq in HL by lia. rewrite Z.abs_eq in HU by lia.
      apply binary_round_between; assumption.
    + rewrite Z.abs_eq in HU by lia.
      destruct (binary_round_between p e 0 U s) as [Hf Hv]; try assumption; try lia.
      split; [exact Hf|lia].
  - unfold binary_round.
    destruct (shl_align p e _) as [mz ez] eqn:Eal.
    rewrite binary_round_aux_opp.
    assert (Hbr : binary_round_aux prec emax false (Zpos mz) ez loc_Exact
                  = binary_round prec emax false p e).
    { unfold binary_round. rewrite Eal. reflexivity. }
    rewrite Hbr, fval_opp, finite_at_opp.
    assert (H0 : grid s 0) by (apply grid_0; lia).
    assert (Hz : Z.neg p * 2 ^ (e - s) = - (Zpos p * 2 ^ (e - s))) by lia.
    destruct (Z_le_gt_dec U 0) as [HU0|HU0].
    + rewrite Z.abs_neq in HL by lia. rewrite Z.abs_neq in HU by lia.
      destruct (binary_round_between p e (- U) (- L) s) as [Hf Hv]; try assumption; try lia.
      split; [exact Hf|lia].
    + rewrite Z.abs_neq in HL by lia.
      destruct (binary_round_between p e 0 (- L) s) as [Hf Hv]; try assumption; try lia.
      split; [exact Hf|lia].
Qed.

(** [float(n)] is exact up to 53 bits. *)
Lemma of_int_val n s :
  Z.abs n < 2 ^ 53 -> s <= -1074 ->
  exists f, of_int n = Ok f /\ finite_at s f /\ fval s f = n * 2 ^ (- s).
Proof.
  intros Hn Hs. unfold of_int.
  assert (Hg : grid s (Z.abs (n * 2 ^ (- s)))).
  { pose proof (pow2_gt0 (- s) ltac:(lia)).
    rewrite Z.abs_mul, (Z.abs_eq (2 ^ (- s))) by lia. apply grid_int; lia. }
  destruct (binary_normalize_between n 0 (n * 2 ^ (- s)) (n * 2 ^ (- s)) s)
    as [Hf Hv]; try assumption; try lia.
  { replace (0 - s) with (- s) by lia. lia. }
  destruct (binary_normalize prec emax n 0 false) as [sg|sg| |sg m e] eqn:E;
    cbn in Hf; try contradiction.
  - eexists; split; [reflexivity|]. split; [exact I|]. cbn in *; lia.
  - eexists; split; [reflexivity|]. split; [exact Hf|]. lia.
Qed.

(** ** The operations of the script on scaled values *)

Lemma fval_nonneg_sign s sg m e :
  s <= e -> 0 <= fval s (S754_finite sg m e) -> sg = false.
Proof.
  intros Hs. unfold fval. destruct sg; [|reflexivity].
  pose proof (pow2_gt0 (e - s) ltac:(lia)). unfold cond_Zopp. nia.
Qed.

Lemma mul_between x y s1 s2 L U :
  finite_at s1 x -> finite_at s2 y -> 0 <= fval s1 x -> 0 <= fval s2 y ->
  grid (s1 + s2) L -> grid (s1 + s2) U ->
  L <= fval s1 x * fval s2 y <= U ->
  finite_at (s1 + s2) (mul x y) /\ L <= fval (s1 + s2) (mul x y) <= U.
Proof.
  intros Hx Hy Hx0 Hy0 HL HU Hb.
  destruct x as [sx|sx| |sx mx ex]; try contradiction;
    destruct y as [sy|sy| |sy my ey]; try contradiction;
    try (unfold mul; cbn [SFmul finite_at fval] in *; split; [exact I|lia]).
  cbn [finite_at] in Hx, Hy.
  pose proof (fval_nonneg_sign _ _ _ _ Hx Hx0). pose proof (fval_nonneg_sign _ _ _ _ Hy Hy0).
  subst sx sy. unfold mul. cbn [SFmul xorb].
  unfold fval, cond_Zopp in Hb.
  assert (Hv : Zpos (mx * my) * 2 ^ (ex + ey - (s1 + s2))
               = Zpos mx * 2 ^ (ex - s1) * (Zpos my * 2 ^ (ey - s2))).
  { replace (ex + ey - (s1 + s2)) with ((ex - s1) + (ey - s2)) by lia.
    rewrite pow2_split by lia. rewrite Pos2Z.inj_mul. ring. }
  apply round_between; try assumption.
  - lia.
  - lia.
  - intros _. rewrite Hv. exact Hb.
  - intros H; contradiction H; reflexivity.
  - left; reflexivity.
Qed.

Lemma shiftl_scaled a e s :
  s <= e -> s <= 0 -> Z.shiftl a e = (a * 2 ^ (e - s)) / 2 ^ (- s).
Proof.
  intros Hs Hs0.
  pose proof (pow2_gt0 (- s) ltac:(lia)).
  destruct (Z_le_gt_dec 0 e) as [He|He].
  - rewrite Z.shiftl_mul_pow2 by lia.
    replace (e - s) with (e + - s) by lia. rewrite pow2_split by lia.
    rewrite Z.mul_assoc, Z.div_mul by lia. reflexivity.
  - rewrite Z.shiftl_div_pow2 by lia.
    pose proof (pow2_gt0 (e - s) ltac:(lia)).
    replace (- s) with ((- e) + (e - s)) by lia. rewrite pow2_split by lia.
    rewrite Z.div_mul_cancel_r by lia. reflexivity.
Qed.

(** [int(x)] on a scaled value: the quotient that truncates. *)
Lemma trunc_val f s :
  finite_at s f -> s <= 0 -> trunc f = Ok (Z.quot (fval s f) (2 ^ (- s))).
Proof.
  intros Hf Hs. pose proof (pow2_gt0 (- s) ltac:(lia)).
  destruct f as [sg|sg| |sg m e]; try contradiction; cbn [trunc fval finite_at] in *.
  - rewrite Z.quot_0_l by lia. reflexivity.
  - f_equal. pose proof (pow2_gt0 (e - s) ltac:(lia)).
    rewrite (shiftl_scaled _ e s) by lia.
    destruct sg; unfold cond_Zopp.
    + rewrite Z.quot_opp_l by lia. rewrite Z.quot_div_nonneg by lia. reflexivity.
    + rewrite Z.quot_div_nonneg by lia. reflexivity.
Qed.

Lemma trunc_val_nonneg f s :
  finite_at s f -> s <= 0 -> 0 <= fval s f ->
  trunc f = Ok (fval s f / 2 ^ (- s)).
Proof.
  intros Hf Hs H0. rewrite (trunc_val f s Hf Hs).
  pose proof (pow2_gt0 (- s) ltac:(lia)).
  rewrite Z.quot_div_nonneg by lia. reflexivity.
Qed.

(** [math.ceil(x)] on a scaled value. *)
Lemma ceil_val f s :
  finite_at s f -> s <= 0 -> ceil f = Ok (- ((- fval s f) / 2 ^ (- s))).
Proof.
  intros Hf Hs. pose proof (pow2_gt0 (- s) ltac:(lia)).
  destruct f as [sg|sg| |sg m e]; try contradiction; cbn [ceil fval finite_at] in *.
  - reflexivity.
  - destruct sg; unfold cond_Zopp; f_equal; rewrite (shiftl_scaled _ e s) by lia.
    + rewrite Z.opp_involutive. reflexivity.
    + rewrite <- Z.mul_opp_l. reflexivity.
Qed.

Lemma aligned_val sg m e ez s :
  s <= ez -> ez <= e ->
  cond_Zopp sg (Zpos (fst (shl_align m e ez))) * 2 ^ (ez - s) = fval s (S754_finite sg m e).
Proof.
  intros Hs He. pose proof (shl_align_spec m e ez) as Hal.
  destruct (shl_align m e ez) as [mz ez']. destruct Hal as [Hez Hmz]. cbn [fst fval].
  rewrite Hmz, Hez. rewrite Z.min_r by lia.
  replace (e - s) with ((e - ez) + (ez - s)) by lia. rewrite pow2_split by lia.
  destruct sg; unfold cond_Zopp; ring.
Qed.

Lemma sub_between x y s L U :
  finite_at s x -> finite_at s y -> s <= -1074 ->
  grid s (Z.abs L) -> grid s (Z.abs U) ->
  L <= fval s x - fval s y <= U ->
  finite_at s (sub x y) /\ L <= fval s (sub x y) <= U.
Proof.
  intros Hx Hy Hs HL HU Hb.
  destruct x as [sx|sx| |sx mx ex]; try contradiction;
    destruct y as [sy|sy| |sy my ey]; try contradiction; unfold sub; cbn [SFsub].
  - destruct sx, sy; cbn [finite_at fval] in *; split; solve [exact I|lia].
  - cbn [finite_at fval] in *. split; [exact Hy|].
    destruct sy; unfold cond_Zopp, negb in *; lia.
  - cbn [finite_at fval] in *. split; [exact Hx|]. lia.
  - cbn [finite_at] in Hx, Hy.
    apply binary_normalize_between; try assumption; try lia.
    rewrite Z.mul_sub_distr_r.
    rewrite !aligned_val by lia. exact Hb.
Qed.

Lemma add_between x y s L U :
  finite_at s x -> finite_at s y -> s <= -1074 ->
  grid s (Z.abs L) -> grid s (Z.abs U) ->
  L <= fval s x + fval s y <= U ->
  finite_at s (add x y) /\ L <= fval s (add x y) <= U.
Proof.
  intros Hx Hy Hs HL HU Hb.
  destruct x as [sx|sx| |sx mx ex]; try contradiction;
    destruct y as [sy|sy| |sy my ey]; try contradiction; unfold add; cbn [SFadd].
  - destruct sx, sy; cbn [finite_at fval] in *; split; solve [exact I|lia].
  - cbn [finite_at fval] in *. split; [exact Hy|]. lia.
  - cbn [finite_at fval] in *. split; [exact Hx|]. lia.
  - cbn [finite_at] in Hx, Hy.
    apply binary_normalize_between; try assumption; try lia.
    rewrite Z.mul_add_distr_r.
    rewrite !aligned_val by lia. exact Hb.
Qed.

(** ** Division of two integers *)

Lemma new_location_exact k r : new_location k r = loc_Exact <-> r = 0.
Proof.
  unfold new_location, new_location_even, new_location_odd.
  destruct (Z.even k); destruct (Z.eqb_spec r 0); split; intros; try congruence; try reflexivity.
Qed.

(** The quotient handed to the rounding by a division of two integers. *)
Lemma SFdiv_core_spec m1 m2 :
  0 < m1 -> 0 < m2 ->
  let '(q, e', l) := SFdiv_core_binary prec emax m1 0 m2 0 in
  -1074 <= e' <= 0 /\ 0 <= q /\
  (exists r, 0 <= r < m2 /\ m1 * 2 ^ (- e') = q * m2 + r /\ (l = loc_Exact <-> r = 0)) /\
  e' <= fexp prec emax (Zdigits2 q + e').
Proof.
  intros H1 H2. unfold SFdiv_core_binary.
  set (d1 := Zdigits2 m1). set (d2 := Zdigits2 m2).
  replace (d1 + 0 - (d2 + 0)) with (d1 - d2) by lia.
  replace (0 - 0) with 0 by lia.
  set (e' := Z.min (fexp prec emax (d1 - d2)) 0).
  assert (He' : -1074 <= e' <= 0) by (unfold e'; rewrite fexp_eq; lia).
  assert (Hm' : match 0 - e' with
                | 0 => m1 | Z.pos _ => Z.shiftl m1 (0 - e') | Z.neg _ => 0
                end = m1 * 2 ^ (- e')).
  { destruct (0 - e') as [|p|p] eqn:E; try lia.
    - replace (- e') with 0 by lia. lia.
    - rewrite Z.shiftl_mul_pow2 by lia. f_equal. f_equal. lia. }
  rewrite Hm'.
  pose proof (pow2_gt0 (- e') ltac:(lia)) as Hp.
  pose proof (Z_div_mod (m1 * 2 ^ (- e')) m2 ltac:(lia)) as Hdm.
  destruct (Z.div_eucl (m1 * 2 ^ (- e')) m2) as [q r] eqn:Edm.
  destruct Hdm as [Hdm Hr].
  assert (Hq : 0 <= q) by nia.
  repeat split; try lia.
  - exists r. split; [lia|]. split; [lia|]. apply new_location_exact.
  - rewrite fexp_eq.
    destruct (Z_le_gt_dec e' (-1074)) as [|Hgt]; [lia|].
    assert (He'd : e' <= d1 - d2 - 53) by (unfold e' in *; rewrite fexp_eq in *; lia).
    pose proof (Zdigits2_bounds m1 H1) as [Hlo1 _]. fold d1 in Hlo1.
    pose proof (Zdigits2_bounds m2 H2) as [_ Hhi2]. fold d2 in Hhi2.
    assert (0 < d1) by (apply Zdigits2_pos; lia).
    assert (0 < d2) by (apply Zdigits2_pos; lia).
    assert (Hbig : 2 ^ 52 * m2 <= m1 * 2 ^ (- e')).
    { assert (2 ^ (52 + d2) <= 2 ^ ((d1 - 1) + (- e'))) by (apply Z.pow_le_mono_r; lia).
      rewrite !pow2_split in * by lia.
      pose proof (pow2_gt0 d2 ltac:(lia)). nia. }
    assert (Hq52 : 2 ^ 52 <= q) by nia.
    pose proof (Zdigits2_ge q 52 ltac:(lia) Hq52). lia.
Qed.

Lemma truediv_between a b s L U :
  0 <= a -> 0 < b -> s <= -1074 ->
  grid s L -> grid s U ->
  L * b <= a * 2 ^ (- s) <= U * b ->
  exists f, truediv a b = Ok f /\ finite_at s f /\ L <= fval s f <= U.
Proof.
  intros Ha Hb Hs HL HU Hbd. unfold truediv.
  destruct (Z.eqb_spec b 0) as [|_]; [lia|].
  pose proof (pow2_gt0 (- s) ltac:(lia)) as Hps.
  destruct a as [|pa|pa]; try lia.
  - destruct b as [|pb|pb]; try lia. cbn [exact_int SFdiv xorb].
    eexists; split; [reflexivity|]. cbn [finite_at fval]. split; [exact I|]. nia.
  - destruct b as [|pb|pb]; try lia. cbn [exact_int SFdiv xorb].
    pose proof (SFdiv_core_spec (Zpos pa) (Zpos pb) ltac:(lia) ltac:(lia)) as Hc.
    destruct (SFdiv_core_binary prec emax (Zpos pa) 0 (Zpos pb) 0) as [[q e'] l].
    destruct Hc as (He' & Hq & (r & Hr & Hdm & Hl) & Hcan).
    set (P := 2 ^ (e' - s)). assert (HP : 0 < P) by (apply pow2_gt0; lia).
    assert (Hv : Zpos pa * 2 ^ (- s) = (q * Zpos pb + r) * P).
    { rewrite <- Hdm. unfold P. replace (- s) with ((- e') + (e' - s)) by lia.
      rewrite pow2_split by lia. ring. }
    rewrite Hv in Hbd.
    assert (Hrb : finite_at s (binary_round_aux prec emax false q e' l) /\
                  L <= fval s (binary_round_aux prec emax false q e' l) <= U).
    { apply round_between; [assumption|lia|assumption|assumption| | |right; exact Hcan].
      - intros Hex. apply Hl in Hex. subst r. fold P. split; nia.
      - intros Hne. assert (r <> 0) by (intros Hr0; apply Hne, Hl, Hr0).
        fold P. split; nia. }
    destruct Hrb as [Hf Hval].
    destruct (binary_round_aux prec emax false q e' l) as [sg|sg| |sg m e];
      cbn [finite_at] in Hf; try contradiction;
      (eexists; split; [reflexivity|]; split; assumption).
Qed.

Lemma truediv_opp a b :
  0 < a -> 0 < b ->
  truediv (- a) b = f <- truediv a b ;; Ok (SFopp f).
Proof.
  intros Ha Hb. unfold truediv.
  destruct (Z.eqb_spec b 0) as [|_]; [lia|].
  destruct a as [|pa|pa]; try lia. destruct b as [|pb|pb]; try lia.
  cbn [Z.opp exact_int SFdiv xorb].
  destruct (SFdiv_core_binary prec emax (Zpos pa) 0 (Zpos pb) 0) as [[q e'] l].
  rewrite binary_round_aux_opp.
  destruct (binary_round_aux prec emax false q e' l); reflexivity.
Qed.

(** ** Comparison of valid floats *)

Lemma valid_finite_at f :
  valid_binary prec emax f = true -> is_finite f = true -> finite_at scale f.
Proof.
  destruct f as [sg|sg| |sg m e]; cbn; try discriminate; try tauto.
  intros H _. unfold bounded, canonical_mantissa in H.
  apply andb_true_iff in H. destruct H as [H _]. apply Z.eqb_eq in H.
  rewrite fexp_eq in H. unfold scale. lia.
Qed.

Lemma valid_mantissa sg m e :
  valid_binary prec emax (S754_finite sg m e) = true ->
  -1074 <= e /\ Zpos m < 2 ^ 53 /\ (-1074 < e -> 2 ^ 52 <= Zpos m).
Proof.
  cbn. unfold bounded, canonical_mantissa. intros H.
  apply andb_true_iff in H. destruct H as [H _]. apply Z.eqb_eq in H.
  rewrite fexp_eq in H.
  pose proof (digits2_pos_bounds m) as [Hlo Hhi].
  split; [lia|]. split.
  - assert (2 ^ Zpos (digits2_pos m) <= 2 ^ 53) by (apply Z.pow_le_mono_r; lia). lia.
  - intros He. assert (Hd : Zpos (digits2_pos m) = 53) by lia.
    rewrite Hd in Hlo. exact Hlo.
Qed.

Lemma pos_compare_cont_eq m1 m2 : Pos.compare_cont Eq m1 m2 = (Zpos m1 ?= Zpos m2).
Proof. reflexivity. Qed.

(** On valid positive numbers the order of the exponents decides. *)
Lemma valid_exp_lt m1 e1 m2 e2 :
  valid_binary prec emax (S754_finite false m1 e1) = true ->
  valid_binary prec emax (S754_finite false m2 e2) = true ->
  e1 < e2 -> Zpos m1 * 2 ^ (e1 - scale) < Zpos m2 * 2 ^ (e2 - scale).
Proof.
  intros H1 H2 Hlt.
  destruct (valid_mantissa _ _ _ H1) as (He1 & Hm1 & _).
  destruct (valid_mantissa _ _ _ H2) as (He2 & _ & Hm2).
  specialize (Hm2 ltac:(lia)). unfold scale.
  pose proof (pow2_gt0 (e1 - -1074) ltac:(lia)).
  assert (2 * 2 ^ (e1 - -1074) <= 2 ^ (e2 - -1074)).
  { rewrite <- Z.pow_succ_r by lia. apply Z.pow_le_mono_r; lia. }
  change (2 ^ 53) with (2 ^ 52 * 2) in Hm1. nia.
Qed.

Lemma compare_value_pos m1 e1 m2 e2 :
  valid_binary prec emax (S754_finite false m1 e1) = true ->
  valid_binary prec emax (S754_finite false m2 e2) = true ->
  match e1 ?= e2 with
  | Lt => Lt
  | Gt => Gt
  | Eq => Pos.compare_cont Eq m1 m2
  end = (Zpos m1 * 2 ^ (e1 - scale) ?= Zpos m2 * 2 ^ (e2 - scale)).
Proof.
  intros H1 H2. symmetry.
  destruct (Z.compare_spec e1 e2) as [->|Hlt|Hgt].
  - rewrite pos_compare_cont_eq.
    destruct (valid_mantissa _ _ _ H2) as (He2 & _ & _).
    pose proof (pow2_gt0 (e2 - scale) ltac:(unfold scale; lia)).
    destruct (Z.compare_spec (Zpos m1) (Zpos m2)) as [Heq|Hl|Hg].
    + apply Z.compare_eq_iff. congruence.
    + apply Z.compare_lt_iff. nia.
    + apply Z.compare_gt_iff. nia.
  - apply Z.compare_lt_iff. now apply valid_exp_lt.
  - apply Z.compare_gt_iff. now apply valid_exp_lt.
Qed.

(** Comparison of two valid finite floats is comparison of their values. *)
Lemma compare_value x y :
  valid_binary prec emax x = true -> valid_binary prec emax y = true ->
  is_finite x = true -> is_finite y = true ->
  SFcompare x y = Some (value x ?= value y).
Proof.
  intros Vx Vy Fx Fy. unfold value.
  destruct x as [sx|sx| |sx mx ex]; try discriminate;
    destruct y as [sy|sy| |sy my ey]; try discriminate; cbn [SFcompare fval].
  - reflexivity.
  - destruct (valid_mantissa _ _ _ Vy) as (He & _ & _).
    pose proof (pow2_gt0 (ey - scale) ltac:(unfold scale; lia)).
    f_equal. symmetry. destruct sy; unfold cond_Zopp.
    + apply Z.compare_gt_iff. nia.
    + apply Z.compare_lt_iff. nia.
  - destruct (valid_mantissa _ _ _ Vx) as (He & _ & _).
    pose proof (pow2_gt0 (ex - scale) ltac:(unfold scale; lia)).
    f_equal. symmetry. destruct sx; unfold cond_Zopp.
    + apply Z.compare_lt_iff. nia.
    + apply Z.compare_gt_iff. nia.
  - destruct (valid_mantissa _ _ _ Vx) as (Hex & _ & _).
    destruct (valid_mantissa _ _ _ Vy) as (Hey & _ & _).
    pose proof (pow2_gt0 (ex - scale) ltac:(unfold scale; lia)).
    pose proof (pow2_gt0 (ey - scale) ltac:(unfold scale; lia)).
    f_equal. destruct sx, sy; unfold cond_Zopp.
    + rewrite Z.compare_opp, (Z.compare_antisym (Zpos mx * _)).
      rewrite <- (compare_value_pos mx ex my ey Vx Vy).
      destruct (ex ?= ey); reflexivity.
    + symmetry. apply Z.compare_lt_iff. nia.
    + symmetry. apply Z.compare_gt_iff. nia.
    + apply compare_value_pos; assumption.
Qed.

(** ** The target height *)

Lemma grid_dyadic s A a :
  0 <= A < 2 ^ 53 -> s <= a -> -1074 <= a <= 918 -> grid s (A * 2 ^ (a - s)).
Proof. intros. exists A, a. auto. Qed.

Lemma truediv_finite a b f : truediv a b = Ok f -> is_finite f = true.
Proof.
  unfold truediv. destruct (b =? 0) eqn:Eb; [discriminate|].
  apply Z.eqb_neq in Eb.
  assert (Hsg : exists sg, sign_is sg (SFdiv prec emax (exact_int a) (exact_int b))).
  { destruct a as [|pa|pa], b as [|pb|pb]; try lia; cbn [exact_int SFdiv];
      try (eexists; reflexivity).
    all: pose proof (SFdiv_core_spec (Zpos pa) (Zpos pb) ltac:(lia) ltac:(lia)) as Hc;
      destruct (SFdiv_core_binary prec emax (Zpos pa) 0 (Zpos pb) 0) as [[q e'] l];
      destruct Hc as (_ & Hq & _); eexists; apply round_sign; exact Hq. }
  destruct Hsg as [sg Hsg].
  destruct (SFdiv prec emax (exact_int a) (exact_int b)); cbn in Hsg; try contradiction;
    intros H; inversion H; reflexivity.
Qed.

Lemma truediv_raises a b e : b <> 0 -> truediv a b = Raise e -> e = OverflowError.
Proof.
  unfold truediv. intros Hb. destruct (Z.eqb_spec b 0); [contradiction|].
  destruct (SFdiv prec emax (exact_int a) (exact_int b)); intros H; inversion H; reflexivity.
Qed.

Lemma ceil_finite f : is_finite f = true -> exists n, ceil f = Ok n.
Proof.
  destruct f as [sg|sg| |[] m e]; cbn; try discriminate; intros _; eexists; reflexivity.
Qed.

(** [math.ceil(a / 9)] is the exact ceiling while [a] stays below [2^48]. *)
Lemma ceil_truediv_9 a :
  0 <= a < 2 ^ 48 -> (q <- truediv a 9 ;; ceil q) = Ok (- ((- a) / 9)).
Proof.
  intros Ha.
  pose proof (Z.div_mod a 9 ltac:(lia)) as Hdm.
  pose proof (Z.mod_pos_bound a 9 ltac:(lia)) as Hr.
  set (q0 := a / 9) in *. set (r0 := a mod 9) in *.
  assert (Hq0 : 0 <= q0 < 2 ^ 48) by lia.
  assert (Hs : scale <= -1074) by (unfold scale; lia).
  assert (Hs0 : scale <= 0) by (unfold scale; lia).
  assert (HX : 2 ^ (- scale) = 16 * 2 ^ (-4 - scale)) by reflexivity.
  assert (HXpos : 0 < 2 ^ (-4 - scale)) by (apply pow2_gt0; unfold scale; lia).
  set (X := 2 ^ (-4 - scale)) in *.
  destruct (Z.eq_dec r0 0) as [Hr0|Hr0].
  - assert (Hg : grid scale (q0 * 2 ^ (- scale))) by (apply grid_int; lia).
    assert (Hb : q0 * 2 ^ (- scale) * 9 <= a * 2 ^ (- scale) <= q0 * 2 ^ (- scale) * 9)
      by (rewrite HX; nia).
    destruct (truediv_between a 9 scale _ _ ltac:(lia) ltac:(lia) Hs Hg Hg Hb)
      as (f & Hf & Hfin & Hv).
    rewrite Hf. cbn [bind]. rewrite (ceil_val f scale Hfin Hs0).
    f_equal. replace (fval scale f) with (q0 * 2 ^ (- scale)) by lia.
    rewrite HX. rewrite <- Z.mul_opp_l, Z.div_mul by lia.
    replace (- a) with (- q0 * 9) by lia. rewrite Z.div_mul by lia. lia.
  - assert (Hg1 : grid scale ((16 * q0 + 1) * 2 ^ (-4 - scale)))
      by (apply grid_dyadic; unfold scale; lia).
    assert (Hg2 : grid scale ((q0 + 1) * 2 ^ (- scale))) by (apply grid_int; lia).
    assert (Hb : (16 * q0 + 1) * 2 ^ (-4 - scale) * 9 <= a * 2 ^ (- scale)
                 <= (q0 + 1) * 2 ^ (- scale) * 9)
      by (rewrite HX; fold X; nia).
    destruct (truediv_between a 9 scale _ _ ltac:(lia) ltac:(lia) Hs Hg1 Hg2 Hb)
      as (f & Hf & Hfin & Hv).
    rewrite Hf. cbn [bind]. rewrite (ceil_val f scale Hfin Hs0).
    f_equal. fold X in Hv. rewrite HX in *.
    assert (H1 : - fval scale f / (16 * X) = - (q0 + 1)).
    { symmetry. apply Z.div_unique with (r := - fval scale f + (q0 + 1) * (16 * X)).
      - left. nia.
      - ring. }
    assert (H2 : - a / 9 = - (q0 + 1)).
    { symmetry. apply Z.div_unique with (r := 9 - r0); lia. }
    rewrite H1, H2. reflexivity.
Qed.

Lemma ceil_opp f :
  ceil (SFopp f) = match trunc f, f with
                   | Ok t, S754_finite false _ _ => Ok (- t)
                   | _, _ => ceil (SFopp f)
                   end.
Proof. destruct f as [sg|sg| |[] m e]; reflexivity. Qed.

Lemma ceil_truediv_9_neg a :
  0 < a < 2 ^ 48 -> (q <- truediv (- a) 9 ;; ceil q) = Ok (- (a / 9)).
Proof.
  intros Ha. rewrite truediv_opp by lia.
  pose proof (Z.div_mod a 9 ltac:(lia)) as Hdm.
  pose proof (Z.mod_pos_bound a 9 ltac:(lia)) as Hr.
  set (q0 := a / 9) in *. set (r0 := a mod 9) in *.
  assert (Hq0 : 0 <= q0 < 2 ^ 48) by lia.
  assert (Hs : scale <= -1074) by (unfold scale; lia).
  assert (Hs0 : scale <= 0) by (unfold scale; lia).
  assert (HX : 2 ^ (- scale) = 16 * 2 ^ (-4 - scale)) by reflexivity.
  assert (HXpos : 0 < 2 ^ (-4 - scale)) by (apply pow2_gt0; unfold scale; lia).
  set (X := 2 ^ (-4 - scale)) in *.
  assert (Hg1 : grid scale (q0 * 2 ^ (- scale))) by (apply grid_int; lia).
  assert (Hg2 : grid scale ((16 * q0 + 15) * 2 ^ (-4 - scale)))
    by (apply grid_dyadic; unfold scale; lia).
  assert (Hb : q0 * 2 ^ (- scale) * 9 <= a * 2 ^ (- scale)
               <= (16 * q0 + 15) * 2 ^ (-4 - scale) * 9)
    by (rewrite HX; fold X; nia).
  destruct (truediv_between a 9 scale _ _ ltac:(lia) ltac:(lia) Hs Hg1 Hg2 Hb)
    as (f & Hf & Hfin & Hv).
  rewrite Hf. cbn [bind].
  assert (Hfo : finite_at scale (SFopp f)) by (apply finite_at_opp; exact Hfin).
  rewrite (ceil_val _ scale Hfo Hs0).
  rewrite fval_opp, Z.opp_involutive. f_equal. f_equal.
  fold X in Hv. rewrite HX in *.
  symmetry. apply Z.div_unique with (r := fval scale f - q0 * (16 * X)).
  - left. nia.
  - ring.
Qed.

Lemma plan_unfold vw vh :
  plan vw vh = th <- (q <- truediv (vw * 16) 9 ;; ceil q) ;; Ok (plan_of th vh).
Proof.
  unfold plan, plan_of. destruct (truediv (vw * 16) 9) as [q|e]; [|reflexivity].
  cbn [bind]. destruct (ceil q) as [th|e]; [|reflexivity]. cbn [bind].
  destruct (vh <? th); reflexivity.
Qed.

Lemma plan_in_range vw vh :
  Z.abs vw < 2 ^ 40 -> plan vw vh = Ok (plan_of (- ((- (vw * 16)) / 9)) vh).
Proof.
  intros Hvw. rewrite plan_unfold.
  destruct (Z_le_gt_dec 0 vw) as [Hpos|Hneg].
  - rewrite ceil_truediv_9 by lia. reflexivity.
  - replace (vw * 16) with (- (- vw * 16)) by lia.
    rewrite ceil_truediv_9_neg by lia. cbn [bind].
    rewrite !Z.opp_involutive. reflexivity.
Qed.

Lemma plan_cases vw vh :
  match plan vw vh with
  | Ok p => exists th, p = plan_of th vh /\
                       (Z.abs vw < 2 ^ 40 -> th = - ((- (vw * 16)) / 9))
  | Raise e => e = OverflowError /\ 2 ^ 40 <= Z.abs vw
  end.
Proof.
  destruct (Z_lt_le_dec (Z.abs vw) (2 ^ 40)) as [Hin|Hout].
  - rewrite plan_in_range by assumption. eexists; split; [reflexivity|]. auto.
  - rewrite plan_unfold.
    destruct (truediv (vw * 16) 9) as [q|e] eqn:Eq; cbn [bind].
    + destruct (ceil_finite q (truediv_finite _ _ _ Eq)) as [n Hn]. rewrite Hn. cbn [bind].
      exists n. split; [reflexivity|]. lia.
    + split; [|exact Hout]. apply (truediv_raises _ 9 e ltac:(lia) Eq).
Qed.

(** ** Products with a float between 0 and 1 *)

Lemma value_one : value one = 2 ^ (- scale).
Proof. reflexivity. Qed.

Lemma leb_value x y :
  valid_binary prec emax x = true -> valid_binary prec emax y = true ->
  is_finite x = true -> is_finite y = true ->
  leb x y = true -> value x <= value y.
Proof.
  intros Vx Vy Fx Fy. unfold leb, SFleb. rewrite (compare_value x y Vx Vy Fx Fy).
  destruct (Z.compare_spec (value x) (value y)); intros Hc; try discriminate; lia.
Qed.

Lemma ltb_value x y :
  valid_binary prec emax x = true -> valid_binary prec emax y = true ->
  is_finite x = true -> is_finite y = true ->
  ltb x y = true -> value x < value y.
Proof.
  intros Vx Vy Fx Fy. unfold ltb, SFltb. rewrite (compare_value x y Vx Vy Fx Fy).
  destruct (Z.compare_spec (value x) (value y)); intros Hc; try discriminate; lia.
Qed.

Lemma unit_float_value m :
  unit_float m -> finite_at scale m /\ 0 <= value m <= 2 ^ (- scale).
Proof.
  intros (V & H0 & H1).
  assert (F : is_finite m = true).
  { destruct m as [sg|[]| |sg mm e]; try reflexivity; cbn in H0, H1; discriminate. }
  split; [apply valid_finite_at; assumption|].
  rewrite <- value_one. split.
  - change 0 with (value zero). apply leb_value; auto.
  - apply leb_value; auto.
Qed.

Lemma ceil_ge v X : 0 < X -> v <= - ((- v) / X) * X.
Proof. intros HX. pose proof (Z.mul_div_le (- v) X HX). lia. Qed.

Lemma ceil_le v X N : 0 < X -> v <= N * X -> - ((- v) / X) <= N.
Proof.
  intros HX H. assert (- N <= (- v) / X); [|lia].
  apply Z.div_le_lower_bound; lia.
Qed.

Lemma floor_le_ceil v X : 0 < X -> v / X <= - ((- v) / X).
Proof.
  intros HX. pose proof (Z.mul_div_le v X HX). pose proof (ceil_ge v X HX).
  assert (v / X * X <= - (- v / X) * X) by lia. nia.
Qed.

(** The product of two non-negative floats, rounded, stays between the
    integers around the exact product. *)
Lemma mul_floor_ceil x y :
  finite_at scale x -> finite_at scale y ->
  0 <= value x -> 0 <= value y ->
  value x * value y <= 2 ^ 52 * 2 ^ (- (scale + scale)) ->
  let X := 2 ^ (- (scale + scale)) in
  finite_at (scale + scale) (mul x y) /\
  (value x * value y) / X * X <= fval (scale + scale) (mul x y)
    <= - ((- (value x * value y)) / X) * X.
Proof.
  intros Fx Fy Hx Hy Hb X. unfold value in *.
  assert (HX : 0 < X) by (apply pow2_gt0; unfold scale; lia).
  set (v := fval scale x * fval scale y) in *.
  assert (Hv : 0 <= v) by (unfold v; nia).
  assert (Hfl : 0 <= v / X) by (apply Z.div_pos; lia).
  assert (Hce : - ((- v) / X) <= 2 ^ 52) by (apply ceil_le; fold X in Hb; lia).
  pose proof (floor_le_ceil v X HX).
  apply mul_between; try assumption.
  - apply grid_int; [unfold scale; lia|lia].
  - apply grid_int; [unfold scale; lia|lia].
  - fold v. pose proof (Z.mul_div_le v X HX). pose proof (ceil_ge v X HX). lia.
Qed.

(** [int] of a float that lies between two integers. *)
Lemma trunc_between f s L U :
  finite_at s f -> s <= 0 ->
  L * 2 ^ (- s) <= fval s f <= U * 2 ^ (- s) ->
  exists t, trunc f = Ok t /\ L <= t <= U.
Proof.
  intros Hf Hs Hb. rewrite (trunc_val f s Hf Hs).
  pose proof (pow2_gt0 (- s) ltac:(lia)) as HX.
  eexists; split; [reflexivity|].
  split.
  - apply Z.le_trans with (Z.quot (L * 2 ^ (- s)) (2 ^ (- s))).
    + rewrite Z.quot_mul by lia. lia.
    + apply Z.quot_le_mono; lia.
  - apply Z.le_trans with (Z.quot (U * 2 ^ (- s)) (2 ^ (- s))).
    + apply Z.quot_le_mono; lia.
    + rewrite Z.quot_mul by lia. lia.
Qed.

Lemma imul_floor_ceil n m :
  0 <= n < 2 ^ 40 -> finite_at scale m -> 0 <= value m <= 2 ^ 10 * 2 ^ (- scale) ->
  let X := 2 ^ (- (scale + scale)) in
  exists f, imul n m = Ok f /\ finite_at (scale + scale) f /\
            floor_mul n m * X <= fval (scale + scale) f <= ceil_mul n m * X.
Proof.
  intros Hn Fm Hm X. unfold imul.
  destruct (of_int_val n scale) as (fx & Hfx & Ffx & Vfx); [lia|unfold scale; lia|].
  rewrite Hfx. cbn [bind]. eexists; split; [reflexivity|].
  assert (HP : 0 < 2 ^ (- scale)) by (apply pow2_gt0; unfold scale; lia).
  assert (HXX : X = 2 ^ (- scale) * 2 ^ (- scale)) by reflexivity.
  assert (Hprod : value fx * value m = (n * value m) * 2 ^ (- scale)).
  { unfold value at 1. rewrite Vfx. ring. }
  assert (Hfloor : value fx * value m / X = floor_mul n m).
  { unfold floor_mul. rewrite Hprod, HXX. apply Z.div_mul_cancel_r; lia. }
  assert (Hceil : - ((- (value fx * value m)) / X) = ceil_mul n m).
  { unfold ceil_mul. rewrite Hprod, HXX. rewrite <- Z.mul_opp_l.
    rewrite Z.div_mul_cancel_r by lia. reflexivity. }
  destruct (mul_floor_ceil fx m) as [Hfin Hv]; try assumption.
  - unfold value at 1. rewrite Vfx. lia.
  - lia.
  - rewrite Hprod. fold X. rewrite HXX.
    assert (n * value m <= 2 ^ 52 * 2 ^ (- scale)); [|nia].
    change (2 ^ 52) with (2 ^ 42 * 2 ^ 10). change (2 ^ 40) with (2 ^ 40) in Hn. nia.
  - fold X in Hv. rewrite Hfloor, Hceil in Hv. split; assumption.
Qed.

Lemma imul_trunc n m :
  0 <= n < 2 ^ 40 -> finite_at scale m -> 0 <= value m <= 2 ^ 10 * 2 ^ (- scale) ->
  exists t, (x <- imul n m ;; trunc x) = Ok t /\ floor_mul n m <= t <= ceil_mul n m.
Proof.
  intros Hn Fm Hm.
  destruct (imul_floor_ceil n m Hn Fm Hm) as (f & Hf & Ffin & Hv).
  rewrite Hf. cbn [bind].
  apply (trunc_between f (scale + scale)); [assumption|unfold scale; lia|exact Hv].
Qed.

(** ** The overlay position *)

Lemma isub_trunc N f Lf Uf :
  Z.abs N < 2 ^ 41 -> finite_at (scale + scale) f ->
  0 <= Lf -> Uf < 2 ^ 41 ->
  Lf * 2 ^ (- (scale + scale)) <= fval (scale + scale) f <= Uf * 2 ^ (- (scale + scale)) ->
  exists t, (x <- isub N f ;; trunc x) = Ok t /\ N - Uf <= t <= N - Lf.
Proof.
  intros HN Ff HL HU Hb. unfold isub.
  set (X := 2 ^ (- (scale + scale))) in *.
  assert (HX : 0 < X) by (apply pow2_gt0; unfold scale; lia).
  assert (Hs : scale + scale <= -1074) by (unfold scale; lia).
  destruct (of_int_val N (scale + scale)) as (fx & Hfx & Ffx & Vfx); [lia|exact Hs|].
  fold X in Vfx. rewrite Hfx. cbn [bind].
  assert (HLU : Lf <= Uf) by nia.
  destruct (sub_between fx f (scale + scale) ((N - Uf) * X) ((N - Lf) * X))
    as [Hfin Hv]; try assumption.
  - rewrite Z.abs_mul, (Z.abs_eq X) by lia. apply grid_int; lia.
  - rewrite Z.abs_mul, (Z.abs_eq X) by lia. apply grid_int; lia.
  - nia.
  - apply (trunc_between _ (scale + scale)); [assumption|lia|exact Hv].
Qed.

Lemma floor_ceil_mul_bounds n m :
  0 <= n -> 0 <= value m <= 2 ^ (- scale) ->
  0 <= floor_mul n m /\ floor_mul n m <= ceil_mul n m /\ ceil_mul n m <= n.
Proof.
  intros Hn Hm. unfold floor_mul, ceil_mul.
  assert (HP : 0 < 2 ^ (- scale)) by (apply pow2_gt0; unfold scale; lia).
  split; [apply Z.div_pos; nia|]. split; [apply floor_le_ceil; lia|].
  apply ceil_le; nia.
Qed.

(** Left corner: the truncated product. *)
Lemma pos_x_left vw wm_w m :
  0 <= vw < 2 ^ 40 -> unit_float m ->
  exists x, pos_x Left vw wm_w m = Ok x /\ floor_mul vw m <= x <= ceil_mul vw m.
Proof.
  intros Hvw Hm. destruct (unit_float_value m Hm) as [Fm Vm].
  apply imul_trunc; try assumption.
  pose proof (pow2_gt0 (- scale) ltac:(unfold scale; lia)). nia.
Qed.

Lemma pos_x_right vw wm_w m :
  0 <= vw < 2 ^ 40 -> 0 <= wm_w < 2 ^ 40 -> unit_float m ->
  exists x, pos_x Right vw wm_w m = Ok x /\
            vw - wm_w - ceil_mul vw m <= x <= vw - wm_w - floor_mul vw m.
Proof.
  intros Hvw Hwm Hm. destruct (unit_float_value m Hm) as [Fm Vm].
  pose proof (pow2_gt0 (- scale) ltac:(unfold scale; lia)) as HP.
  destruct (imul_floor_ceil vw m Hvw Fm ltac:(nia)) as (f & Hf & Ffin & Hv).
  destruct (floor_ceil_mul_bounds vw m ltac:(lia) Vm) as (H0 & H1 & H2).
  unfold pos_x. rewrite Hf. cbn [bind].
  apply isub_trunc; try assumption; lia.
Qed.

Lemma pos_y_bounds dh wm_h m :
  0 <= dh < 2 ^ 40 -> 0 <= wm_h < 2 ^ 40 -> unit_float m ->
  exists y, pos_y dh wm_h m = Ok y /\
            Z.max 0 (dh - wm_h - ceil_mul dh m) <= y <= Z.max 0 (dh - wm_h - floor_mul dh m).
Proof.
  intros Hdh Hwm Hm. destruct (unit_float_value m Hm) as [Fm Vm].
  pose proof (pow2_gt0 (- scale) ltac:(unfold scale; lia)) as HP.
  destruct (imul_floor_ceil dh m Hdh Fm ltac:(nia)) as (f & Hf & Ffin & Hv).
  destruct (floor_ceil_mul_bounds dh m ltac:(lia) Vm) as (H0 & H1 & H2).
  unfold pos_y. rewrite Hf. cbn [bind].
  destruct (isub_trunc (dh - wm_h) f (floor_mul dh m) (ceil_mul dh m))
    as (t & Ht & Hb); try assumption; try lia.
  unfold isub in *. destruct (of_int (dh - wm_h)) as [fx|e]; [|discriminate].
  cbn [bind] in *. rewrite Ht. cbn [bind].
  eexists; split; [reflexivity|].
  destruct (Z.ltb_spec t 0); lia.
Qed.

Lemma value_MARGIN_X : value MARGIN_X = 7205759403792794 * 2 ^ 1017.
Proof. reflexivity. Qed.

Lemma value_MARGIN_Y : value MARGIN_Y = 2 ^ 1073.
Proof. reflexivity. Qed.

Lemma unit_float_MARGIN_X : unit_float MARGIN_X.
Proof. repeat split. Qed.

Lemma unit_float_MARGIN_Y : unit_float MARGIN_Y.
Proof. repeat split. Qed.

Lemma floor_mul_MARGIN_X n : 0 <= n < 2 ^ 40 -> floor_mul n MARGIN_X = n / 20.
Proof.
  intros Hn. unfold floor_mul. rewrite value_MARGIN_X.
  change (2 ^ (- scale)) with (2 ^ 57 * 2 ^ 1017).
  rewrite Z.mul_assoc, Z.div_mul_cancel_r by lia.
  change (2 ^ 57) with 144115188075855872.
  change (2 ^ 40) with 1099511627776 in Hn.
  Z.div_mod_to_equations. lia.
Qed.

Lemma ceil_mul_MARGIN_X n : 0 < n < 2 ^ 40 -> ceil_mul n MARGIN_X = n / 20 + 1.
Proof.
  intros Hn. unfold ceil_mul. rewrite value_MARGIN_X.
  change (2 ^ (- scale)) with (2 ^ 57 * 2 ^ 1017).
  rewrite Z.mul_assoc, <- Z.mul_opp_l, Z.div_mul_cancel_r by lia.
  change (2 ^ 57) with 144115188075855872.
  change (2 ^ 40) with 1099511627776 in Hn.
  Z.div_mod_to_equations. lia.
Qed.

Lemma floor_mul_MARGIN_Y n : floor_mul n MARGIN_Y = n / 2.
Proof.
  unfold floor_mul. rewrite value_MARGIN_Y.
  change (2 ^ (- scale)) with (2 * 2 ^ 1073).
  rewrite Z.div_mul_cancel_r by lia. reflexivity.
Qed.

Lemma ceil_mul_MARGIN_Y n : ceil_mul n MARGIN_Y = (n + 1) / 2.
Proof.
  unfold ceil_mul. rewrite value_MARGIN_Y.
  change (2 ^ (- scale)) with (2 * 2 ^ 1073).
  rewrite <- Z.mul_opp_l, Z.div_mul_cancel_r by lia.
  Z.div_mod_to_equations. lia.
Qed.

(** ** The alpha table *)

Lemma mapM_Forall2 {A B : Type} (f : A -> result B) (P : A -> B -> Prop) l :
  (forall a, In a l -> exists b, f a = Ok b /\ P a b) ->
  exists bs, mapM f l = Ok bs /\ Forall2 P l bs.
Proof.
  induction l as [|a l IH]; intros H; cbn [mapM].
  - exists []. split; [reflexivity|constructor].
  - destruct (H a (or_introl eq_refl)) as (b & Hb & Pb).
    destruct IH as (bs & Hbs & Pbs); [intros a' Ha'; apply H; right; exact Ha'|].
    rewrite Hb, Hbs. cbn [bind]. exists (b :: bs). split; [reflexivity|].
    constructor; assumption.
Qed.

Lemma Forall2_nth {A B : Type} (P : A -> B -> Prop) l l' i da db :
  Forall2 P l l' -> (i < List.length l)%nat -> P (nth i l da) (nth i l' db).
Proof.
  intros H. revert i. induction H as [|a b l l' Hab _ IH]; intros i Hi; cbn in Hi; [lia|].
  destruct i as [|i]; cbn [nth]; [exact Hab|]. apply IH. lia.
Qed.

Lemma ltb_leb x y : ltb x y = true -> leb x y = true.
Proof.
  unfold ltb, leb, SFltb, SFleb. destruct (SFcompare x y) as [[]|]; congruence.
Qed.

(** Small integers pass to C as they are. *)
Lemma mapM_c_long t :
  Forall (fun v => 0 <= v <= 255) t -> mapM c_long t = Ok t.
Proof.
  induction 1 as [|v t Hv _ IH]; cbn [mapM]; [reflexivity|].
  rewrite IH. unfold c_long.
  destruct (Z.leb_spec (- 2 ^ 63) v); [|lia].
  destruct (Z.ltb_spec v (2 ^ 63)); [|lia]. reflexivity.
Qed.

Lemma c_int_small v : 0 <= v <= 255 -> c_int v = v.
Proof.
  intros H. unfold c_int. rewrite Z.mod_small by lia. lia.
Qed.

Lemma Forall2_Forall_r {A B : Type} (P : A -> B -> Prop) (Q : B -> Prop) l l' :
  Forall2 P l l' -> (forall a b, In a l -> P a b -> Q b) -> Forall Q l'.
Proof.
  induction 1 as [|a b l l' Hab _ IH]; intros H; constructor.
  - apply (H a b); [left; reflexivity|exact Hab].
  - apply IH. intros a' b' Ha'. apply H. right. exact Ha'.
Qed.

(** One entry of the table: the alpha value never grows. *)
Lemma alpha_entry o p :
  unit_float o -> 0 <= p <= 255 ->
  exists t, (x <- imul p o ;; trunc x) = Ok t /\ 0 <= t <= p.
Proof.
  intros Ho Hp. destruct (unit_float_value o Ho) as [Fo Vo].
  pose proof (pow2_gt0 (- scale) ltac:(unfold scale; lia)) as HP.
  destruct (imul_trunc p o ltac:(lia) Fo ltac:(nia)) as (t & Ht & Hb).
  destruct (floor_ceil_mul_bounds p o ltac:(lia) Vo) as (H0 & H1 & H2).
  exists t. split; [exact Ht|lia].
Qed.

Lemma point_table_dims o :
  unit_float o ->
  exists table, point_table (fun p => x <- imul p o ;; trunc x) = Ok table /\
                forall v, 0 <= v <= 255 -> 0 <= lookup table v <= v.
Proof.
  intros Ho. unfold point_table.
  destruct (mapM_Forall2 (fun p => x <- imul p o ;; trunc x)
              (fun p t => 0 <= t <= p) (map Z.of_nat (seq 0 256)))
    as (t & Ht & Pt).
  { intros a Ha. apply in_map_iff in Ha. destruct Ha as (i & <- & Hi).
    apply in_seq in Hi. apply alpha_entry; [exact Ho|lia]. }
  assert (Hs : Forall (fun v => 0 <= v <= 255) t).
  { apply (Forall2_Forall_r _ _ _ _ Pt). intros a b Ha Hab.
    apply in_map_iff in Ha. destruct Ha as (i & <- & Hi). apply in_seq in Hi. lia. }
  rewrite Ht. cbn [bind]. rewrite (mapM_c_long t Hs). cbn [bind].
  eexists; split; [reflexivity|].
  intros v Hv. unfold lookup.
  assert (Hlen : (Z.to_nat v < List.length (map Z.of_nat (seq 0 256)))%nat).
  { rewrite length_map, length_seq. lia. }
  pose proof (Forall2_nth _ _ _ (Z.to_nat v) 0 0 Pt Hlen) as Hn.
  cbn beta in Hn.
  assert (Hnv : nth (Z.to_nat v) (map Z.of_nat (seq 0 256)) 0 = v).
  { change 0 with (Z.of_nat 0) at 1. rewrite map_nth, seq_nth by lia. lia. }
  rewrite Hnv in Hn.
  replace (nth (Z.to_nat v) (map (fun v => clip8 (c_int v)) t) 0)
    with (clip8 (c_int (nth (Z.to_nat v) t 0)))
    by (symmetry; exact (map_nth (fun v => clip8 (c_int v)) t 0 (Z.to_nat v))).
  rewrite c_int_small by lia. unfold clip8. lia.
Qed.

(** ** The target width of the watermark *)

Lemma value_WM_REL_WIDTH : value WM_REL_WIDTH = 2 ^ 1072.
Proof. reflexivity. Qed.

(** [vw * WM_REL_WIDTH] is exact: a quarter of the width. *)
Lemma imul_quarter vw :
  0 <= vw < 2 ^ 40 ->
  exists x, imul vw WM_REL_WIDTH = Ok x /\ finite_at (scale + scale) x /\
            fval (scale + scale) x = vw * 2 ^ (-2 - (scale + scale)).
Proof.
  intros Hvw. unfold imul.
  destruct (of_int_val vw scale) as (fx & Hfx & Ffx & Vfx); [lia|unfold scale; lia|].
  rewrite Hfx. cbn [bind]. eexists; split; [reflexivity|].
  assert (Hg : grid (scale + scale) (vw * 2 ^ (-2 - (scale + scale)))).
  { apply grid_dyadic; unfold scale; lia. }
  destruct (mul_between fx WM_REL_WIDTH scale scale
              (vw * 2 ^ (-2 - (scale + scale))) (vw * 2 ^ (-2 - (scale + scale))))
    as [Hfin Hv]; try assumption.
  - cbn. unfold scale. lia.
  - rewrite Vfx. pose proof (pow2_gt0 (- scale) ltac:(unfold scale; lia)). nia.
  - fold (value WM_REL_WIDTH). rewrite value_WM_REL_WIDTH. lia.
  - fold (value WM_REL_WIDTH). rewrite value_WM_REL_WIDTH, Vfx.
    change (2 ^ (-2 - (scale + scale))) with (2 ^ (- scale) * 2 ^ 1072). lia.
  - split; [exact Hfin|lia].
Qed.

(** The jittered factor [1.0 + u] stays between a half and two. *)
Lemma variation_bounds u :
  valid_binary prec emax u = true ->
  leb (SFopp SCALE_VARIATION) u = true -> leb u SCALE_VARIATION = true ->
  finite_at scale (add one u) /\
  2 ^ 1073 <= value (add one u) <= 2 ^ 1075.
Proof.
  intros Vu Hlo Hhi.
  assert (Fu : is_finite u = true).
  { destruct u as [su|[]| |su mu eu]; try reflexivity; cbn in Hlo, Hhi; discriminate. }
  pose proof (leb_value (SFopp SCALE_VARIATION) u eq_refl Vu eq_refl Fu Hlo) as H1.
  pose proof (leb_value u SCALE_VARIATION Vu eq_refl Fu eq_refl Hhi) as H2.
  change (value (SFopp SCALE_VARIATION)) with (- (5404319552844595 * 2 ^ 1019)) in H1.
  change (value SCALE_VARIATION) with (5404319552844595 * 2 ^ 1019) in H2.
  assert (HY : 0 < 2 ^ 1019) by (apply pow2_gt0; lia).
  change (2 ^ 1073) with (2 ^ 54 * 2 ^ 1019). change (2 ^ 1075) with (2 ^ 56 * 2 ^ 1019).
  assert (Hone : fval scale one = 2 ^ 55 * 2 ^ 1019) by reflexivity.
  apply add_between.
  - cbn. unfold scale. lia.
  - apply valid_finite_at; assumption.
  - unfold scale. lia.
  - rewrite Z.abs_eq by lia.
    replace (2 ^ 54 * 2 ^ 1019) with (1 * 2 ^ (-1 - scale)) by (vm_compute; reflexivity).
    apply grid_dyadic; unfold scale; lia.
  - rewrite Z.abs_eq by lia.
    replace (2 ^ 56 * 2 ^ 1019) with (2 * 2 ^ (0 - scale)) by (vm_compute; reflexivity).
    apply grid_dyadic; unfold scale; lia.
  - rewrite Hone. unfold value in H1, H2. set (Y := 2 ^ 1019) in *.
    change (2 ^ 54) with 18014398509481984. change (2 ^ 55) with 36028797018963968.
    change (2 ^ 56) with 72057594037927936. lia.
Qed.

Lemma target_wm_w_bracket vw u :
  0 <= vw < 2 ^ 40 -> valid_binary prec emax u = true ->
  leb (SFopp SCALE_VARIATION) u = true -> leb u SCALE_VARIATION = true ->
  exists t, target_wm_w vw u = Ok (Z.max 8 t) /\
            (vw * value (add one u)) / 2 ^ 1076 <= t
              <= - ((- (vw * value (add one u))) / 2 ^ 1076).
Proof.
  intros Hvw Vu Hlo Hhi. unfold target_wm_w.
  destruct (variation_bounds u Vu Hlo Hhi) as [Fv Vv].
  set (v := add one u) in *.
  destruct (imul_quarter vw Hvw) as (x & Hx & Fx & Vx).
  rewrite Hx. cbn [bind].
  set (N := vw * value v).
  set (Z3 := 2 ^ (- (scale + scale + scale))).
  assert (HZ3 : 0 < Z3) by (apply pow2_gt0; unfold scale; lia).
  assert (HZ3e : Z3 = 2 ^ 2146 * 2 ^ 1076) by reflexivity.
  assert (H2146 : 0 < 2 ^ 2146) by (apply pow2_gt0; lia).
  assert (H1076 : 0 < 2 ^ 1076) by (apply pow2_gt0; lia).
  assert (HN : 0 <= N) by (unfold N; nia).
  assert (HNhi : N <= 2 ^ 40 * 2 ^ 1075) by (unfold N; nia).
  assert (Hprod : fval (scale + scale) x * fval scale v = N * 2 ^ 2146).
  { rewrite Vx. change (2 ^ (-2 - (scale + scale))) with (2 ^ 2146). unfold N, value. ring. }
  assert (Hfl : 0 <= N / 2 ^ 1076) by (apply Z.div_pos; lia).
  assert (Hce : - ((- N) / 2 ^ 1076) <= 2 ^ 40).
  { apply ceil_le; [lia|]. change (2 ^ 1076) with (2 * 2 ^ 1075). nia. }
  pose proof (floor_le_ceil N (2 ^ 1076) H1076) as Hfc.
  destruct (mul_between x v (scale + scale) scale
              (N / 2 ^ 1076 * Z3) (- ((- N) / 2 ^ 1076) * Z3)) as [Fm Vm];
    try assumption.
  - rewrite Vx. pose proof (pow2_gt0 (-2 - (scale + scale)) ltac:(unfold scale; lia)). nia.
  - unfold value in Vv. lia.
  - apply grid_int; [unfold scale; lia|lia].
  - apply grid_int; [unfold scale; lia|lia].
  - rewrite Hprod, HZ3e.
    pose proof (Z.mul_div_le N (2 ^ 1076) H1076). pose proof (ceil_ge N (2 ^ 1076) H1076).
    split; nia.
  - destruct (trunc_between (mul x v) (scale + scale + scale) _ _ Fm
                ltac:(unfold scale; lia) Vm) as (t & Ht & Hb).
    rewrite Ht. cbn [bind]. exists t. split; [reflexivity|exact Hb].
Qed.

(** Without jitter the target width is a quarter of the video width, cut to
    an integer, and at least 8. *)
Lemma target_wm_w_zero vw :
  0 <= vw < 2 ^ 40 -> target_wm_w vw zero = Ok (Z.max 8 (vw / 4)).
Proof.
  intros Hvw. unfold target_wm_w.
  destruct (imul_quarter vw Hvw) as (x & Hx & Fx & Vx).
  rewrite Hx. cbn [bind].
  change (add one zero) with one.
  set (Z3 := 2 ^ (- (scale + scale + scale))).
  assert (Hg : grid (scale + scale + scale) (vw * 2 ^ (-2 - (scale + scale + scale)))).
  { apply grid_dyadic; unfold scale; lia. }
  assert (H0 : 0 < 2 ^ (-2 - (scale + scale))) by (apply pow2_gt0; unfold scale; lia).
  destruct (mul_between x one (scale + scale) scale
              (vw * 2 ^ (-2 - (scale + scale + scale)))
              (vw * 2 ^ (-2 - (scale + scale + scale))))
    as [Fm Vm]; try assumption.
  - cbn. unfold scale. lia.
  - rewrite Vx. nia.
  - cbn. lia.
  - rewrite Vx. change (fval scale one) with (2 ^ (- scale)).
    change (2 ^ (-2 - (scale + scale + scale))) with (2 ^ (-2 - (scale + scale)) * 2 ^ (- scale)).
    lia.
  - assert (Hv : fval (scale + scale + scale) (mul x one)
                 = vw * 2 ^ (-2 - (scale + scale + scale))) by lia.
    rewrite (trunc_val_nonneg _ (scale + scale + scale) Fm).
    + rewrite Hv.
      change (2 ^ (- (scale + scale + scale))) with (4 * 2 ^ (-2 - (scale + scale + scale))).
      rewrite Z.div_mul_cancel_r; [reflexivity|lia|].
      apply Z.neq_sym, Z.lt_neq, pow2_gt0. unfold scale; lia.
    + unfold scale; lia.
    + rewrite Hv. pose proof (pow2_gt0 (-2 - (scale + scale + scale)) ltac:(unfold scale; lia)).
      nia.
Qed.

Lemma trunc_floor f s k :
  finite_at s f -> s <= 0 -> 0 <= k ->
  k * 2 ^ (- s) <= fval s f < (k + 1) * 2 ^ (- s) ->
  trunc f = Ok k.
Proof.
  intros Hf Hs Hk Hb. pose proof (pow2_gt0 (- s) ltac:(lia)) as HX.
  rewrite (trunc_val_nonneg f s Hf Hs) by nia.
  f_equal. symmetry. apply Z.div_unique with (r := fval s f - k * 2 ^ (- s)); [left|]; lia.
Qed.

(** With the margin of the script the left abscissa is a twentieth of the
    width, cut to an integer. *)
Lemma pos_x_left_MARGIN_X vw wm_w :
  0 <= vw < 2 ^ 40 -> pos_x Left vw wm_w MARGIN_X = Ok (vw / 20).
Proof.
  intros Hvw. unfold pos_x, imul.
  destruct (of_int_val vw scale) as (fx & Hfx & Ffx & Vfx); [lia|unfold scale; lia|].
  rewrite Hfx. cbn [bind].
  set (k := vw / 20).
  assert (Hk : 0 <= k < 2 ^ 40).
  { unfold k. change (2 ^ 40) with 1099511627776 in *. Z.div_mod_to_equations. lia. }
  set (Y := 2 ^ 2091). assert (HY : 0 < Y) by (apply pow2_gt0; lia).
  assert (E1 : 2 ^ (- (scale + scale)) = 2 ^ 57 * Y) by (vm_compute; reflexivity).
  assert (E2 : 2 ^ (-10 - (scale + scale)) = 2 ^ 47 * Y) by (vm_compute; reflexivity).
  assert (E3 : fval scale fx * fval scale MARGIN_X = vw * 7205759403792794 * Y).
  { rewrite Vfx. fold (value MARGIN_X). rewrite value_MARGIN_X.
    assert (EY : Y = 2 ^ (- scale) * 2 ^ 1017) by (vm_compute; reflexivity).
    rewrite EY. set (a := 2 ^ (- scale)). set (b := 2 ^ 1017). ring. }
  destruct (mul_between fx MARGIN_X scale scale
              (k * 2 ^ (- (scale + scale)))
              (((k + 1) * 1024 - 1) * 2 ^ (-10 - (scale + scale))))
    as [Fm Vm]; try assumption.
  - cbn. unfold scale. lia.
  - rewrite Vfx. pose proof (pow2_gt0 (- scale) ltac:(unfold scale; lia)). nia.
  - cbn. lia.
  - apply grid_int; [unfold scale; lia|lia].
  - apply grid_dyadic; [|unfold scale; lia|unfold scale; lia].
    change (2 ^ 53) with 9007199254740992. change (2 ^ 40) with 1099511627776 in Hk. lia.
  - rewrite E1, E2, E3. unfold k.
    change (2 ^ 57) with 144115188075855872. change (2 ^ 47) with 140737488355328.
    change (2 ^ 40) with 1099511627776 in Hvw.
    assert (vw / 20 * 144115188075855872 <= vw * 7205759403792794
            <= ((vw / 20 + 1) * 1024 - 1) * 140737488355328).
    { Z.div_mod_to_equations. lia. }
    nia.
  - apply (trunc_floor _ (scale + scale)); [exact Fm|unfold scale; lia|lia|].
    rewrite E1, E2 in *. change (2 ^ 57) with (1024 * 2 ^ 47). nia.
Qed.

(** ** Bytes and code points *)

Lemma byte_of_range c : 0 <= byte_of c < 256.
Proof.
  unfold byte_of. pose proof (N_ascii_bounded c) as H. lia.
Qed.

Lemma char_of_byte_of c : char_of (byte_of c) = c.
Proof.
  unfold char_of, byte_of. rewrite N2Z.id. apply ascii_N_embedding.
Qed.

Lemma byte_of_char_of b : 0 <= b < 256 -> byte_of (char_of b) = b.
Proof.
  intros H. unfold char_of, byte_of. rewrite N_ascii_embedding by lia. lia.
Qed.

Lemma between_spec first last c : between first last c = true <-> first <= c <= last.
Proof. unfold between. rewrite andb_true_iff, !Z.leb_le. tauto. Qed.

Lemma encode_point_ascii c :
  byte_of c < 128 -> encode_point (byte_of c) = String c EmptyString.
Proof.
  intros H. unfold encode_point.
  destruct (Z.ltb_spec (byte_of c) 128); [|lia]. rewrite char_of_byte_of. reflexivity.
Qed.

Lemma encode_point_escape c :
  128 <= byte_of c -> encode_point (56320 + byte_of c) = String c EmptyString.
Proof.
  intros H. pose proof (byte_of_range c) as R. unfold encode_point.
  destruct (Z.ltb_spec (56320 + byte_of c) 128); [lia|].
  replace (between 56448 56575 (56320 + byte_of c)) with true
    by (symmetry; apply between_spec; lia).
  replace (56320 + byte_of c - 56320) with (byte_of c) by lia.
  rewrite char_of_byte_of. reflexivity.
Qed.

Ltac bools_to_props :=
  repeat match goal with
         | H : _ && _ = true |- _ => apply andb_true_iff in H; destruct H
         | H : _ || _ = true |- _ => apply orb_true_iff in H; destruct H
         | H : between _ _ _ = true |- _ => apply between_spec in H
         | H : continuation _ = true |- _ => unfold continuation in H
         | H : (_ =? _) = true |- _ => apply Z.eqb_eq in H
         end.

Lemma encode_point_two c0 c1 :
  two_bytes (byte_of c0) (byte_of c1) = true ->
  encode_point ((byte_of c0 - 192) * 64 + (byte_of c1 - 128))
  = String c0 (String c1 EmptyString).
Proof.
  intros H. unfold two_bytes in H. bools_to_props.
  set (b0 := byte_of c0) in *. set (b1 := byte_of c1) in *.
  unfold encode_point.
  destruct (Z.ltb_spec ((b0 - 192) * 64 + (b1 - 128)) 128); [lia|].
  destruct (between 56448 56575 _) eqn:E; [apply between_spec in E; lia|].
  destruct (Z.ltb_spec ((b0 - 192) * 64 + (b1 - 128)) 2048); [|lia].
  replace (192 + ((b0 - 192) * 64 + (b1 - 128)) / 64) with b0
    by (Z.div_mod_to_equations; lia).
  replace (128 + ((b0 - 192) * 64 + (b1 - 128)) mod 64) with b1
    by (Z.div_mod_to_equations; lia).
  unfold b0, b1. rewrite !char_of_byte_of. reflexivity.
Qed.

Lemma encode_point_three c0 c1 c2 :
  three_bytes (byte_of c0) (byte_of c1) (byte_of c2) = true ->
  encode_point ((byte_of c0 - 224) * 4096 + (byte_of c1 - 128) * 64 + (byte_of c2 - 128))
  = String c0 (String c1 (String c2 EmptyString)).
Proof.
  intros H. unfold three_bytes in H.
  set (b0 := byte_of c0) in *. set (b1 := byte_of c1) in *. set (b2 := byte_of c2) in *.
  set (p := (b0 - 224) * 4096 + (b1 - 128) * 64 + (b2 - 128)).
  assert (R : 224 <= b0 <= 239 /\ 128 <= b1 <= 191 /\ 128 <= b2 <= 191
              /\ 2048 <= p < 65536 /\ (p < 56448 \/ 56575 < p)).
  { unfold p. bools_to_props; lia. }
  clear H. destruct R as (R0 & R1 & R2 & R3 & R4).
  unfold encode_point. fold p.
  destruct (Z.ltb_spec p 128); [lia|].
  destruct (between 56448 56575 p) eqn:E; [apply between_spec in E; lia|].
  destruct (Z.ltb_spec p 2048); [lia|].
  destruct (Z.ltb_spec p 65536); [|lia].
  replace (224 + p / 4096) with b0 by (unfold p; Z.div_mod_to_equations; lia).
  replace (128 + p / 64 mod 64) with b1 by (unfold p; Z.div_mod_to_equations; lia).
  replace (128 + p mod 64) with b2 by (unfold p; Z.div_mod_to_equations; lia).
  unfold b0, b1, b2. rewrite !char_of_byte_of. reflexivity.
Qed.

Lemma encode_point_four c0 c1 c2 c3 :
  four_bytes (byte_of c0) (byte_of c1) (byte_of c2) (byte_of c3) = true ->
  encode_point ((byte_of c0 - 240) * 262144 + (byte_of c1 - 128) * 4096
                + (byte_of c2 - 128) * 64 + (byte_of c3 - 128))
  = String c0 (String c1 (String c2 (String c3 EmptyString))).
Proof.
  intros H. unfold four_bytes in H.
  set (b0 := byte_of c0) in *. set (b1 := byte_of c1) in *.
  set (b2 := byte_of c2) in *. set (b3 := byte_of c3) in *.
  set (p := (b0 - 240) * 262144 + (b1 - 128) * 4096 + (b2 - 128) * 64 + (b3 - 128)).
  assert (R : 240 <= b0 <= 244 /\ 128 <= b1 <= 191 /\ 128 <= b2 <= 191
              /\ 128 <= b3 <= 191 /\ 65536 <= p <= 1114111).
  { unfold p. bools_to_props; lia. }
  clear H. destruct R as (R0 & R1 & R2 & R3 & R4).
  unfold encode_point. fold p.
  destruct (Z.ltb_spec p 128); [lia|].
  destruct (between 56448 56575 p) eqn:E; [apply between_spec in E; lia|].
  destruct (Z.ltb_spec p 2048); [lia|].
  destruct (Z.ltb_spec p 65536); [lia|].
  replace (240 + p / 262144) with b0 by (unfold p; Z.div_mod_to_equations; lia).
  replace (128 + p / 4096 mod 64) with b1 by (unfold p; Z.div_mod_to_equations; lia).
  replace (128 + p / 64 mod 64) with b2 by (unfold p; Z.div_mod_to_equations; lia).
  replace (128 + p mod 64) with b3 by (unfold p; Z.div_mod_to_equations; lia).
  unfold b0, b1, b2, b3. rewrite !char_of_byte_of. reflexivity.
Qed.

(** ** Decoding and encoding *)

(** What [fsdecode] does with the head of a name: it reads a sequence of one
    to four bytes and goes on behind it. *)
Lemma fsdecode_head c0 s0 :
  exists p rest,
    fsdecode (String c0 s0) = p :: fsdecode rest /\
    (String.length rest <= String.length s0)%nat /\
    String c0 s0 = (encode_point p ++ rest)%string /\
    valid_point p.
Proof.
  pose proof (byte_of_range c0) as R0.
  cbn [fsdecode].
  assert (Esc : 128 <= byte_of c0 ->
                exists p rest,
                  (56320 + byte_of c0) :: fsdecode s0 = p :: fsdecode rest /\
                  (String.length rest <= String.length s0)%nat /\
                  String c0 s0 = (encode_point p ++ rest)%string /\
                  valid_point p).
  { intros H. exists (56320 + byte_of c0), s0. split; [reflexivity|]. split; [lia|].
    rewrite encode_point_escape by exact H. split; [reflexivity|].
    unfold valid_point. lia. }
  destruct (Z.ltb_spec (byte_of c0) 128) as [L|L].
  { exists (byte_of c0), s0. split; [reflexivity|]. split; [lia|].
    rewrite encode_point_ascii by exact L. split; [reflexivity|].
    unfold valid_point. lia. }
  destruct s0 as [|c1 s1]; [apply Esc, L|].
  destruct (two_bytes (byte_of c0) (byte_of c1)) eqn:E2.
  { eexists _, s1. split; [reflexivity|]. split; [cbn [String.length]; lia|].
    rewrite encode_point_two by exact E2. split; [reflexivity|].
    unfold two_bytes in E2. pose proof (byte_of_range c1).
    unfold valid_point. bools_to_props; lia. }
  destruct s1 as [|c2 s2]; [apply Esc, L|].
  destruct (three_bytes (byte_of c0) (byte_of c1) (byte_of c2)) eqn:E3.
  { eexists _, s2. split; [reflexivity|]. split; [cbn [String.length]; lia|].
    rewrite encode_point_three by exact E3. split; [reflexivity|].
    unfold three_bytes in E3. pose proof (byte_of_range c1). pose proof (byte_of_range c2).
    unfold valid_point. bools_to_props; lia. }
  destruct s2 as [|c3 s3]; [apply Esc, L|].
  destruct (four_bytes (byte_of c0) (byte_of c1) (byte_of c2) (byte_of c3)) eqn:E4.
  { eexists _, s3. split; [reflexivity|]. split; [cbn [String.length]; lia|].
    rewrite encode_point_four by exact E4. split; [reflexivity|].
    unfold four_bytes in E4.
    unfold valid_point. bools_to_props; lia. }
  apply Esc, L.
Qed.

(** Induction along the sequences that [fsdecode] reads. *)
Lemma fsdecode_ind (P : string -> list Z -> Prop) :
  P EmptyString [] ->
  (forall p rest, valid_point p -> P rest (fsdecode rest) ->
                  P (encode_point p ++ rest)%string (p :: fsdecode rest)) ->
  forall s, P s (fsdecode s).
Proof.
  intros H0 H1 s.
  assert (G : forall n s, (String.length s <= n)%nat -> P s (fsdecode s)).
  { clear s. induction n as [|n IH]; intros s Hn.
    - destruct s; [exact H0|cbn [String.length] in Hn; lia].
    - destruct s as [|c0 s0]; [exact H0|].
      destruct (fsdecode_head c0 s0) as (p & rest & E & Hl & Es & Hv).
      rewrite E, Es. apply H1; [exact Hv|]. apply IH.
      cbn [String.length] in Hn. lia. }
  exact (G (String.length s) s (Nat.le_refl _)).
Qed.

(** The bytes of the decoded name are the bytes of the name. *)
Lemma fsencode_fsdecode s : fsencode (fsdecode s) = s.
Proof.
  apply (fsdecode_ind (fun s l => fsencode l = s)); [reflexivity|].
  intros p rest _ IH. cbn [fsencode]. rewrite IH. reflexivity.
Qed.

Lemma fsdecode_valid s : Forall valid_point (fsdecode s).
Proof.
  apply (fsdecode_ind (fun _ l => Forall valid_point l)); [constructor|].
  intros p rest Hp IH. constructor; assumption.
Qed.

(** ** The case tables *)

Lemma among_In l s : among l s = true <-> In s l.
Proof.
  unfold among. rewrite existsb_exists. split.
  - intros (x & Hx & E). apply String.eqb_eq in E. subst. exact Hx.
  - intros H. exists s. split; [exact H|apply String.eqb_refl].
Qed.

Lemma forallb_In {A : Type} (f : A -> bool) l x :
  forallb f l = true -> In x l -> f x = true.
Proof. intros H. apply (proj1 (forallb_forall f l) H). Qed.

(** Every run of the table but two leads out of ASCII, and none out of the
    code points. *)
Lemma lower_table_runs r :
  In r lower_table ->
  let '(first, last, step, delta) := r in
  (r = (65, 90, 1, 32) \/ r = (8490, 8490, 1, -8383) \/ 128 <= first + delta) /\
  0 <= first + delta /\ last + delta <= 1114111.
Proof.
  intros H.
  assert (C : forallb (fun r : Z * Z * Z * Z =>
                         let '(first, last, step, delta) := r in
                         ((first =? 65) && (last =? 90) && (step =? 1) && (delta =? 32)
                          || (first =? 8490) && (last =? 8490) && (step =? 1)
                             && (delta =? -8383)
                          || (128 <=? first + delta))
                         && (0 <=? first + delta) && (last + delta <=? 1114111))
                      lower_table = true) by (vm_compute; reflexivity).
  pose proof (forallb_In _ _ _ C H) as G. cbv beta in G.
  destruct r as [[[first last] step] delta].
  apply andb_true_iff in G. destruct G as [G G3].
  apply andb_true_iff in G. destruct G as [G1 G2].
  apply Z.leb_le in G2, G3. split; [|lia].
  apply orb_true_iff in G1. destruct G1 as [G1|G1]; [|right; right; apply Z.leb_le, G1].
  apply orb_true_iff in G1. destruct G1 as [G1|G1].
  - left. repeat (apply andb_true_iff in G1; destruct G1 as [G1 ?]).
    repeat match goal with H : (_ =? _) = true |- _ => apply Z.eqb_eq in H end.
    subst. reflexivity.
  - right. left. repeat (apply andb_true_iff in G1; destruct G1 as [G1 ?]).
    repeat match goal with H : (_ =? _) = true |- _ => apply Z.eqb_eq in H end.
    subst. reflexivity.
Qed.

(** The three shapes of [to_lower]. *)
Lemma to_lower_cases c :
  (c = 304 /\ to_lower c = [105; 775])
  \/ to_lower c = [c]
  \/ exists first last step delta,
       In (first, last, step, delta) lower_table /\ first <= c <= last /\
       to_lower c = [c + delta].
Proof.
  unfold to_lower. destruct (Z.eqb_spec c 304) as [E|E]; [left; split; [exact E|reflexivity]|].
  right. destruct (find _ lower_table) as [[[[first last] step] delta]|] eqn:F.
  - right. apply find_some in F. destruct F as [Hin Hr].
    unfold in_run in Hr. apply andb_true_iff in Hr. destruct Hr as [Hr _].
    apply between_spec in Hr. exists first, last, step, delta. auto.
  - left. reflexivity.
Qed.

Lemma to_lower_valid c : valid_point c -> Forall valid_point (to_lower c).
Proof.
  unfold valid_point. intros Hc.
  destruct (to_lower_cases c) as [[_ ->]|[->|(first & last & step & delta & Hin & Hr & ->)]].
  - repeat constructor; lia.
  - repeat constructor; lia.
  - pose proof (lower_table_runs _ Hin) as T. cbv beta iota in T.
    repeat constructor; lia.
Qed.

(** A lowercase within ASCII comes from ASCII, or from the Kelvin sign. *)
Lemma to_lower_ascii c :
  Forall (fun a => a < 128) (to_lower c) -> exists a, to_lower c = [a] /\ lowers_to c a.
Proof.
  intros H. unfold lowers_to.
  destruct (to_lower_cases c) as [[_ E]|[E|(first & last & step & delta & Hin & Hr & E)]];
    rewrite E in H |- *.
  - inversion H as [|? ? _ H']. inversion H' as [|? ? H'' _]. lia.
  - exists c. auto.
  - exists (c + delta). split; [reflexivity|].
    inversion H as [|? ? Ha _].
    pose proof (lower_table_runs _ Hin) as T. cbv beta iota in T.
    destruct T as [[T|[T|T]] _].
    + inversion T. subst. right. left. lia.
    + inversion T. subst. right. right. lia.
    + lia.
Qed.

(** ** [str.lower] *)

Lemma do_lower_valid l : forall before,
  Forall valid_point l -> Forall valid_point (do_lower before l).
Proof.
  induction l as [|c l IH]; intros before H; cbn [do_lower]; [constructor|].
  inversion H as [|? ? Hc Hl]. subst. apply Forall_app. split; [|apply IH, Hl].
  destruct (c =? 931).
  - destruct (before && negb (next_cased l)); repeat constructor; unfold valid_point; lia.
  - apply to_lower_valid, Hc.
Qed.

Lemma do_lower_ascii l : forall before m,
  do_lower before l = m -> Forall (fun a => a < 128) m -> Forall2 lowers_to l m.
Proof.
  induction l as [|c l IH]; intros before m E H; cbn [do_lower] in E; subst m.
  - constructor.
  - apply Forall_app in H. destruct H as [H1 H2].
    destruct (c =? 931).
    + exfalso. destruct (before && negb (next_cased l));
        inversion H1 as [|? ? Ha _]; lia.
    + destruct (to_lower_ascii c H1) as (a & -> & Ha). cbn [app].
      constructor; [exact Ha|]. exact (IH _ _ eq_refl H2).
Qed.

(** The bytes of a valid code point: one ASCII byte, or bytes from 128 on. *)
Lemma encode_point_head c :
  valid_point c ->
  (c < 128 /\ encode_point c = String (char_of c) EmptyString)
  \/ exists b rest, 128 <= b < 256 /\ encode_point c = String (char_of b) rest.
Proof.
  unfold valid_point. intros Hc. unfold encode_point.
  destruct (Z.ltb_spec c 128); [left; auto|]. right.
  destruct (between 56448 56575 c) eqn:E.
  { apply between_spec in E. eexists _, _. split; [|reflexivity]. lia. }
  destruct (Z.ltb_spec c 2048).
  { eexists _, _. split; [|reflexivity]. Z.div_mod_to_equations. lia. }
  destruct (Z.ltb_spec c 65536).
  { eexists _, _. split; [|reflexivity]. Z.div_mod_to_equations. lia. }
  eexists _, _. split; [|reflexivity]. Z.div_mod_to_equations. lia.
Qed.

Lemma codes_cons c s : codes (String c s) = byte_of c :: codes s.
Proof. reflexivity. Qed.

Lemma ascii_only_cons c s :
  ascii_only (String c s) = (byte_of c <? 128) && ascii_only s.
Proof. reflexivity. Qed.

(** A [str] whose bytes are ASCII holds these bytes as its code points. *)
Lemma fsencode_ascii m : forall t,
  Forall valid_point m -> fsencode m = t -> ascii_only t = true -> m = codes t.
Proof.
  induction m as [|c m IH]; intros t Hv E Ha; cbn [fsencode] in E; subst t.
  - reflexivity.
  - inversion Hv as [|? ? Hc Hm]. subst.
    destruct (encode_point_head c Hc) as [[Hlt Ec]|(b & rest & Hb & Ec)];
      rewrite Ec in Ha |- *; cbn [append] in Ha |- *;
      rewrite ascii_only_cons in Ha; apply andb_true_iff in Ha; destruct Ha as [Ha1 Ha2].
    + rewrite codes_cons. unfold valid_point in Hc.
      rewrite byte_of_char_of by lia. f_equal. apply IH; auto.
    + rewrite byte_of_char_of in Ha1 by lia. apply Z.ltb_lt in Ha1. lia.
Qed.

Lemma ascii_only_codes t : ascii_only t = true -> Forall (fun a => a < 128) (codes t).
Proof.
  unfold ascii_only. intros H. apply Forall_forall. intros a Ha.
  apply Z.ltb_lt. exact (forallb_In _ _ _ H Ha).
Qed.

Lemma unlower_complete c a : lowers_to c a -> In c (unlower a).
Proof.
  unfold lowers_to, unlower. intros [H|[[H1 H2]|[H1 H2]]].
  - left. auto.
  - right. apply in_or_app. left.
    replace (between 97 122 a) with true by (symmetry; apply between_spec; lia).
    left. auto.
  - right. apply in_or_app. right. subst a. left. auto.
Qed.

Lemma unlower_all_complete l m : Forall2 lowers_to l m -> In l (unlower_all m).
Proof.
  induction 1 as [|c a l m H _ IH]; cbn [unlower_all]; [left; reflexivity|].
  apply in_flat_map. exists c. split; [apply unlower_complete, H|].
  apply in_map, IH.
Qed.

(** A name whose lowercase is ASCII is one of the spellings that
    [unlower_all] lists. *)
Lemma lower_ascii s t :
  lower s = t -> ascii_only t = true -> In s (map fsencode (unlower_all (codes t))).
Proof.
  intros E Ha. unfold lower in E.
  assert (Hv : Forall valid_point (do_lower false (fsdecode s)))
    by apply do_lower_valid, fsdecode_valid.
  pose proof (fsencode_ascii _ _ Hv E Ha) as Em.
  pose proof (do_lower_ascii _ _ _ Em (ascii_only_codes t Ha)) as F.
  apply unlower_all_complete in F.
  rewrite <- (fsencode_fsdecode s) at 1. apply in_map, F.
Qed.

Lemma included (A B : list string) x :
  forallb (among B) A = true -> In x A -> In x B.
Proof. intros H Hx. apply among_In. exact (forallb_In _ _ _ H Hx). Qed.

(** The names whose lowercase is one of the eight extensions. *)
Lemma lower_video_extensions ext :
  In (lower ext) video_extensions <-> In ext (flat_map case_variants video_extensions).
Proof.
  split.
  - intros H.
    assert (G : exists t, In t video_extensions /\ lower ext = t) by eauto.
    destruct G as (t & Ht & E).
    assert (A : forallb ascii_only video_extensions = true) by (vm_compute; reflexivity).
    pose proof (lower_ascii ext t E (forallb_In _ _ _ A Ht)) as P.
    assert (C : forallb (fun t => forallb (among (flat_map case_variants video_extensions))
                                          (map fsencode (unlower_all (codes t))))
                        video_extensions = true) by (vm_compute; reflexivity).
    exact (included _ _ _ (forallb_In _ _ _ C Ht) P).
  - intros H.
    assert (C : forallb (fun x => among video_extensions (lower x))
                        (flat_map case_variants video_extensions) = true)
      by (vm_compute; reflexivity).
    apply among_In. exact (forallb_In _ _ _ C H).
Qed.

(** ** Capital and small letters of ASCII *)

(** Making a letter small never makes or unmakes a dot or a slash. *)
Lemma ascii_lower_char_eqb_dot c : Ascii.eqb (ascii_lower_char c) "." = Ascii.eqb c ".".
Proof. destruct c as [[] [] [] [] [] [] [] []]; reflexivity. Qed.

Lemma ascii_lower_char_eqb_sep c : Ascii.eqb (ascii_lower_char c) "/" = Ascii.eqb c "/".
Proof. destruct c as [[] [] [] [] [] [] [] []]; reflexivity. Qed.

Lemma ascii_lower_length s : String.length (ascii_lower s) = String.length s.
Proof. induction s as [|c s IH]; cbn [ascii_lower String.length]; congruence. Qed.

Lemma rfind_ascii_lower c s :
  (forall a, Ascii.eqb (ascii_lower_char a) c = Ascii.eqb a c) ->
  rfind c (ascii_lower s) = rfind c s.
Proof.
  intros Hc. induction s as [|a s IH]; cbn [ascii_lower rfind]; [reflexivity|].
  rewrite IH, Hc. reflexivity.
Qed.

Lemma get_ascii_lower n s :
  get n (ascii_lower s) = option_map ascii_lower_char (get n s).
Proof.
  revert n. induction s as [|c s IH]; intros n; cbn [ascii_lower get]; [reflexivity|].
  destruct n as [|n]; [reflexivity|apply IH].
Qed.

Lemma has_non_dot_ascii_lower p i n :
  has_non_dot (ascii_lower p) i n = has_non_dot p i n.
Proof.
  revert i. induction n as [|n IH]; intros i; cbn [has_non_dot]; [reflexivity|].
  rewrite get_ascii_lower. destruct (get i p) as [c|]; cbn [option_map]; [|reflexivity].
  rewrite ascii_lower_char_eqb_dot, IH. reflexivity.
Qed.

Lemma substring_ascii_lower n m s :
  substring n m (ascii_lower s) = ascii_lower (substring n m s).
Proof.
  revert n m. induction s as [|c s IH]; intros n m; cbn [ascii_lower substring].
  - destruct n, m; reflexivity.
  - destruct n as [|n].
    + destruct m as [|m]; [reflexivity|]. cbn [ascii_lower]. rewrite IH. reflexivity.
    + apply IH.
Qed.

Lemma splitext_ascii_lower p :
  splitext (ascii_lower p)
  = (ascii_lower (fst (splitext p)), ascii_lower (snd (splitext p))).
Proof.
  unfold splitext.
  rewrite (rfind_ascii_lower "/" p ascii_lower_char_eqb_sep),
          (rfind_ascii_lower "." p ascii_lower_char_eqb_dot).
  rewrite has_non_dot_ascii_lower.
  destruct ((rfind "/" p <? rfind "." p) && has_non_dot p _ _); cbn [fst snd].
  - unfold slice_to, slice_from. rewrite !substring_ascii_lower, ascii_lower_length.
    reflexivity.
  - reflexivity.
Qed.

Lemma ascii_raise_complete c : In c (ascii_raise (ascii_lower_char c)).
Proof.
  destruct c as [[] [] [] [] [] [] [] []];
    first [left; reflexivity|right; left; reflexivity].
Qed.

Lemma ascii_raise_all_complete s : In s (ascii_raise_all (ascii_lower s)).
Proof.
  induction s as [|c s IH]; cbn [ascii_lower ascii_raise_all]; [left; reflexivity|].
  apply in_flat_map. exists c. split; [apply ascii_raise_complete|].
  apply in_map, IH.
Qed.

(** The spellings of the extensions are closed under a change of case. *)
Lemma case_variants_ascii_lower e e' :
  ascii_lower e = ascii_lower e' ->
  In e (flat_map case_variants video_extensions) ->
  In e' (flat_map case_variants video_extensions).
Proof.
  intros E H.
  assert (C : forallb (fun v => forallb (among (flat_map case_variants video_extensions))
                                        (ascii_raise_all (ascii_lower v)))
                      (flat_map case_variants video_extensions) = true)
    by (vm_compute; reflexivity).
  apply (included _ _ _ (forallb_In _ _ _ C H)).
  rewrite E. apply ascii_raise_all_complete.
Qed.

(** ** File names and the batch *)

Lemma is_video_file_iff fn :
  is_video_file fn = true <-> In (lower (snd (splitext fn))) video_extensions.
Proof.
  unfold is_video_file. rewrite existsb_exists. split.
  - intros (x & Hx & Heq). apply String.eqb_eq in Heq. subst x. exact Hx.
  - intros H. eexists; split; [exact H|apply String.eqb_refl].
Qed.

Lemma is_video_file_ascii_lower fn fn' :
  ascii_lower fn = ascii_lower fn' -> is_video_file fn = is_video_file fn'.
Proof.
  intros E.
  assert (Ee : ascii_lower (snd (splitext fn)) = ascii_lower (snd (splitext fn'))).
  { pose proof (splitext_ascii_lower fn) as A. pose proof (splitext_ascii_lower fn') as A'.
    rewrite E in A. rewrite A in A'. inversion A'. reflexivity. }
  assert (G : forall a b, ascii_lower (snd (splitext a)) = ascii_lower (snd (splitext b)) ->
                          is_video_file a = true -> is_video_file b = true).
  { intros a b Eab H. apply is_video_file_iff, lower_video_extensions.
    apply is_video_file_iff, lower_video_extensions in H.
    exact (case_variants_ascii_lower _ _ Eab H). }
  destruct (is_video_file fn) eqn:B, (is_video_file fn') eqn:B'; try reflexivity.
  - rewrite (G fn fn' Ee B) in B'. discriminate.
  - rewrite (G fn' fn (eq_sym Ee) B') in B. discriminate.
Qed.

Lemma points_leb_trans a : forall b c,
  points_leb a b = true -> points_leb b c = true -> points_leb a c = true.
Proof.
  induction a as [|x a IH]; intros b c Hab Hbc; [reflexivity|].
  destruct b as [|y b]; [discriminate|].
  destruct c as [|z c]; [discriminate|].
  cbn [points_leb] in *.
  destruct (Z.eqb_spec x y), (Z.eqb_spec y z), (Z.eqb_spec x z);
    try apply Z.ltb_lt in Hab; try apply Z.ltb_lt in Hbc; subst;
    try lia; try (apply Z.ltb_lt; lia).
  exact (IH _ _ Hab Hbc).
Qed.

Lemma points_leb_antisym a : forall b,
  points_leb a b = true -> points_leb b a = true -> a = b.
Proof.
  induction a as [|x a IH]; intros b Hab Hba.
  - destruct b; [reflexivity|discriminate].
  - destruct b as [|y b]; [discriminate|]. cbn [points_leb] in *.
    rewrite (Z.eqb_sym y x) in Hba.
    destruct (Z.eqb_spec x y).
    + subst. f_equal. exact (IH _ Hab Hba).
    + apply Z.ltb_lt in Hab, Hba. lia.
Qed.

Lemma string_leb_trans a b c :
  str_leb a b = true -> str_leb b c = true -> str_leb a c = true.
Proof. unfold str_leb. apply points_leb_trans. Qed.

Lemma sorted_StronglySorted l : StronglySorted name_le (sorted l).
Proof.
  apply Sorted_StronglySorted.
  - intros a b c. apply string_leb_trans.
  - apply StringSort.Sorted_sort.
Qed.


Lemma sorted_In l f : In f (sorted l) <-> In f l.
Proof.
  pose proof (StringSort.Permuted_sort l) as Hp. split; intros H.
  - apply Permutation_sym in Hp. eapply Permutation_in; eassumption.
  - eapply Permutation_in; eassumption.
Qed.


Lemma one_file_recorded w fname :
  one_file w fname
  = Processing (basename (path_join videos_folder fname)) :: recorded w fname.
Proof.
  unfold one_file, recorded, process_one_video.
  destruct (probe_size w) as [[vw vh]|e]; [|reflexivity].
  destruct (compose w vw vh) as [c|e]; [|reflexivity].
  destruct (run_ffmpeg w _) as [u|e]; reflexivity.
Qed.


(** ** The rotated bounding box *)

Section SpecRotationProofs.
Import Reals Lra.
Local Open Scope R_scope.

(** The comparisons of [Rmax] and [Rmin], the innermost first. *)
Ltac split_extent :=
  repeat match goal with
         | |- context [Rle_dec ?x ?y] =>
             lazymatch x with
             | context [Rle_dec] => fail
             | _ => lazymatch y with
                    | context [Rle_dec] => fail
                    | _ => destruct (Rle_dec x y)
                    end
             end
         end; lra.

Lemma spec_extent_abs a b :
  spec_extent (a - b) (- a - b) (- a + b) (a + b) = 2 * (Rabs a + Rabs b).
Proof.
  unfold spec_extent, Rmax, Rmin, Rabs.
  destruct (Rcase_abs a), (Rcase_abs b); split_extent.
Qed.

Lemma spec_box_width_closed w h theta :
  0 <= w -> 0 <= h ->
  spec_box_width w h theta = w * Rabs (cos theta) + h * Rabs (sin theta).
Proof.
  intros Hw Hh. unfold spec_box_width, spec_turn_x.
  replace (- w / 2 * cos theta - h / 2 * sin theta)
    with (- (w / 2 * cos theta) - h / 2 * sin theta) by lra.
  replace (- w / 2 * cos theta - - h / 2 * sin theta)
    with (- (w / 2 * cos theta) + h / 2 * sin theta) by lra.
  replace (w / 2 * cos theta - - h / 2 * sin theta)
    with (w / 2 * cos theta + h / 2 * sin theta) by lra.
  rewrite spec_extent_abs, !Rabs_mult.
  rewrite (Rabs_pos_eq (w / 2)) by lra. rewrite (Rabs_pos_eq (h / 2)) by lra. lra.
Qed.

Lemma spec_extent_abs_y a b :
  spec_extent (a + b) (- a + b) (- a - b) (a - b) = 2 * (Rabs a + Rabs b).
Proof.
  unfold spec_extent, Rmax, Rmin, Rabs.
  destruct (Rcase_abs a), (Rcase_abs b); split_extent.
Qed.

Lemma spec_box_height_closed w h theta :
  0 <= w -> 0 <= h ->
  spec_box_height w h theta = w * Rabs (sin theta) + h * Rabs (cos theta).
Proof.
  intros Hw Hh. unfold spec_box_height, spec_turn_y.
  replace (- w / 2 * sin theta + h / 2 * cos theta)
    with (- (w / 2 * sin theta) + h / 2 * cos theta) by lra.
  replace (- w / 2 * sin theta + - h / 2 * cos theta)
    with (- (w / 2 * sin theta) - h / 2 * cos theta) by lra.
  replace (w / 2 * sin theta + - h / 2 * cos theta)
    with (w / 2 * sin theta - h / 2 * cos theta) by lra.
  rewrite spec_extent_abs_y, !Rabs_mult.
  rewrite (Rabs_pos_eq (w / 2)) by lra. rewrite (Rabs_pos_eq (h / 2)) by lra. lra.
Qed.

Lemma cos_approx_1 a : cos_approx a 1 = 1 - a * a / 2.
Proof. unfold cos_approx, cos_term. cbn. field. Qed.

Lemma cos_approx_2 a : cos_approx a 2 = 1 - a * a / 2 + a * a * a * a / 24.
Proof. unfold cos_approx, cos_term. cbn. field. Qed.

Lemma cos_quarter_turn theta :
  - (PI / 2) <= theta <= PI / 2 ->
  0 <= cos theta <= 1 /\ 1 - theta * theta / 2 <= cos theta
  /\ cos theta <= 1 - theta * theta / 2 + theta * theta * theta * theta / 24.
Proof.
  intros [H1 H2]. split.
  - split; [apply cos_ge_0; assumption|apply COS_bound].
  - pose proof (cos_bound theta 0) as B. cbn [Nat.mul Nat.add] in B.
    rewrite cos_approx_1, cos_approx_2 in B. apply B; lra.
Qed.

Lemma sin2_cos2_1 theta : sin theta * sin theta + cos theta * cos theta = 1.
Proof. exact (sin2_cos2 theta). Qed.

Lemma Rabs_sin_sqr theta : Rabs (sin theta) * Rabs (sin theta) = sin theta * sin theta.
Proof. unfold Rabs. destruct (Rcase_abs (sin theta)); lra. Qed.

(** Within a quarter turn, [cos + |sin|] is at least 1. *)
Lemma cos_plus_sin theta :
  - (PI / 2) <= theta <= PI / 2 -> 1 <= cos theta + Rabs (sin theta).
Proof.
  intros H. destruct (cos_quarter_turn theta H) as [[C0 C1] _].
  pose proof (sin2_cos2_1 theta) as E. pose proof (Rabs_sin_sqr theta) as A.
  pose proof (Rabs_pos (sin theta)) as S0.
  assert (S1 : Rabs (sin theta) <= 1).
  { apply Rabs_le. apply SIN_bound. }
  nra.
Qed.

(** Strictly inside a quarter turn and away from 0, it is more than 1. *)
Lemma cos_plus_sin_strict theta :
  - (PI / 2) < theta < PI / 2 -> theta <> 0 -> 1 < cos theta + Rabs (sin theta).
Proof.
  intros [H1 H2] H0.
  assert (C0 : 0 < cos theta) by (apply cos_gt_0; lra).
  pose proof (sin2_cos2_1 theta) as E. pose proof (Rabs_sin_sqr theta) as A.
  pose proof PI_RGT_0 as P0.
  assert (S0 : 0 < Rabs (sin theta)).
  { apply Rabs_pos_lt. destruct (Rtotal_order theta 0) as [L|[L|L]]; [|contradiction|].
    - apply Rlt_not_eq, sin_lt_0_var; lra.
    - apply Rgt_not_eq, Rlt_gt, sin_gt_0; lra. }
  nra.
Qed.

Lemma spec_radians_range :
  24 / 180 < spec_radians (IZR ROTATE_DEG_RANGE) <= 32 / 180.
Proof.
  unfold spec_radians, ROTATE_DEG_RANGE.
  pose proof PI2_3_2. pose proof PI_4. lra.
Qed.

End SpecRotationProofs.

(** * The claims *)

Lemma ceil_div_pos a : 0 <= a -> ceil_div a 9 = (a + 8) / 9.
Proof. intros Ha. unfold ceil_div. Z.div_mod_to_equations. lia. Qed.

Lemma plan_of_target th vh : target_h (plan_of th vh) = th.
Proof. unfold plan_of. destruct (vh <? th); reflexivity. Qed.

(** ** C1 *)

(** C1, counterexample: a probe result of 0x0 is not rejected.  The plan is
    computed, the whole video is processed and [ffmpeg] is run; the guard of
    the claim fails at (0, 0). *)
Lemma dimension_guard_counterexample :
  plan 0 0 = Ok (CanvasPlan 0 false 0 0) /\
  process_one_video (quiet_world Left (0, 0)) "videos/a.mp4" "output/a_wm.mp4"
    = ([Processing "a.mp4"; Done "a_wm.mp4"], Ok tt) /\
  ~ dimension_guard 0 0.
Proof.
  split; [reflexivity|]. split; [vm_compute; reflexivity|].
  unfold dimension_guard. intros [_ H].
  destruct (H (or_introl (Z.le_refl 0))) as [e He]. discriminate He.
Qed.

(** C1, amended: the script has no dimension check.  For every probed pair
    whose width is below [2^40] in absolute value, positive or not, the
    geometry step returns a plan, with target height the ceiling of
    [16 * width / 9], and raises nothing. *)
Theorem plan_accepts_every_dimension vw vh :
  Z.abs vw < 2 ^ 40 ->
  exists p, plan vw vh = Ok p /\ target_h p = ceil_div (vw * 16) 9 /\
            ~ raises (plan vw vh).
Proof.
  intros Hvw. rewrite (plan_in_range vw vh Hvw).
  eexists; split; [reflexivity|]. split; [apply plan_of_target|].
  intros [e He]. discriminate He.
Qed.

Lemma plan_accepts_every_dimension_witness :
  Z.abs (-3) < 2 ^ 40 /\
  exists p, plan (-3) 0 = Ok p /\ target_h p = ceil_div (-3 * 16) 9 /\
            ~ raises (plan (-3) 0).
Proof.
  split; [reflexivity|]. apply (plan_accepts_every_dimension (-3) 0). reflexivity.
Defined.

(** ** C2 *)

(** C2, counterexample: on the scenario of the specification the resized
    watermark is 270x67, not 270x68, and the overlay is at y = 893, not 892:
    [int] cuts 67.5 down. *)
Lemma scenario_counterexample :
  compose scenario 1080 1920
    <> Ok (Composition (CanvasPlan 1920 false 0 0) (270, 68) (270, 68) (54, 892)).
Proof. vm_compute. discriminate. Qed.

(** C2, amended: video 1080x1920, watermark 400x100, no jitter, no rotation,
    left corner.  The target height is 1920 with no padding, the watermark
    is resized to 270x67 and keeps that size, and the overlay is at x = 54,
    y = 893. *)
Theorem scenario_composition :
  compose scenario 1080 1920
    = Ok (Composition (CanvasPlan 1920 false 0 0) (270, 67) (270, 67) (54, 893)) /\
  dest_h (CanvasPlan 1920 false 0 0) 1920 = 1920.
Proof. split; vm_compute; reflexivity. Qed.

(** ** C3 *)

(** C3, counterexample: in the right corner the abscissa is not clamped: a
    4x4 video gets the 8 pixel wide watermark at x = -4.  In the left corner
    the product is cut, not rounded: width 1095 gives 54 where rounding
    54.75 gives 55. *)
Lemma placement_counterexample :
  (exists c, compose (quiet_world Right (4, 4)) 4 4 = Ok c /\
             c_wm c = (8, 2) /\ c_pos c = (-4, 2)) /\
  resolve Right (8, 2) 4 8 MARGIN_X MARGIN_Y = Ok (-4, 2) /\
  pos_x Left 1095 270 MARGIN_X = Ok 54 /\
  spec_left_x 1095 MARGIN_X = Ok 55.
Proof.
  split; [eexists; split; [vm_compute; reflexivity|split; reflexivity]|].
  repeat split; vm_compute; reflexivity.
Qed.

(** C3, amended: for sizes below [2^40] and margins between 0 and 1 the
    placement returns a position with [y >= 0].  In the left corner [x] is
    the product [vw * margin_x] cut to an integer: not negative, the floor
    of the exact product or, when the binary64 product is rounded up to it,
    the next integer; with the margin of the script it is [vw / 20].  In
    the right corner [x] lies between [vw - wm_w - ceil (vw * margin_x)] and
    [vw - wm_w - floor (vw * margin_x)]. *)
Theorem resolve_position c vw dh wm_w wm_h mx my :
  0 <= vw < 2 ^ 40 -> 0 <= dh < 2 ^ 40 ->
  0 <= wm_w < 2 ^ 40 -> 0 <= wm_h < 2 ^ 40 ->
  unit_float mx -> unit_float my ->
  exists x y,
    resolve c (wm_w, wm_h) vw dh mx my = Ok (x, y) /\
    0 <= y /\
    match c with
    | Left => 0 <= x /\ floor_mul vw mx <= x <= ceil_mul vw mx /\
              (mx = MARGIN_X -> x = vw / 20)
    | Right => vw - wm_w - ceil_mul vw mx <= x <= vw - wm_w - floor_mul vw mx
    end.
Proof.
  intros Hvw Hdh Hww Hwh Hmx Hmy. unfold resolve. cbn [fst snd].
  destruct (pos_y_bounds dh wm_h my Hdh Hwh Hmy) as (y & Hy & Hyb).
  destruct (unit_float_value mx Hmx) as [_ Vmx].
  destruct (floor_ceil_mul_bounds vw mx ltac:(lia) Vmx) as (H0 & H1 & H2).
  destruct c.
  - destruct (pos_x_left vw wm_w mx Hvw Hmx) as (x & Hx & Hxb).
    rewrite Hx, Hy. cbn [bind]. exists x, y. split; [reflexivity|].
    split; [lia|]. split; [lia|]. split; [exact Hxb|].
    intros ->. rewrite pos_x_left_MARGIN_X in Hx by assumption. congruence.
  - destruct (pos_x_right vw wm_w mx Hvw Hww Hmx) as (x & Hx & Hxb).
    rewrite Hx, Hy. cbn [bind]. exists x, y. split; [reflexivity|].
    split; [lia|exact Hxb].
Qed.

Lemma resolve_position_witness :
  exists x y,
    resolve Left (270, 67) 1080 1920 MARGIN_X MARGIN_Y = Ok (x, y) /\
    0 <= y /\
    0 <= x /\ floor_mul 1080 MARGIN_X <= x <= ceil_mul 1080 MARGIN_X /\
    (MARGIN_X = MARGIN_X -> x = 1080 / 20).
Proof.
  apply (resolve_position Left 1080 1920 270 67 MARGIN_X MARGIN_Y);
    first [ apply unit_float_MARGIN_X | apply unit_float_MARGIN_Y
          | split; [discriminate|reflexivity] ].
Defined.

(** ** C4 *)

(** C4, counterexample: for a width of 1083 and no jitter the script
    computes 270; rounding 270.75 as the claim words it gives 271. *)
Lemma target_width_counterexample :
  target_wm_w 1083 zero = Ok 270 /\ spec_target_width 1083 zero = Ok 271.
Proof. split; vm_compute; reflexivity. Qed.

(** C4, amended: for every width below [2^40] and every draw [u] between
    [-SCALE_VARIATION] and [SCALE_VARIATION] the target width is
    [max 8 t], where [t] is the product [vw * 0.25 * (1.0 + u)] cut to an
    integer, not rounded: the floor of the exact product [vw * v / 4], [v]
    the double [1.0 + u], or the next integer when the binary64 product is
    rounded up to it; without jitter [t = vw / 4]. *)
Theorem target_wm_w_truncates vw u :
  0 <= vw < 2 ^ 40 -> valid_binary prec emax u = true ->
  leb (SFopp SCALE_VARIATION) u = true -> leb u SCALE_VARIATION = true ->
  (exists t, target_wm_w vw u = Ok (Z.max 8 t) /\
             (vw * value (add one u)) / 2 ^ 1076 <= t
               <= ceil_div (vw * value (add one u)) (2 ^ 1076)) /\
  (u = zero -> target_wm_w vw u = Ok (Z.max 8 (vw / 4))).
Proof.
  intros Hvw Vu Hlo Hhi. split.
  - apply target_wm_w_bracket; assumption.
  - intros ->. apply target_wm_w_zero. exact Hvw.
Qed.

Lemma target_wm_w_truncates_witness :
  (exists t, target_wm_w 1083 zero = Ok (Z.max 8 t) /\
             (1083 * value (add one zero)) / 2 ^ 1076 <= t
               <= ceil_div (1083 * value (add one zero)) (2 ^ 1076)) /\
  (zero = zero -> target_wm_w 1083 zero = Ok (Z.max 8 (1083 / 4))).
Proof.
  apply (target_wm_w_truncates 1083 zero);
    first [ reflexivity | split; [discriminate|reflexivity] ].
Defined.

(** ** C5 *)

(** C5: for positive dimensions the geometry step either returns a plan or,
    only for a width of [2^40] or more, stops on [OverflowError].  In the
    plan the target height is the exact ceiling of [16 * width / 9] (for
    every width below [2^40]), and when the height reaches it there is no
    padding, [pad_top = pad_bottom = 0], and the canvas keeps the height of
    the source. *)
Theorem no_padding_when_tall vw vh :
  0 < vw -> 0 < vh ->
  match plan vw vh with
  | Ok p =>
      (vw < 2 ^ 40 -> target_h p = ceil_div (vw * 16) 9) /\
      (target_h p <= vh ->
       need_pad p = false /\ pad_top p = 0 /\ pad_bottom p = 0 /\ dest_h p vh = vh)
  | Raise e => e = OverflowError /\ 2 ^ 40 <= vw
  end.
Proof.
  intros Hvw Hvh. pose proof (plan_cases vw vh) as H.
  destruct (plan vw vh) as [p|e].
  - destruct H as (th & -> & Hth). rewrite plan_of_target. split.
    + intros Hlt. apply Hth. lia.
    + intros Hle. unfold plan_of, dest_h.
      destruct (Z.ltb_spec vh th); [lia|]. cbn. auto.
  - destruct H as [He Hout]. split; [exact He|lia].
Qed.

Lemma no_padding_when_tall_witness :
  0 < 1080 /\ 0 < 1920 /\
  match plan 1080 1920 with
  | Ok p =>
      (1080 < 2 ^ 40 -> target_h p = ceil_div (1080 * 16) 9) /\
      (target_h p <= 1920 ->
       need_pad p = false /\ pad_top p = 0 /\ pad_bottom p = 0 /\ dest_h p 1920 = 1920)
  | Raise e => e = OverflowError /\ 2 ^ 40 <= 1080
  end.
Proof.
  split; [reflexivity|]. split; [reflexivity|].
  apply (no_padding_when_tall 1080 1920); reflexivity.
Defined.

(** ** C6 *)

(** C6: for positive dimensions with the height below the target height
    (the exact ceiling of [16 * width / 9] for every width below [2^40])
    the padding adds up to the missing height exactly,
    [pad_top + pad_bottom = target_h - vh], and the two parts are equal or
    the top one is smaller by one; the canvas gets the target height. *)
Theorem padding_split vw vh :
  0 < vw -> 0 < vh ->
  match plan vw vh with
  | Ok p =>
      (vw < 2 ^ 40 -> target_h p = ceil_div (vw * 16) 9) /\
      (vh < target_h p ->
       need_pad p = true /\
       pad_top p + pad_bottom p = target_h p - vh /\
       (pad_top p = pad_bottom p \/ pad_top p = pad_bottom p - 1) /\
       dest_h p vh = target_h p)
  | Raise e => e = OverflowError /\ 2 ^ 40 <= vw
  end.
Proof.
  intros Hvw Hvh. pose proof (plan_cases vw vh) as H.
  destruct (plan vw vh) as [p|e].
  - destruct H as (th & -> & Hth). rewrite plan_of_target. split.
    + intros Hlt. apply Hth. lia.
    + intros Hlt. unfold plan_of, dest_h.
      destruct (Z.ltb_spec vh th); [|lia]. cbn.
      split; [reflexivity|]. split; [lia|]. split; [|reflexivity].
      Z.div_mod_to_equations. lia.
  - destruct H as [He Hout]. split; [exact He|lia].
Qed.

Lemma padding_split_witness :
  0 < 1080 /\ 0 < 1350 /\
  match plan 1080 1350 with
  | Ok p =>
      (1080 < 2 ^ 40 -> target_h p = ceil_div (1080 * 16) 9) /\
      (1350 < target_h p ->
       need_pad p = true /\
       pad_top p + pad_bottom p = target_h p - 1350 /\
       (pad_top p = pad_bottom p \/ pad_top p = pad_bottom p - 1) /\
       dest_h p 1350 = target_h p)
  | Raise e => e = OverflowError /\ 2 ^ 40 <= 1080
  end.
Proof.
  split; [reflexivity|]. split; [reflexivity|].
  apply (padding_split 1080 1350); reflexivity.
Defined.

(** ** C7 *)

Lemma Forall2_map_r {A B : Type} (P : A -> B -> Prop) (f : A -> B) l :
  (forall a, In a l -> P a (f a)) -> Forall2 P l (map f l).
Proof.
  induction l as [|a l IH]; intros H; cbn [map]; constructor.
  - apply H. left. reflexivity.
  - apply IH. intros a' Ha'. apply H. right. exact Ha'.
Qed.

Lemma Forall2_same {A : Type} (P : A -> A -> Prop) l :
  (forall a, P a a) -> Forall2 P l l.
Proof. intros H. induction l; constructor; auto. Qed.

(** C7: with an opacity of 1.0 the alpha step hands the image back
    untouched; with an opacity strictly between 0 and 1 every pixel keeps
    its colour bands and gets an alpha value between 0 and its old one (the
    product is cut to an integer); and whatever the opacity, a result of the
    step has the colour bands of its argument. *)
Theorem scale_alpha_dims :
  (forall pil, scale_alpha one pil = Ok pil) /\
  (forall o pil,
     valid_binary prec emax o = true -> ltb zero o = true -> ltb o one = true ->
     Forall (fun px => 0 <= alpha px <= 255) (pixels pil) ->
     exists pil',
       scale_alpha o pil = Ok pil' /\ size pil' = size pil /\
       Forall2 (fun px px' => same_rgb px px' /\ 0 <= alpha px' <= alpha px)
               (pixels pil) (pixels pil')) /\
  (forall o pil pil',
     scale_alpha o pil = Ok pil' -> Forall2 same_rgb (pixels pil) (pixels pil')).
Proof.
  split; [reflexivity|]. split.
  - intros o pil Vo H0 H1 Hpx. unfold scale_alpha. rewrite H1.
    assert (Ho : unit_float o) by (repeat split; auto using ltb_leb).
    destruct (point_table_dims o Ho) as (table & Ht & Hlook).
    rewrite Ht. cbn [bind]. eexists; split; [reflexivity|]. cbn [size pixels].
    split; [reflexivity|].
    apply Forall2_map_r. intros px Hin. cbn [red green blue alpha].
    split; [repeat split|]. apply Hlook.
    rewrite Forall_forall in Hpx. apply Hpx, Hin.
  - intros o pil pil'. unfold scale_alpha. destruct (ltb o one).
    + destruct (point_table _) as [table|e]; cbn [bind]; [|discriminate].
      intros H. inversion H. cbn [pixels].
      apply Forall2_map_r. intros px _. repeat split.
    + intros H. inversion H. subst. apply Forall2_same. intros px. repeat split.
Qed.

Lemma scale_alpha_dims_witness :
  exists pil',
    scale_alpha WM_OPACITY (Image (2, 1) [Pixel 10 20 30 255; Pixel 1 2 3 9]) = Ok pil' /\
    size pil' = (2, 1) /\
    Forall2 (fun px px' => same_rgb px px' /\ 0 <= alpha px' <= alpha px)
            [Pixel 10 20 30 255; Pixel 1 2 3 9] (pixels pil').
Proof.
  apply (proj1 (proj2 scale_alpha_dims) WM_OPACITY
           (Image (2, 1) [Pixel 10 20 30 255; Pixel 1 2 3 9]));
    try reflexivity.
  repeat constructor; discriminate.
Defined.

(** ** C8 *)

Section SpecRotationClaim.
Import Reals Lra.
Local Open Scope R_scope.

(** C8, against the claim: a watermark of 400 x 10 turned by 2/15 of a
    radian (7.64 degrees, within the [ROTATE_DEG_RANGE] of the script) has a
    bounding box less than 398 wide.  Wherever the box lies, from [left] to
    [right], it meets fewer than 400 columns of whole pixels, also when both
    of its edges are moved outward to whole numbers ([up x] is the first
    integer above [x]): the result is narrower than the image was before the
    rotation. *)
Lemma spec_box_narrower :
  - spec_radians (IZR ROTATE_DEG_RANGE) <= 2 / 15 <= spec_radians (IZR ROTATE_DEG_RANGE) /\
  spec_box_width 400 10 (2 / 15) < 398 /\
  (forall left right : R,
     right - left = spec_box_width 400 10 (2 / 15) ->
     (up right - (up left - 1) < 400)%Z).
Proof.
  pose proof spec_radians_range as R8. pose proof PI2_3_2 as P3.
  assert (Q : - (PI / 2) <= 2 / 15 <= PI / 2) by lra.
  destruct (cos_quarter_turn (2 / 15) Q) as ([C0 C1] & _ & C2).
  assert (S0 : 0 <= sin (2 / 15)) by (apply sin_ge_0; lra).
  assert (S1 : sin (2 / 15) < 2 / 15) by (apply sin_lt_x; lra).
  assert (B : spec_box_width 400 10 (2 / 15) < 398).
  { rewrite spec_box_width_closed by lra.
    rewrite (Rabs_pos_eq (cos (2 / 15))) by exact C0.
    rewrite (Rabs_pos_eq (sin (2 / 15))) by exact S0. lra. }
  split; [lra|]. split; [exact B|].
  intros left right E.
  destruct (archimed left) as [L _]. destruct (archimed right) as [_ U].
  apply lt_IZR. rewrite !minus_IZR. lra.
Qed.

(** C8, amended: for a watermark of positive size and an angle within a
    quarter turn, each side of the bounding box is at least the cosine of
    the angle times the side of the image (more than 98 % of it for the
    angles of the script); the side of the box along the shorter side of the
    image is not smaller than that side; the box is at least as wide as the
    image exactly when [w * (1 - cos) <= h * |sin|], and at least as high
    exactly when [h * (1 - cos) <= w * |sin|]; the side along the shorter
    side of the image is larger than it for every angle other than 0
    strictly within the quarter turn; at angle 0 the box is the image. *)
Theorem spec_box_bounds w h theta :
  0 < w -> 0 < h -> - (PI / 2) <= theta <= PI / 2 ->
  cos theta * w <= spec_box_width w h theta /\
  cos theta * h <= spec_box_height w h theta /\
  (- spec_radians (IZR ROTATE_DEG_RANGE) <= theta <= spec_radians (IZR ROTATE_DEG_RANGE) ->
   98 / 100 * w <= spec_box_width w h theta /\
   98 / 100 * h <= spec_box_height w h theta) /\
  (w <= h -> w <= spec_box_width w h theta) /\
  (h <= w -> h <= spec_box_height w h theta) /\
  (w <= spec_box_width w h theta <-> w * (1 - cos theta) <= h * Rabs (sin theta)) /\
  (h <= spec_box_height w h theta <-> h * (1 - cos theta) <= w * Rabs (sin theta)) /\
  (theta <> 0 -> - (PI / 2) < theta < PI / 2 ->
   (w <= h -> w < spec_box_width w h theta) /\
   (h <= w -> h < spec_box_height w h theta)) /\
  (theta = 0 -> spec_box_width w h theta = w /\ spec_box_height w h theta = h).
Proof.
  intros Hw Hh Hq.
  destruct (cos_quarter_turn theta Hq) as ([C0 C1] & C2 & _).
  pose proof (cos_plus_sin theta Hq) as CS.
  pose proof (Rabs_pos (sin theta)) as S0.
  rewrite spec_box_width_closed, spec_box_height_closed by lra.
  rewrite (Rabs_pos_eq (cos theta)) by exact C0.
  repeat split.
  - nra.
  - nra.
  - destruct H as [H1 H2]. pose proof spec_radians_range as R8.
    assert (theta * theta <= 32 / 180 * (32 / 180)) by nra.
    assert (98 / 100 <= cos theta) by lra. nra.
  - destruct H as [H1 H2]. pose proof spec_radians_range as R8.
    assert (theta * theta <= 32 / 180 * (32 / 180)) by nra.
    assert (98 / 100 <= cos theta) by lra. nra.
  - intros Hwh. nra.
  - intros Hwh. nra.
  - intros H. lra.
  - intros H. lra.
  - intros H. lra.
  - intros H. lra.
  - intros Hwh. pose proof (cos_plus_sin_strict theta H0 H) as CS'. nra.
  - intros Hwh. pose proof (cos_plus_sin_strict theta H0 H) as CS'. nra.
  - subst theta. rewrite cos_0, sin_0, Rabs_R0. lra.
  - subst theta. rewrite cos_0, sin_0, Rabs_R0. lra.
Qed.

Lemma spec_box_bounds_witness :
  cos (2 / 15) * 400 <= spec_box_width 400 10 (2 / 15) /\
  cos (2 / 15) * 10 <= spec_box_height 400 10 (2 / 15) /\
  (- spec_radians (IZR ROTATE_DEG_RANGE) <= 2 / 15 <= spec_radians (IZR ROTATE_DEG_RANGE) ->
   98 / 100 * 400 <= spec_box_width 400 10 (2 / 15) /\
   98 / 100 * 10 <= spec_box_height 400 10 (2 / 15)) /\
  (400 <= 10 -> 400 <= spec_box_width 400 10 (2 / 15)) /\
  (10 <= 400 -> 10 <= spec_box_height 400 10 (2 / 15)) /\
  (400 <= spec_box_width 400 10 (2 / 15)
   <-> 400 * (1 - cos (2 / 15)) <= 10 * Rabs (sin (2 / 15))) /\
  (10 <= spec_box_height 400 10 (2 / 15)
   <-> 10 * (1 - cos (2 / 15)) <= 400 * Rabs (sin (2 / 15))) /\
  (2 / 15 <> 0 -> - (PI / 2) < 2 / 15 < PI / 2 ->
   (400 <= 10 -> 400 < spec_box_width 400 10 (2 / 15)) /\
   (10 <= 400 -> 10 < spec_box_height 400 10 (2 / 15))) /\
  (2 / 15 = 0 -> spec_box_width 400 10 (2 / 15) = 400 /\ spec_box_height 400 10 (2 / 15) = 10).
Proof.
  apply (spec_box_bounds 400 10 (2 / 15)).
  - lra.
  - lra.
  - pose proof PI2_3_2. lra.
Defined.

End SpecRotationClaim.

(** ** C9 *)



(** ** C10 *)

(** C10: a file name is accepted exactly when its extension, made
    lowercase by [str.lower], is in the fixed list, whatever the name; the
    extensions for which this holds are the eight of the list with each
    letter small or capital, and for [k] also the Kelvin sign; names that
    differ only in the case of the letters A to Z are treated alike; so
    [clip.MP4] and [holiday.Mov] are accepted and queued. *)
Theorem is_video_file_case_insensitive :
  (forall fn, is_video_file fn = true
              <-> In (lower (snd (splitext fn))) video_extensions) /\
  (forall ext, In (lower ext) video_extensions
               <-> In ext (flat_map case_variants video_extensions)) /\
  (forall fn fn', ascii_lower fn = ascii_lower fn' ->
                  is_video_file fn = is_video_file fn') /\
  is_video_file "clip.MP4" = true /\
  is_video_file "holiday.Mov" = true /\
  is_video_file (of_bytes [97; 46; 109; 226; 132; 170; 118]) = true /\
  filter is_video_file (sorted ["holiday.Mov"; "notes.txt"; "clip.MP4"]%string)
    = ["clip.MP4"; "holiday.Mov"]%string.
Proof.
  split; [exact is_video_file_iff|].
  split; [exact lower_video_extensions|].
  split; [exact is_video_file_ascii_lower|].
  repeat split; vm_compute; reflexivity.
Qed.

Lemma is_video_file_case_insensitive_witness :
  is_video_file "CLIP.mp4" = is_video_file "clip.MP4".
Proof.
  apply (proj1 (proj2 (proj2 is_video_file_case_insensitive)) "CLIP.mp4" "clip.MP4")%string.
  reflexivity.
Defined.

(** * Further properties

    What follows is read off the code alone: properties of the functions of
    the script that the claims above leave aside. *)

(** ** Rounding down

    A product that lies less than half a unit in the last place above a
    float is rounded to that float. *)

Lemma round_bit_1 a : round_bit 1 a (shr_1 a).
Proof.
  destruct a as [m r s]. unfold round_bit. cbn [shr_m]. intros Hm.
  change (2 ^ (1 - 1)) with 1. rewrite Z.div_1_r.
  destruct m as [|[p|p|]|p]; try lia; reflexivity.
Qed.

Lemma round_bit_trans n k a b c :
  0 <= n -> 1 <= k -> shifted n a b -> round_bit k b c -> round_bit (n + k) a c.
Proof.
  unfold round_bit. intros Hn Hk Hab Hbc Ha.
  destruct (Hab Ha) as [Hb1 _].
  assert (Hb : 0 <= shr_m b).
  { rewrite Hb1. apply Z.div_pos; [exact Ha|now apply pow2_gt0]. }
  rewrite (Hbc Hb), Hb1.
  pose proof (pow2_gt0 n Hn). pose proof (pow2_gt0 (k - 1) ltac:(lia)).
  rewrite Z.div_div by lia. rewrite <- pow2_split by lia.
  replace (n + (k - 1)) with (n + k - 1) by lia. reflexivity.
Qed.

Lemma round_bit_iter p a : round_bit (Zpos p) a (iter_pos shr_1 p a).
Proof.
  revert a. induction p as [p IH|p IH|]; intros a; cbn [iter_pos].
  - replace (Zpos p~1) with ((1 + Zpos p) + Zpos p) by lia.
    apply round_bit_trans with (b := iter_pos shr_1 p (shr_1 a)); try lia; [|apply IH].
    apply shifted_trans with (b := shr_1 a); try lia; [apply shifted_1|apply shifted_iter].
  - replace (Zpos p~0) with (Zpos p + Zpos p) by lia.
    apply round_bit_trans with (b := iter_pos shr_1 p a); try lia; [|apply IH].
    apply shifted_iter.
  - apply round_bit_1.
Qed.

Lemma round_nearest_even_down mrs :
  shr_r mrs = false ->
  round_nearest_even (shr_m mrs) (loc_of_shr_record mrs) = shr_m mrs.
Proof. destruct mrs as [m [] []]; cbn; congruence. Qed.

(** The first step of [binary_round_aux] when the round bit is clear. *)
Lemma shr_fexp_down m e :
  0 <= m ->
  let n := dropped m e in
  (n = 0 \/ Z.odd (m / 2 ^ (n - 1)) = false) ->
  let '(mrs, e') := shr_fexp prec emax m e loc_Exact in
  e' = e + n /\
  round_nearest_even (shr_m mrs) (loc_of_shr_record mrs) = m / 2 ^ n.
Proof.
  intros Hm n Hbit.
  pose proof (shr_fexp_spec m e loc_Exact Hm) as (He & Hq & _). fold n in He, Hq.
  assert (Hr : n = 0 \/ shr_r (fst (shr_fexp prec emax m e loc_Exact)) = false).
  { destruct Hbit as [H0|Hodd]; [left; exact H0|].
    unfold shr_fexp, shr. unfold n, dropped in *.
    destruct (fexp prec emax (Zdigits2 m + e) - e) as [|p|p] eqn:E; cbn [fst].
    - left. lia.
    - right. rewrite Z.max_r in Hodd by lia.
      pose proof (round_bit_iter p (shr_record_of_loc m loc_Exact)) as H.
      unfold round_bit in H.
      change (shr_m (shr_record_of_loc m loc_Exact)) with m in H.
      rewrite (H Hm). exact Hodd.
    - left. lia. }
  destruct (shr_fexp prec emax m e loc_Exact) as [mrs e'] eqn:E. cbn [fst snd] in *.
  split; [exact He|]. rewrite <- Hq.
  destruct Hr as [H0|Hr]; [|apply round_nearest_even_down, Hr].
  unfold shr_fexp, shr in E. unfold n, dropped in H0.
  destruct (fexp prec emax (Zdigits2 m + e) - e) as [|p|p] eqn:E'; try lia;
    injection E as <- <-; reflexivity.
Qed.

Lemma binary_round_aux_down sx mx ex :
  0 <= mx ->
  let n := dropped mx ex in
  (n = 0 \/ Z.odd (mx / 2 ^ (n - 1)) = false) ->
  -1074 <= ex + n ->
  mx / 2 ^ n < 2 ^ 53 ->
  binary_round_aux prec emax sx mx ex loc_Exact = pack sx (mx / 2 ^ n) (ex + n).
Proof.
  intros Hmx n Hbit Hlo Hlt.
  pose proof (shr_fexp_down mx ex Hmx Hbit) as H1. fold n in H1.
  unfold binary_round_aux.
  destruct (shr_fexp prec emax mx ex loc_Exact) as [mrs1 e1]. destruct H1 as [-> ->].
  pose proof (dropped_nonneg mx ex) as Hn. fold n in Hn.
  assert (Hq : 0 <= mx / 2 ^ n) by (apply Z.div_pos; [lia|now apply pow2_gt0]).
  pose proof (shr_fexp_spec (mx / 2 ^ n) (ex + n) loc_Exact Hq) as (He3 & Hm3 & _).
  rewrite (dropped_small _ _ Hq Hlt Hlo) in He3, Hm3.
  destruct (shr_fexp prec emax (mx / 2 ^ n) (ex + n) loc_Exact) as [mrs3 e3].
  cbn [fst snd] in *. change (2 ^ 0) with 1 in Hm3. rewrite Z.div_1_r in Hm3.
  rewrite Hm3, He3, Z.add_0_r. reflexivity.
Qed.

Lemma mul_down x y s1 s2 A a :
  finite_at s1 x -> finite_at s2 y -> 0 <= fval s1 x -> 0 <= fval s2 y ->
  2 ^ 52 <= A < 2 ^ 53 -> s1 + s2 <= a -> -1074 <= a <= 918 ->
  A * 2 ^ (a - (s1 + s2)) <= fval s1 x * fval s2 y ->
  2 * (fval s1 x * fval s2 y - A * 2 ^ (a - (s1 + s2))) < 2 ^ (a - (s1 + s2)) ->
  finite_at (s1 + s2) (mul x y) /\
  fval (s1 + s2) (mul x y) = A * 2 ^ (a - (s1 + s2)).
Proof.
  intros Fx Fy Hx Hy HA Hsa Ha HL Hhalf.
  set (s := s1 + s2) in *.
  pose proof (pow2_gt0 (a - s) ltac:(lia)) as Hpa.
  assert (HLpos : 0 < A * 2 ^ (a - s)).
  { pose proof (pow2_gt0 52 ltac:(lia)). nia. }
  destruct x as [sx|sx| |sx mx ex]; cbn [finite_at fval] in Fx, Hx; try contradiction;
    [cbn [fval] in HL; lia|].
  destruct y as [sy|sy| |sy my ey]; cbn [finite_at fval] in Fy, Hy; try contradiction;
    [cbn [fval] in HL; lia|].
  pose proof (fval_nonneg_sign s1 sx mx ex Fx Hx) as ->.
  pose proof (fval_nonneg_sign s2 sy my ey Fy Hy) as ->.
  cbn [fval cond_Zopp] in HL, Hhalf.
  set (M := Zpos (mx * my)). set (e := ex + ey).
  assert (He : s <= e) by (unfold s, e; lia).
  pose proof (pow2_gt0 (e - s) ltac:(lia)) as Hpe.
  assert (HP : Zpos mx * 2 ^ (ex - s1) * (Zpos my * 2 ^ (ey - s2)) = M * 2 ^ (e - s)).
  { unfold M, e, s. replace (ex + ey - (s1 + s2)) with ((ex - s1) + (ey - s2)) by lia.
    rewrite pow2_split by lia. rewrite Pos2Z.inj_mul. ring. }
  rewrite HP in HL, Hhalf.
  assert (HM : 0 < M) by (unfold M; lia).
  change (mul (S754_finite false mx ex) (S754_finite false my ey))
    with (binary_round_aux prec emax false M e loc_Exact).
  destruct (Z_le_gt_dec a e) as [Hae|Hae].
  - (* the product is on the grid of the float: it is the float *)
    assert (Eq : M * 2 ^ (e - s) = A * 2 ^ (a - s)).
    { replace (e - s) with ((e - a) + (a - s)) in * by lia.
      rewrite pow2_split in * by lia.
      set (G := 2 ^ (a - s)) in *. pose proof (pow2_gt0 (e - a) ltac:(lia)).
      assert (2 * (M * 2 ^ (e - a) - A) < 1) by nia. nia. }
    destruct (round_between M e loc_Exact (A * 2 ^ (a - s)) (A * 2 ^ (a - s)) s)
      as [Hf Hv]; try lia.
    + apply grid_dyadic; lia.
    + apply grid_dyadic; lia.
    + intros H; contradiction H; reflexivity.
    + left; reflexivity.
    + split; [exact Hf|lia].
  - (* the bits that are dropped make less than a half *)
    set (n := a - e). assert (Hn : 0 < n) by (unfold n; lia).
    pose proof (pow2_gt0 n ltac:(lia)) as Hpn.
    assert (Eas : 2 ^ (a - s) = 2 ^ n * 2 ^ (e - s)).
    { rewrite <- pow2_split by lia. f_equal. unfold n. lia. }
    rewrite Eas in HL, Hhalf.
    assert (HM1 : A * 2 ^ n <= M) by nia.
    assert (HM2 : 2 * (M - A * 2 ^ n) < 2 ^ n) by nia.
    assert (Hdig : Zdigits2 M = 53 + n).
    { apply Z.le_antisymm.
      - apply Zdigits2_le; [lia|lia|]. rewrite pow2_split by lia. nia.
      - replace (53 + n) with ((52 + n) + 1) by lia.
        apply Zdigits2_ge; [lia|]. apply Z.le_trans with (A * 2 ^ n); [|exact HM1].
        rewrite pow2_split by lia. nia. }
    assert (Hdrop : dropped M e = n).
    { unfold dropped. rewrite fexp_eq, Hdig. unfold n. lia. }
    assert (Hquot : M / 2 ^ n = A).
    { symmetry. apply Z.div_unique with (r := M - A * 2 ^ n); [left|]; lia. }
    assert (Hbit : Z.odd (M / 2 ^ (n - 1)) = false).
    { assert (E2 : 2 ^ n = 2 * 2 ^ (n - 1)).
      { rewrite <- Z.pow_succ_r by lia. f_equal. lia. }
      pose proof (pow2_gt0 (n - 1) ltac:(lia)) as Hpn1.
      assert (E3 : M / 2 ^ (n - 1) = 2 * A).
      { symmetry. apply Z.div_unique with (r := M - A * 2 ^ n); [left|]; lia. }
      rewrite E3, Z.odd_mul. reflexivity. }
    pose proof (binary_round_aux_down false M e ltac:(lia)) as Hd.
    rewrite Hdrop in Hd. cbv zeta in Hd.
    rewrite Hd; [|right; exact Hbit|unfold n; lia|rewrite Hquot; lia].
    rewrite Hquot. replace (e + n) with a by (unfold n; lia).
    unfold pack. destruct A as [|pA|pA]; try lia.
    replace (a <=? 971) with true by (symmetry; apply Z.leb_le; lia).
    cbn [finite_at fval cond_Zopp]. split; [lia|reflexivity].
Qed.

(** ** Two neighbours on the grid

    A value in the normal range lies between two numbers of the grid that
    are one unit in the last place apart; hence the relative error of one
    rounding. *)

Lemma grid_bracket s V :
  s <= -1074 -> 2 ^ (52 + (-1074 - s)) <= V < 2 ^ (970 - s) ->
  exists L U, grid s L /\ grid s U /\ L <= V < U /\ (U - L) * 2 ^ 52 <= L.
Proof.
  intros Hs [Hlo Hhi].
  assert (Hk : 0 <= -1074 - s) by lia.
  assert (HV : 0 < V).
  { pose proof (pow2_gt0 (52 + (-1074 - s)) ltac:(lia)). lia. }
  pose proof (Zdigits2_bounds V HV) as [Dlo Dhi].
  pose proof (Zdigits2_ge V _ HV Hlo) as Hd1.
  pose proof (Zdigits2_le V (970 - s) HV ltac:(lia) Hhi) as Hd2.
  set (d := Zdigits2 V) in *.
  set (n := d - 53).
  assert (Hn : 0 <= n) by (unfold n; lia).
  pose proof (pow2_gt0 n Hn) as Hpn.
  set (A := V / 2 ^ n).
  assert (HA : 2 ^ 52 <= A < 2 ^ 53).
  { unfold A. split.
    - apply Z.div_le_lower_bound; [lia|].
      rewrite Z.mul_comm, <- pow2_split by lia.
      replace (52 + n) with (d - 1) by (unfold n; lia). exact Dlo.
    - apply Z.div_lt_upper_bound; [lia|].
      rewrite <- pow2_split by lia.
      replace (n + 53) with d by (unfold n; lia). exact Dhi. }
  pose proof (Z.mul_div_le V (2 ^ n) Hpn) as H1.
  pose proof (Z.mul_succ_div_gt V (2 ^ n) Hpn) as H2. fold A in H1, H2.
  exists (A * 2 ^ n), ((A + 1) * 2 ^ n).
  assert (Ea : n = (n + s) - s) by lia.
  split; [|split; [|split]].
  - exists A, (n + s). rewrite <- Ea. repeat split; first [lia | unfold n; lia].
  - destruct (Z.eq_dec (A + 1) (2 ^ 53)) as [E|E].
    + exists (2 ^ 52), (n + 1 + s).
      replace (n + 1 + s - s) with (n + 1) by lia.
      rewrite E, (pow2_split n 1) by lia.
      repeat split; first [lia | unfold n; lia].
    + exists (A + 1), (n + s). rewrite <- Ea. repeat split; first [lia | unfold n; lia].
  - lia.
  - replace ((A + 1) * 2 ^ n - A * 2 ^ n) with (2 ^ n) by ring. nia.
Qed.

Lemma truediv_rel a b :
  0 < a < 2 ^ 50 -> 0 < b < 2 ^ 50 ->
  exists f, truediv a b = Ok f /\ finite_at scale f /\
            2 ^ 52 <= value f <= 2 ^ 1126 /\
            a * 2 ^ (- scale) * 2 ^ 52 < value f * b * (2 ^ 52 + 1) /\
            value f * b * 2 ^ 52 <= a * 2 ^ (- scale) * (2 ^ 52 + 1).
Proof.
  intros Ha Hb.
  set (X := 2 ^ (- scale)).
  assert (HX : X = 2 ^ 1024 * 2 ^ 50) by reflexivity.
  assert (H1024 : 0 < 2 ^ 1024) by (apply pow2_gt0; lia).
  set (V := (a * X) / b).
  pose proof (Z.mul_div_le (a * X) b ltac:(lia)) as V1.
  pose proof (Z.mul_succ_div_gt (a * X) b ltac:(lia)) as V2. fold V in V1, V2.
  assert (HVlo : 2 ^ 1024 <= V).
  { apply Z.div_le_lower_bound; [lia|]. rewrite HX. nia. }
  assert (HVhi : V < 2 ^ 1125).
  { apply Z.div_lt_upper_bound; [lia|].
    change (2 ^ 1125) with (2 ^ 1 * 2 ^ 50 * (2 ^ 1024 * 2 ^ 50)). rewrite HX.
    change (2 ^ 1) with 2. nia. }
  destruct (grid_bracket scale V) as (L & U & GL & GU & [HL HU] & Hulp).
  { unfold scale. lia. }
  { unfold scale. split.
    - apply Z.le_trans with (2 ^ 1024); [|exact HVlo]. apply Z.pow_le_mono_r; lia.
    - apply Z.lt_le_trans with (2 ^ 1125); [exact HVhi|]. apply Z.pow_le_mono_r; lia. }
  destruct (truediv_between a b scale L U) as (f & Hf & Ff & Vf);
    [lia|lia|unfold scale; lia|exact GL|exact GU| |].
  { fold X. split; nia. }
  exists f. split; [exact Hf|]. split; [exact Ff|].
  unfold value. set (R := fval scale f) in *. fold X.
  set (E := 2 ^ 52) in *. assert (HE : 0 < E) by (apply pow2_gt0; lia).
  pose proof (grid_nonneg _ _ GL) as HL0.
  assert (HL52 : E <= L).
  { destruct (Z_le_gt_dec E L); [assumption|exfalso].
    assert (U - L <= 0) by nia. lia. }
  split; [split; [lia|]|split].
  - assert (U <= 2 * V) by nia.
    change (2 ^ 1126) with (2 * 2 ^ 1125). lia.
  - apply Z.lt_le_trans with (U * b * E); [nia|].
    apply Z.le_trans with (L * b * (E + 1)); [nia|]. nia.
  - apply Z.le_trans with (U * b * E); [nia|].
    apply Z.le_trans with (L * b * (E + 1)); [nia|]. nia.
Qed.

Lemma mul_rel x y :
  finite_at scale x -> finite_at scale y -> 0 <= value x -> 0 <= value y ->
  2 ^ 1126 <= value x * value y < 2 ^ 3000 ->
  finite_at (scale + scale) (mul x y) /\
  value x * value y * 2 ^ 52 < fval (scale + scale) (mul x y) * (2 ^ 52 + 1) /\
  fval (scale + scale) (mul x y) * 2 ^ 52 <= value x * value y * (2 ^ 52 + 1).
Proof.
  intros Fx Fy Hx Hy HP. unfold value in *.
  set (P := fval scale x * fval scale y) in *.
  destruct (grid_bracket (scale + scale) P) as (L & U & GL & GU & [HL HU] & Hulp).
  { unfold scale. lia. }
  { unfold scale. change (52 + (-1074 - (-1074 + -1074))) with 1126.
    change (970 - (-1074 + -1074)) with 3118. split; [lia|].
    apply Z.lt_le_trans with (2 ^ 3000); [lia|]. apply Z.pow_le_mono_r; lia. }
  destruct (mul_between x y scale scale L U) as [Fm Vm]; try assumption.
  { fold P. lia. }
  split; [exact Fm|].
  set (Xv := fval (scale + scale) (mul x y)) in *.
  set (E := 2 ^ 52) in *. assert (HE : 0 < E) by (apply pow2_gt0; lia).
  pose proof (grid_nonneg _ _ GL) as HL0.
  split.
  - apply Z.lt_le_trans with (U * E); [nia|].
    apply Z.le_trans with (L * (E + 1)); [nia|]. nia.
  - apply Z.le_trans with (U * E); [nia|].
    apply Z.le_trans with (L * (E + 1)); [nia|]. nia.
Qed.

(** ** The canvas *)

(** X1 (lines 68-77 and 119): for every width below [2^40] in absolute value,
    bars are added exactly when the video is wider than 9:16
    ([9 * vh < 16 * vw]); the canvas is never lower than the source and
    never lower than 16/9 of the width; when bars are added, it is the
    lowest canvas of that kind, and when none is added it has the height of
    the source. *)
Theorem canvas_covers_9_16 vw vh :
  Z.abs vw < 2 ^ 40 ->
  exists p, plan vw vh = Ok p /\
            (need_pad p = true <-> 9 * vh < 16 * vw) /\
            vh <= dest_h p vh /\
            16 * vw <= 9 * dest_h p vh /\
            (need_pad p = true -> 9 * dest_h p vh < 16 * vw + 9) /\
            (need_pad p = false -> dest_h p vh = vh).
Proof.
  intros Hvw. rewrite (plan_in_range vw vh Hvw). eexists; split; [reflexivity|].
  set (th := - (- (vw * 16) / 9)).
  assert (Hth : 16 * vw <= 9 * th < 16 * vw + 9).
  { unfold th. Z.div_mod_to_equations. lia. }
  unfold plan_of, dest_h. destruct (Z.ltb_spec vh th); cbn [need_pad target_h].
  - repeat split; try lia; discriminate.
  - repeat split; try lia; discriminate.
Qed.

Lemma canvas_covers_9_16_witness :
  Z.abs 1080 < 2 ^ 40 /\
  exists p, plan 1080 1350 = Ok p /\
            (need_pad p = true <-> 9 * 1350 < 16 * 1080) /\
            1350 <= dest_h p 1350 /\
            16 * 1080 <= 9 * dest_h p 1350 /\
            (need_pad p = true -> 9 * dest_h p 1350 < 16 * 1080 + 9) /\
            (need_pad p = false -> dest_h p 1350 = 1350).
Proof.
  split; [lia|]. apply (canvas_covers_9_16 1080 1350). lia.
Defined.

(** ** Inside the canvas, and the margins of the script *)

(** X2 (lines 113-122): for sizes below [2^40] and any two margins between 0
    and 1, the right corner never puts the watermark across the right edge
    of the video, and a watermark that fits beside the horizontal margin
    and is not higher than the canvas lies inside the canvas. *)
Theorem overlay_inside_canvas c vw dh wm_w wm_h mx my :
  0 <= vw < 2 ^ 40 -> 0 <= dh < 2 ^ 40 ->
  0 <= wm_w < 2 ^ 40 -> 0 <= wm_h < 2 ^ 40 ->
  unit_float mx -> unit_float my ->
  exists x y,
    resolve c (wm_w, wm_h) vw dh mx my = Ok (x, y) /\
    (c = Right -> x + wm_w <= vw) /\
    (wm_w + ceil_mul vw mx <= vw -> wm_h <= dh ->
     0 <= x /\ x + wm_w <= vw /\ 0 <= y /\ y + wm_h <= dh).
Proof.
  intros Hvw Hdh Hww Hwh Hmx Hmy. unfold resolve. cbn [fst snd].
  destruct (pos_y_bounds dh wm_h my Hdh Hwh Hmy) as (y & Hy & Hyb).
  destruct (unit_float_value mx Hmx) as [_ Vmx].
  destruct (unit_float_value my Hmy) as [_ Vmy].
  destruct (floor_ceil_mul_bounds vw mx ltac:(lia) Vmx) as (H0 & H1 & H2).
  destruct (floor_ceil_mul_bounds dh my ltac:(lia) Vmy) as (G0 & G1 & G2).
  destruct c.
  - destruct (pos_x_left vw wm_w mx Hvw Hmx) as (x & Hx & Hxb).
    rewrite Hx, Hy. cbn [bind]. exists x, y. split; [reflexivity|].
    split; [discriminate|]. lia.
  - destruct (pos_x_right vw wm_w mx Hvw Hww Hmx) as (x & Hx & Hxb).
    rewrite Hx, Hy. cbn [bind]. exists x, y. split; [reflexivity|].
    split; [lia|]. lia.
Qed.

Lemma overlay_inside_canvas_witness :
  exists x y,
    resolve Right (270, 67) 1080 1920 MARGIN_X MARGIN_Y = Ok (x, y) /\
    (Right = Right -> x + 270 <= 1080) /\
    (270 + ceil_mul 1080 MARGIN_X <= 1080 -> 67 <= 1920 ->
     0 <= x /\ x + 270 <= 1080 /\ 0 <= y /\ y + 67 <= 1920).
Proof.
  apply (overlay_inside_canvas Right 1080 1920 270 67 MARGIN_X MARGIN_Y);
    first [ apply unit_float_MARGIN_X | apply unit_float_MARGIN_Y | lia ].
Defined.

(** [dest_h * MARGIN_Y] is exact: half of the height. *)
Lemma imul_half dh :
  0 <= dh < 2 ^ 40 ->
  exists m, imul dh MARGIN_Y = Ok m /\ finite_at (scale + scale) m /\
            fval (scale + scale) m = dh * 2 ^ (-1 - (scale + scale)).
Proof.
  intros Hdh. unfold imul.
  destruct (of_int_val dh scale) as (fx & Hfx & Ffx & Vfx); [lia|unfold scale; lia|].
  rewrite Hfx. cbn [bind]. eexists; split; [reflexivity|].
  assert (Hg : grid (scale + scale) (dh * 2 ^ (-1 - (scale + scale)))).
  { apply grid_dyadic; unfold scale; lia. }
  destruct (mul_between fx MARGIN_Y scale scale
              (dh * 2 ^ (-1 - (scale + scale))) (dh * 2 ^ (-1 - (scale + scale))))
    as [Hfin Hv]; try assumption.
  - cbn. unfold scale. lia.
  - rewrite Vfx. pose proof (pow2_gt0 (- scale) ltac:(unfold scale; lia)). nia.
  - fold (value MARGIN_Y). rewrite value_MARGIN_Y. lia.
  - fold (value MARGIN_Y). rewrite value_MARGIN_Y, Vfx.
    change (2 ^ (-1 - (scale + scale))) with (2 ^ (- scale) * 2 ^ 1073). lia.
  - split; [exact Hfin|lia].
Qed.

Lemma pos_y_MARGIN_Y dh wm_h :
  0 <= dh < 2 ^ 40 -> 0 <= wm_h < 2 ^ 40 ->
  pos_y dh wm_h MARGIN_Y = Ok (Z.max 0 (dh / 2 - wm_h)).
Proof.
  intros Hdh Hwm. unfold pos_y.
  destruct (imul_half dh Hdh) as (m & Hm & Fm & Vm). rewrite Hm. cbn [bind].
  unfold isub.
  assert (Hs : scale + scale <= -1074) by (unfold scale; lia).
  destruct (of_int_val (dh - wm_h) (scale + scale)) as (fx & Hfx & Ffx & Vfx);
    [lia|exact Hs|].
  rewrite Hfx. cbn [bind].
  set (H := 2 ^ (-1 - (scale + scale))) in *.
  assert (HH : 0 < H) by (apply pow2_gt0; unfold scale; lia).
  assert (EX : 2 ^ (- (scale + scale)) = 2 * H) by (vm_compute; reflexivity).
  set (D := (dh - 2 * wm_h) * H).
  assert (Hg : grid (scale + scale) (Z.abs D)).
  { unfold D. rewrite Z.abs_mul, (Z.abs_eq H) by lia.
    apply grid_dyadic; [lia|unfold scale; lia|unfold scale; lia]. }
  destruct (sub_between fx m (scale + scale) D D) as [Fd Vd]; try assumption.
  { rewrite Vfx, Vm, EX. unfold D. lia. }
  assert (Vd' : fval (scale + scale) (sub fx m) = D) by lia.
  rewrite (trunc_val _ (scale + scale) Fd) by (unfold scale; lia).
  cbn [bind]. rewrite Vd', EX. unfold D.
  rewrite Z.quot_mul_cancel_r by lia.
  f_equal.
  destruct (Z.ltb_spec (Z.quot (dh - 2 * wm_h) 2) 0) as [Hq|Hq];
    Z.to_euclidean_division_equations; lia.
Qed.

(** Truncation toward zero of a value between two integers. *)
Lemma quot_between v Y D :
  0 < Y ->
  (1 <= D -> (D - 1) * Y <= v < D * Y -> Z.quot v Y = D - 1) /\
  (D <= 0 -> (D - 1) * Y < v <= D * Y -> Z.quot v Y = D).
Proof.
  intros HY. split; intros HD Hv.
  - rewrite Z.quot_div_nonneg by nia.
    symmetry. apply Z.div_unique with (r := v - (D - 1) * Y); [left|]; lia.
  - replace v with (- (- v)) by lia. rewrite Z.quot_opp_l by lia.
    rewrite Z.quot_div_nonneg by nia.
    assert (E : - v / Y = - D); [|lia].
    symmetry. apply Z.div_unique with (r := - v + D * Y); [left|]; lia.
Qed.

(** A width that is a multiple of 20: the product with [MARGIN_X] is rounded
    to the twentieth itself. *)
Lemma imul_MARGIN_X_multiple k :
  0 <= k -> 20 * k < 2 ^ 40 ->
  exists m, imul (20 * k) MARGIN_X = Ok m /\ finite_at (scale + scale) m /\
            fval (scale + scale) m = k * 2 ^ (- (scale + scale)).
Proof.
  intros Hk Hlt. unfold imul.
  destruct (of_int_val (20 * k) scale) as (fx & Hfx & Ffx & Vfx);
    [change (2 ^ 53) with (8192 * 2 ^ 40); lia|unfold scale; lia|].
  rewrite Hfx. cbn [bind]. eexists; split; [reflexivity|].
  set (Y := 2 ^ 2091). assert (HY : 0 < Y) by (apply pow2_gt0; lia).
  assert (E1 : 2 ^ (- (scale + scale)) = 144115188075855872 * Y) by (vm_compute; reflexivity).
  assert (E3 : fval scale fx * fval scale MARGIN_X = k * 144115188075855880 * Y).
  { rewrite Vfx. fold (value MARGIN_X). rewrite value_MARGIN_X.
    assert (EY : Y = 2 ^ (- scale) * 2 ^ 1017) by (vm_compute; reflexivity).
    rewrite EY. set (a := 2 ^ (- scale)). set (b := 2 ^ 1017). ring. }
  destruct (Z.eq_dec k 0) as [->|Hne].
  - destruct (mul_between fx MARGIN_X scale scale 0 0) as [Fm Vm]; try assumption.
    + cbn. unfold scale. lia.
    + rewrite Vfx. lia.
    + cbn. lia.
    + apply grid_0. unfold scale. lia.
    + apply grid_0. unfold scale. lia.
    + rewrite E3. lia.
    + split; [exact Fm|lia].
  - assert (Hk0 : 0 < k) by lia.
    pose proof (Zdigits2_bounds k Hk0) as [Dlo Dhi].
    pose proof (Zdigits2_pos k Hk0) as Dpos.
    pose proof (Zdigits2_le k 40 Hk0 ltac:(lia) ltac:(lia)) as D40.
    set (d := Zdigits2 k) in *.
    pose proof (pow2_gt0 (53 - d) ltac:(lia)) as Hp.
    assert (EL : k * 2 ^ (53 - d) * 2 ^ (d - 53 - (scale + scale))
                 = k * (144115188075855872 * Y)).
    { rewrite <- Z.mul_assoc, <- pow2_split by (unfold scale; lia).
      replace (53 - d + (d - 53 - (scale + scale))) with (- (scale + scale)) by lia.
      rewrite E1. reflexivity. }
    assert (EU : 2 ^ (d - 53 - (scale + scale)) = 2 ^ d * (16 * Y)).
    { replace (d - 53 - (scale + scale)) with (d + 2095) by (unfold scale; lia).
      rewrite pow2_split by lia. reflexivity. }
    destruct (mul_down fx MARGIN_X scale scale (k * 2 ^ (53 - d)) (d - 53))
      as [Fm Vm]; try assumption.
    + cbn. unfold scale. lia.
    + rewrite Vfx. pose proof (pow2_gt0 (- scale) ltac:(unfold scale; lia)). nia.
    + cbn. lia.
    + split.
      * replace 52 with ((d - 1) + (53 - d)) at 1 by lia. rewrite pow2_split by lia. nia.
      * replace 53 with (d + (53 - d)) at 2 by lia. rewrite pow2_split by lia. nia.
    + unfold scale. lia.
    + lia.
    + rewrite E3, EL. nia.
    + rewrite E3, EL, EU. nia.
    + split; [exact Fm|]. rewrite Vm, EL, E1. reflexivity.
Qed.

(** Any other width: the product stays away from the integers. *)
Lemma imul_MARGIN_X_between vw :
  0 <= vw < 2 ^ 40 -> vw mod 20 <> 0 ->
  exists m, imul vw MARGIN_X = Ok m /\ finite_at (scale + scale) m /\
            (32 * (vw / 20) + 1) * 2 ^ (-5 - (scale + scale))
              <= fval (scale + scale) m
              <= (32 * (vw / 20) + 31) * 2 ^ (-5 - (scale + scale)).
Proof.
  intros Hvw Hmod. unfold imul.
  destruct (of_int_val vw scale) as (fx & Hfx & Ffx & Vfx); [lia|unfold scale; lia|].
  rewrite Hfx. cbn [bind]. eexists; split; [reflexivity|].
  set (k := vw / 20) in *.
  change (2 ^ 40) with 1099511627776 in Hvw.
  assert (Hk : 0 <= k < 1099511627776) by (unfold k; Z.div_mod_to_equations; lia).
  set (Y := 2 ^ 2091). assert (HY : 0 < Y) by (apply pow2_gt0; lia).
  assert (E2 : 2 ^ (-5 - (scale + scale)) = 4503599627370496 * Y) by (vm_compute; reflexivity).
  assert (E3 : fval scale fx * fval scale MARGIN_X = vw * 7205759403792794 * Y).
  { rewrite Vfx. fold (value MARGIN_X). rewrite value_MARGIN_X.
    assert (EY : Y = 2 ^ (- scale) * 2 ^ 1017) by (vm_compute; reflexivity).
    rewrite EY. set (a := 2 ^ (- scale)). set (b := 2 ^ 1017). ring. }
  apply mul_between; try assumption.
  - cbn. unfold scale. lia.
  - rewrite Vfx. pose proof (pow2_gt0 (- scale) ltac:(unfold scale; lia)). nia.
  - cbn. lia.
  - apply grid_dyadic; [|unfold scale; lia|unfold scale; lia].
    change (2 ^ 53) with 9007199254740992. lia.
  - apply grid_dyadic; [|unfold scale; lia|unfold scale; lia].
    change (2 ^ 53) with 9007199254740992. lia.
  - rewrite E2, E3.
    assert ((32 * k + 1) * 4503599627370496 <= vw * 7205759403792794
            <= (32 * k + 31) * 4503599627370496).
    { unfold k. Z.div_mod_to_equations. lia. }
    nia.
Qed.

Lemma pos_x_right_MARGIN_X vw wm_w :
  0 <= vw < 2 ^ 40 -> 0 <= wm_w < 2 ^ 40 ->
  pos_x Right vw wm_w MARGIN_X = Ok (Z.quot (19 * vw - 20 * wm_w) 20).
Proof.
  intros Hvw Hwm. unfold pos_x.
  set (k := vw / 20). set (D := vw - wm_w - k).
  assert (Hs : scale + scale <= -1074) by (unfold scale; lia).
  set (Y := 2 ^ (- (scale + scale))).
  assert (HY : 0 < Y) by (apply pow2_gt0; unfold scale; lia).
  destruct (of_int_val (vw - wm_w) (scale + scale)) as (fn & Hfn & Ffn & Vfn); [lia|exact Hs|].
  fold Y in Vfn.
  change (2 ^ 40) with 1099511627776 in Hvw, Hwm.
  assert (Hk : 0 <= k < 1099511627776) by (unfold k; Z.div_mod_to_equations; lia).
  destruct (Z.eq_dec (vw mod 20) 0) as [Hz|Hnz].
  - assert (Evw : vw = 20 * k) by (unfold k; Z.div_mod_to_equations; lia).
    destruct (imul_MARGIN_X_multiple k) as (m & Hm & Fm & Vm);
      [lia|change (2 ^ 40) with 1099511627776; lia|].
    rewrite <- Evw in Hm. rewrite Hm. cbn [bind]. unfold isub. rewrite Hfn. cbn [bind].
    fold Y in Vm.
    destruct (sub_between fn m (scale + scale) (D * Y) (D * Y)) as [Fd Vd]; try assumption.
    + rewrite Z.abs_mul, (Z.abs_eq Y) by lia. apply grid_int; lia.
    + rewrite Z.abs_mul, (Z.abs_eq Y) by lia. apply grid_int; lia.
    + rewrite Vfn, Vm. unfold D. lia.
    + rewrite (trunc_val _ (scale + scale) Fd) by lia. fold Y.
      replace (fval (scale + scale) (sub fn m)) with (D * Y) by lia.
      rewrite Z.quot_mul by lia. f_equal.
      replace (19 * vw - 20 * wm_w) with (D * 20) by (unfold D; lia).
      rewrite Z.quot_mul by lia. reflexivity.
  - destruct (imul_MARGIN_X_between vw) as (m & Hm & Fm & Vm);
      [change (2 ^ 40) with 1099511627776; lia|exact Hnz|].
    rewrite Hm. cbn [bind]. unfold isub. rewrite Hfn. cbn [bind].
    fold k in Vm.
    set (G := 2 ^ (-5 - (scale + scale))) in *.
    assert (HG : 0 < G) by (apply pow2_gt0; unfold scale; lia).
    assert (EY : Y = 32 * G) by (vm_compute; reflexivity).
    destruct (sub_between fn m (scale + scale) ((32 * D - 31) * G) ((32 * D - 1) * G))
      as [Fd Vd]; try assumption.
    + rewrite Z.abs_mul, (Z.abs_eq G) by lia.
      apply grid_dyadic; [|unfold scale; lia|unfold scale; lia].
      change (2 ^ 53) with 9007199254740992. lia.
    + rewrite Z.abs_mul, (Z.abs_eq G) by lia.
      apply grid_dyadic; [|unfold scale; lia|unfold scale; lia].
      change (2 ^ 53) with 9007199254740992. lia.
    + rewrite Vfn, EY. unfold D. nia.
    + rewrite (trunc_val _ (scale + scale) Fd) by lia. fold Y. f_equal.
      set (v := fval (scale + scale) (sub fn m)) in *.
      assert (Hr : 19 * vw - 20 * wm_w = 20 * D - vw mod 20).
      { unfold D, k. Z.div_mod_to_equations. lia. }
      pose proof (Z.mod_pos_bound vw 20 ltac:(lia)) as Hrb.
      destruct (quot_between v Y D HY) as [Q1 Q2].
      destruct (quot_between (19 * vw - 20 * wm_w) 20 D ltac:(lia)) as [R1 R2].
      destruct (Z_le_gt_dec D 0) as [HD|HD].
      * rewrite Q2, R2; [reflexivity|lia|lia|lia|rewrite EY; nia].
      * rewrite Q1, R1; [reflexivity|lia|lia|lia|rewrite EY; nia].
Qed.

(** X3 (lines 113-122, with the constants of lines 30-31): for sizes below
    [2^40] the position is what exact arithmetic gives.  Left corner:
    [vw / 20], rounded down.  Right corner: [(19 * vw - 20 * wm_w) / 20],
    truncated toward zero, which leaves a gap of [vw / 20] rounded up when
    the watermark fits.  Ordinate: [dest_h / 2 - wm_h] with [dest_h / 2]
    rounded down, or 0 when that is negative. *)
Theorem resolve_script_margins c vw dh wm_w wm_h :
  0 <= vw < 2 ^ 40 -> 0 <= dh < 2 ^ 40 ->
  0 <= wm_w < 2 ^ 40 -> 0 <= wm_h < 2 ^ 40 ->
  resolve c (wm_w, wm_h) vw dh MARGIN_X MARGIN_Y
  = Ok (match c with
        | Left => vw / 20
        | Right => Z.quot (19 * vw - 20 * wm_w) 20
        end,
        Z.max 0 (dh / 2 - wm_h)) /\
  (wm_w + ceil_div vw 20 <= vw ->
   Z.quot (19 * vw - 20 * wm_w) 20 = vw - wm_w - ceil_div vw 20).
Proof.
  intros Hvw Hdh Hww Hwh. split.
  - unfold resolve. cbn [fst snd]. rewrite (pos_y_MARGIN_Y dh wm_h Hdh Hwh).
    destruct c.
    + rewrite (pos_x_left_MARGIN_X vw wm_w Hvw). reflexivity.
    + rewrite (pos_x_right_MARGIN_X vw wm_w Hvw Hww). reflexivity.
  - unfold ceil_div. intros Hfit.
    Z.to_euclidean_division_equations. lia.
Qed.

Lemma resolve_script_margins_witness :
  resolve Right (270, 67) 1080 1920 MARGIN_X MARGIN_Y
  = Ok (Z.quot (19 * 1080 - 20 * 270) 20, Z.max 0 (1920 / 2 - 67)) /\
  (270 + ceil_div 1080 20 <= 1080 ->
   Z.quot (19 * 1080 - 20 * 270) 20 = 1080 - 270 - ceil_div 1080 20).
Proof.
  apply (resolve_script_margins Right 1080 1920 270 67); split; lia.
Defined.

(** ** The alpha band with the opacity of the script *)

(** The table that line 99 builds for [WM_OPACITY = 0.1]. *)
Lemma point_table_WM_OPACITY :
  point_table (fun p => x <- imul p WM_OPACITY ;; trunc x)
  = Ok (map (fun p => p / 10) (map Z.of_nat (seq 0 256))).
Proof. vm_compute. reflexivity. Qed.

Lemma lookup_tenth v :
  0 <= v <= 255 ->
  lookup (map (fun p => p / 10) (map Z.of_nat (seq 0 256))) v = v / 10.
Proof.
  intros Hv. unfold lookup.
  change 0 with ((fun p => p / 10) 0) at 1.
  rewrite map_nth. cbn beta. f_equal.
  change 0 with (Z.of_nat 0). rewrite map_nth, seq_nth by lia. lia.
Qed.

(** X4 (lines 97-100, with [WM_OPACITY] of line 27): every 8-bit alpha value
    is replaced by its tenth, rounded down, so that no pixel of the
    watermark is left with an alpha above 25; size and colour bands are
    kept. *)
Theorem scale_alpha_WM_OPACITY pil :
  Forall (fun px => 0 <= alpha px <= 255) (pixels pil) ->
  scale_alpha WM_OPACITY pil
  = Ok (Image (size pil)
              (map (fun px => Pixel (red px) (green px) (blue px) (alpha px / 10))
                   (pixels pil))) /\
  Forall (fun px => 0 <= alpha px <= 25)
         (map (fun px => Pixel (red px) (green px) (blue px) (alpha px / 10))
              (pixels pil)).
Proof.
  intros Ha. split.
  - unfold scale_alpha. change (ltb WM_OPACITY one) with true. cbv iota.
    rewrite point_table_WM_OPACITY. cbn [bind]. do 2 f_equal.
    apply map_ext_in. intros px Hpx. f_equal. apply lookup_tenth.
    rewrite Forall_forall in Ha. exact (Ha px Hpx).
  - rewrite Forall_map. rewrite Forall_forall in *. intros px Hpx.
    specialize (Ha px Hpx). cbn [alpha]. Z.div_mod_to_equations. lia.
Qed.

Lemma scale_alpha_WM_OPACITY_witness :
  scale_alpha WM_OPACITY (Image (2, 1) [Pixel 10 20 30 255; Pixel 1 2 3 9])
  = Ok (Image (2, 1) [Pixel 10 20 30 25; Pixel 1 2 3 0]) /\
  Forall (fun px => 0 <= alpha px <= 25) [Pixel 10 20 30 25; Pixel 1 2 3 0].
Proof.
  apply (scale_alpha_WM_OPACITY (Image (2, 1) [Pixel 10 20 30 255; Pixel 1 2 3 9])).
  repeat constructor; cbn [alpha]; lia.
Defined.

(** ** The size of the watermark *)

(** The factor [1.0 + u] for a draw between [-0.15] and [0.15]: between the
    doubles next to 0.85 and 1.15. *)
Lemma variation_range u :
  valid_binary prec emax u = true ->
  leb (SFopp SCALE_VARIATION) u = true -> leb u SCALE_VARIATION = true ->
  7656119366529843 * 2 ^ 1021 <= value (add one u) <= 5179139571476071 * 2 ^ 1022.
Proof.
  intros Vu Hlo Hhi.
  assert (Fu : is_finite u = true).
  { destruct u as [su|[]| |su mu eu]; try reflexivity; cbn in Hlo, Hhi; discriminate. }
  pose proof (leb_value (SFopp SCALE_VARIATION) u eq_refl Vu eq_refl Fu Hlo) as H1.
  pose proof (leb_value u SCALE_VARIATION Vu eq_refl Fu eq_refl Hhi) as H2.
  change (value (SFopp SCALE_VARIATION)) with (- (5404319552844595 * 2 ^ 1019)) in H1.
  change (value SCALE_VARIATION) with (5404319552844595 * 2 ^ 1019) in H2.
  assert (HY : 0 < 2 ^ 1019) by (apply pow2_gt0; lia).
  change (2 ^ 1021) with (4 * 2 ^ 1019). change (2 ^ 1022) with (8 * 2 ^ 1019).
  assert (Hone : fval scale one = 36028797018963968 * 2 ^ 1019) by reflexivity.
  apply add_between.
  - cbn. unfold scale. lia.
  - apply valid_finite_at; assumption.
  - unfold scale. lia.
  - rewrite Z.abs_eq by lia.
    replace (7656119366529843 * (4 * 2 ^ 1019))
      with (7656119366529843 * 2 ^ (-53 - scale)) by (vm_compute; reflexivity).
    apply grid_dyadic; unfold scale; lia.
  - rewrite Z.abs_eq by lia.
    replace (5179139571476071 * (8 * 2 ^ 1019))
      with (5179139571476071 * 2 ^ (-52 - scale)) by (vm_compute; reflexivity).
    apply grid_dyadic; unfold scale; lia.
  - rewrite Hone. unfold value in H1, H2. set (Y := 2 ^ 1019) in *. lia.
Qed.

Lemma target_wm_w_upper vw u :
  0 <= vw < 2 ^ 40 -> valid_binary prec emax u = true ->
  leb (SFopp SCALE_VARIATION) u = true -> leb u SCALE_VARIATION = true ->
  exists t, target_wm_w vw u = Ok (Z.max 8 t) /\
            (vw * value (add one u)) / 2 ^ 1076 <= t <= (23 * vw + 80) / 80.
Proof.
  intros Hvw Vu Hlo Hhi.
  destruct (target_wm_w_bracket vw u Hvw Vu Hlo Hhi) as (t & Ht & Hfl & Hce).
  destruct (variation_range u Vu Hlo Hhi) as [_ VU].
  exists t. split; [exact Ht|]. split; [exact Hfl|].
  set (V := value (add one u)) in *.
  assert (H1022 : 0 < 2 ^ 1022) by (apply pow2_gt0; lia).
  assert (H1076 : 0 < 2 ^ 1076) by (apply pow2_gt0; lia).
  change (2 ^ 40) with 1099511627776 in Hvw.
  eapply Z.le_trans; [exact Hce|]. apply ceil_le; [exact H1076|].
  apply Z.le_trans with (vw * (5179139571476071 * 2 ^ 1022)); [nia|].
  change (2 ^ 1076) with (18014398509481984 * 2 ^ 1022).
  assert (vw * 5179139571476071 <= (23 * vw + 80) / 80 * 18014398509481984).
  { Z.div_mod_to_equations. lia. }
  nia.
Qed.

(** X5 (lines 87-88): for a width below [2^40] and a draw of
    [random.uniform] between [-SCALE_VARIATION] and [SCALE_VARIATION], the
    target width is at least 8, not less than 21.25 % of the video width
    minus one pixel, not more than 28.75 % of it plus one pixel (unless it
    is the minimum of 8), and never more than the video width once that is
    8 or more. *)
Theorem target_wm_w_range vw u :
  0 <= vw < 2 ^ 40 -> valid_binary prec emax u = true ->
  leb (SFopp SCALE_VARIATION) u = true -> leb u SCALE_VARIATION = true ->
  exists w, target_wm_w vw u = Ok w /\
            8 <= w /\
            17 * vw <= 80 * (w + 1) /\
            (80 * w <= 23 * vw + 80 \/ w = 8) /\
            (8 <= vw -> w <= vw).
Proof.
  intros Hvw Vu Hlo Hhi.
  destruct (target_wm_w_upper vw u Hvw Vu Hlo Hhi) as (t & Ht & Hfl & Hup).
  destruct (variation_range u Vu Hlo Hhi) as [VL _].
  set (V := value (add one u)) in *.
  assert (H1021 : 0 < 2 ^ 1021) by (apply pow2_gt0; lia).
  assert (H1076 : 0 < 2 ^ 1076) by (apply pow2_gt0; lia).
  change (2 ^ 40) with 1099511627776 in Hvw.
  assert (Hlow : 17 * vw <= 80 * (t + 1)).
  { pose proof (Z.mul_succ_div_gt (vw * V) (2 ^ 1076) H1076) as Hgt.
    assert (Hlt : vw * (7656119366529843 * 2 ^ 1021) < 2 ^ 1076 * (t + 1)) by nia.
    change (2 ^ 1076) with (36028797018963968 * 2 ^ 1021) in Hlt.
    assert (vw * 7656119366529843 < 36028797018963968 * (t + 1)) by nia.
    lia. }
  exists (Z.max 8 t). split; [exact Ht|].
  split; [lia|]. split; [lia|].
  split; [|intros; Z.div_mod_to_equations; lia].
  destruct (Z_le_gt_dec t 8); [right; lia|left]. Z.div_mod_to_equations. lia.
Qed.

Lemma target_wm_w_range_witness :
  exists w, target_wm_w 1080 SCALE_VARIATION = Ok w /\
            8 <= w /\
            17 * 1080 <= 80 * (w + 1) /\
            (80 * w <= 23 * 1080 + 80 \/ w = 8) /\
            (8 <= 1080 -> w <= 1080).
Proof.
  apply (target_wm_w_range 1080 SCALE_VARIATION); first [lia | reflexivity].
Defined.

Lemma target_h_wm_bracket h0 tw w0 :
  0 < h0 -> 0 < tw -> 0 < w0 < 2 ^ 50 -> h0 * tw < 2 ^ 50 ->
  exists t, target_h_wm h0 tw w0 = Ok (Z.max 1 t) /\
            (t = h0 * tw / w0 \/
             (t = h0 * tw / w0 - 1 /\ (h0 * tw) mod w0 = 0)).
Proof.
  intros Hh Ht Hw HM. unfold target_h_wm.
  assert (Hh50 : h0 < 2 ^ 50) by nia.
  assert (Ht50 : tw < 2 ^ 50) by nia.
  destruct (truediv_rel tw w0 ltac:(lia) Hw) as (r & Hr & Fr & [R1 R2] & Ra & Rb).
  rewrite Hr. cbn [bind]. unfold imul.
  destruct (of_int_val h0 scale) as (fx & Hfx & Ffx & Vfx);
    [change (2 ^ 53) with (8 * 2 ^ 50); lia|unfold scale; lia|].
  rewrite Hfx. cbn [bind].
  set (X := 2 ^ (- scale)) in *. assert (HX : 0 < X) by (apply pow2_gt0; unfold scale; lia).
  set (R := value r) in *.
  assert (HP : value fx * R = h0 * X * R) by (unfold value; rewrite Vfx; ring).
  assert (HXe : X = 2 ^ 1074) by reflexivity.
  destruct (mul_rel fx r Ffx Fr) as (Fm & Xa & Xb).
  { unfold value. rewrite Vfx. nia. }
  { fold R. lia. }
  { fold R. rewrite HP. split.
    - change (2 ^ 1126) with (1 * 2 ^ 1074 * 2 ^ 52). rewrite <- HXe.
      apply Z.mul_le_mono_nonneg; nia.
    - apply Z.le_lt_trans with (2 ^ 50 * X * 2 ^ 1126).
      + apply Z.mul_le_mono_nonneg; nia.
      + rewrite HXe. vm_compute. reflexivity. }
  fold R in Xa, Xb. rewrite HP in Xa, Xb.
  set (Xv := fval (scale + scale) (mul fx r)) in *.
  set (Y := 2 ^ (- (scale + scale))).
  assert (HY : Y = X * X) by reflexivity.
  assert (HY0 : 0 < Y) by nia.
  set (E := 2 ^ 52) in *. assert (HE : E = 4503599627370496) by reflexivity.
  assert (HXv : 0 <= Xv).
  { assert (0 < Xv * (E + 1)); [|nia].
    apply Z.le_lt_trans with (h0 * X * R * E); [|exact Xa].
    apply Z.mul_nonneg_nonneg; [|lia]. apply Z.mul_nonneg_nonneg; [nia|lia]. }
  rewrite (trunc_val_nonneg _ (scale + scale) Fm ltac:(unfold scale; lia) HXv).
  cbn [bind]. fold Xv. fold Y. exists (Xv / Y). split; [reflexivity|].
  set (T := Xv / Y).
  pose proof (Z.mul_div_le Xv Y HY0) as T1.
  pose proof (Z.mul_succ_div_gt Xv Y HY0) as T2. fold T in T1, T2.
  set (M := h0 * tw) in *.
  (* the two roundings together *)
  assert (C1 : Xv * (E * E * w0) <= M * (E + 1) * (E + 1) * Y).
  { apply Z.le_trans with (h0 * X * (E + 1) * (R * w0 * E)).
    - replace (Xv * (E * E * w0)) with (Xv * E * (w0 * E)) by ring.
      replace (h0 * X * (E + 1) * (R * w0 * E)) with (h0 * X * R * (E + 1) * (w0 * E)) by ring.
      apply Z.mul_le_mono_nonneg_r; [nia|exact Xb].
    - replace (M * (E + 1) * (E + 1) * Y) with (h0 * X * (E + 1) * (tw * X * (E + 1)))
        by (unfold M; rewrite HY; ring).
      apply Z.mul_le_mono_nonneg_l; [|exact Rb].
      apply Z.mul_nonneg_nonneg; [nia|lia]. }
  assert (C2 : M * (E * E) * Y < Xv * ((E + 1) * (E + 1) * w0)).
  { apply Z.lt_le_trans with (h0 * X * E * (R * w0 * (E + 1))).
    - replace (M * (E * E) * Y) with (h0 * X * E * (tw * X * E)) by (unfold M; rewrite HY; ring).
      apply Z.mul_lt_mono_pos_l; [|exact Ra].
      apply Z.mul_pos_pos; [nia|lia].
    - replace (h0 * X * E * (R * w0 * (E + 1))) with (h0 * X * R * E * (w0 * (E + 1))) by ring.
      replace (Xv * ((E + 1) * (E + 1) * w0)) with (Xv * (E + 1) * (w0 * (E + 1))) by ring.
      apply Z.mul_le_mono_nonneg_r; [nia|lia]. }
  set (q := M / w0). set (rho := M mod w0).
  assert (HMq : M = w0 * q + rho) by (apply Z.div_mod; lia).
  pose proof (Z.mod_pos_bound M w0 ltac:(lia)) as Hrho. fold rho in Hrho.
  assert (Hq0 : 0 <= q) by (apply Z.div_pos; unfold M; nia).
  (* never above the quotient *)
  assert (Hup : T <= q).
  { destruct (Z_le_gt_dec T q) as [|Hgt]; [assumption|exfalso].
    assert (H1 : (q + 1) * Y <= Xv) by nia.
    assert (H2 : (q + 1) * Y * (E * E * w0) <= M * (E + 1) * (E + 1) * Y).
    { eapply Z.le_trans; [|exact C1]. apply Z.mul_le_mono_nonneg_r; [nia|exact H1]. }
    assert (H3 : (q + 1) * (E * E * w0) <= M * (E + 1) * (E + 1)).
    { apply (Z.mul_le_mono_pos_r _ _ Y HY0).
      replace ((q + 1) * (E * E * w0) * Y) with ((q + 1) * Y * (E * E * w0)) by ring.
      exact H2. }
    assert (H4 : (M + 1) * (E * E) <= M * (E + 1) * (E + 1)).
    { eapply Z.le_trans; [|exact H3].
      replace ((q + 1) * (E * E * w0)) with ((w0 * q + w0) * (E * E)) by ring.
      apply Z.mul_le_mono_nonneg_r; [nia|lia]. }
    rewrite HE in H4. change (2 ^ 50) with 1125899906842624 in HM. lia. }
  (* at most one below it, and only when the division is exact *)
  assert (Hlow : q - 1 <= T /\ (rho <> 0 -> q <= T)).
  { assert (Hgen : forall k, k * w0 + 1 <= M -> 0 <= k -> k <= T).
    { intros k Hk Hk0.
      destruct (Z_le_gt_dec k T) as [|Hgt]; [assumption|exfalso].
      assert (H1 : Xv < k * Y) by nia.
      assert (H2 : M * (E * E) * Y < k * Y * ((E + 1) * (E + 1) * w0)).
      { eapply Z.lt_le_trans; [exact C2|].
        apply Z.mul_le_mono_nonneg_r; [nia|lia]. }
      assert (H3 : M * (E * E) < k * ((E + 1) * (E + 1) * w0)).
      { apply (Z.mul_lt_mono_pos_r Y _ _ HY0).
        replace (k * ((E + 1) * (E + 1) * w0) * Y)
          with (k * Y * ((E + 1) * (E + 1) * w0)) by ring.
        exact H2. }
      assert (H4 : M * (E * E) < (M - 1) * ((E + 1) * (E + 1))).
      { eapply Z.lt_le_trans; [exact H3|].
        replace (k * ((E + 1) * (E + 1) * w0)) with (k * w0 * ((E + 1) * (E + 1))) by ring.
        apply Z.mul_le_mono_nonneg_r; [nia|lia]. }
      rewrite HE in H4. change (2 ^ 50) with 1125899906842624 in HM. lia. }
    split.
    - destruct (Z_le_gt_dec q 0) as [Hq|Hq].
      + assert (0 <= T) by (apply Z.div_pos; lia). lia.
      + apply Hgen; [nia|lia].
    - intros Hne. apply Hgen; [nia|lia]. }
  destruct Hlow as [Hl1 Hl2].
  fold M q rho.
  destruct (Z.eq_dec rho 0) as [Hz|Hnz]; [|left; specialize (Hl2 Hnz); lia].
  destruct (Z.eq_dec T q); [left; assumption|right; split; [lia|exact Hz]].
Qed.

(** A whole scale factor is applied exactly. *)
Lemma target_h_wm_integer_factor h0 w0 k :
  0 <= h0 -> 0 < w0 -> 0 <= k -> h0 * k < 2 ^ 50 -> h0 < 2 ^ 50 -> k < 2 ^ 50 ->
  target_h_wm h0 (k * w0) w0 = Ok (Z.max 1 (h0 * k)).
Proof.
  intros Hh Hw Hk HM Hh50 Hk50. unfold target_h_wm.
  set (X := 2 ^ (- scale)). assert (HX : 0 < X) by (apply pow2_gt0; unfold scale; lia).
  assert (H53 : 2 ^ 53 = 8 * 2 ^ 50) by reflexivity.
  destruct (truediv_between (k * w0) w0 scale (k * X) (k * X)) as (r & Hr & Fr & Vr);
    [nia|lia|unfold scale; lia| | | |].
  { apply grid_int; [unfold scale; lia|lia]. }
  { apply grid_int; [unfold scale; lia|lia]. }
  { fold X. split; nia. }
  rewrite Hr. cbn [bind]. unfold imul.
  destruct (of_int_val h0 scale) as (fx & Hfx & Ffx & Vfx); [lia|unfold scale; lia|].
  rewrite Hfx. cbn [bind]. fold X in Vfx, Vr.
  set (Y := 2 ^ (- (scale + scale))).
  assert (HY : Y = X * X) by reflexivity.
  assert (Hg : grid (scale + scale) (h0 * k * Y)).
  { apply grid_int; [unfold scale; lia|]. nia. }
  destruct (mul_between fx r scale scale (h0 * k * Y) (h0 * k * Y)) as [Fm Vm];
    try assumption.
  - rewrite Vfx. nia.
  - lia.
  - assert (fval scale r = k * X) by lia. rewrite Vfx, HY. nia.
  - rewrite (trunc_floor _ (scale + scale) (h0 * k) Fm); [reflexivity|unfold scale; lia|nia|].
    fold Y. nia.
Qed.

(** X6 (line 93): for a watermark image and a target width with
    [h0 * target_w < 2^50], the resized height is the proportional height
    [h0 * target_w / w0] rounded down, and at least 1; it can be one less
    than that only when the proportion is a whole number, and it is exact
    when the target width is a multiple of the width of the image. *)
Theorem target_h_wm_proportional h0 tw w0 :
  0 < h0 -> 0 < tw -> 0 < w0 < 2 ^ 50 -> h0 * tw < 2 ^ 50 ->
  exists th, target_h_wm h0 tw w0 = Ok th /\
             1 <= th /\
             (th = Z.max 1 (h0 * tw / w0) \/
              (th = Z.max 1 (h0 * tw / w0 - 1) /\ (h0 * tw) mod w0 = 0)) /\
             (tw mod w0 = 0 -> th = h0 * tw / w0).
Proof.
  intros Hh Ht Hw HM.
  destruct (target_h_wm_bracket h0 tw w0 Hh Ht Hw HM) as (t & Hres & Hcases).
  exists (Z.max 1 t). split; [exact Hres|]. split; [lia|]. split.
  - destruct Hcases as [->|[-> Hz]]; [left; reflexivity|right; split; [reflexivity|exact Hz]].
  - intros Hdiv.
    assert (Hk : tw = (tw / w0) * w0).
    { pose proof (Z.div_mod tw w0 ltac:(lia)). lia. }
    set (k := tw / w0) in *.
    assert (Hk1 : 1 <= k) by nia.
    assert (Hq : h0 * tw / w0 = h0 * k).
    { rewrite Hk, Z.mul_assoc. apply Z.div_mul. lia. }
    assert (E : target_h_wm h0 tw w0 = Ok (Z.max 1 (h0 * k))).
    { rewrite Hk at 1. apply target_h_wm_integer_factor; nia. }
    rewrite E in Hres. injection Hres as Hres. rewrite <- Hres, Hq. nia.
Qed.

Lemma target_h_wm_proportional_witness :
  exists th, target_h_wm 100 270 400 = Ok th /\
             1 <= th /\
             (th = Z.max 1 (100 * 270 / 400) \/
              (th = Z.max 1 (100 * 270 / 400 - 1) /\ (100 * 270) mod 400 = 0)) /\
             (270 mod 400 = 0 -> th = 100 * 270 / 400).
Proof.
  apply (target_h_wm_proportional 100 270 400); try reflexivity.
  split; reflexivity.
Defined.

(** ** One video, from the probe to the filter *)

Lemma bind_ok {A B : Type} (r : result A) (k : A -> result B) b :
  (x <- r ;; k x) = Ok b -> exists a, r = Ok a /\ k a = Ok b.
Proof. destruct r as [a|e]; cbn [bind]; [eauto|discriminate]. Qed.

Lemma target_wm_w_min vw u t : target_wm_w vw u = Ok t -> 8 <= t.
Proof.
  unfold target_wm_w. intros H.
  apply bind_ok in H. destruct H as (x & _ & H).
  apply bind_ok in H. destruct H as (y & _ & H). injection H as <-. lia.
Qed.

Lemma target_h_wm_min h0 tw w0 t : target_h_wm h0 tw w0 = Ok t -> 1 <= t.
Proof.
  unfold target_h_wm. intros H.
  apply bind_ok in H. destruct H as (r & _ & H).
  apply bind_ok in H. destruct H as (x & _ & H).
  apply bind_ok in H. destruct H as (y & _ & H). injection H as <-. lia.
Qed.

Lemma pos_y_min dh wm_h m y : pos_y dh wm_h m = Ok y -> 0 <= y.
Proof.
  unfold pos_y. intros H.
  apply bind_ok in H. destruct H as (a & _ & H).
  apply bind_ok in H. destruct H as (b & _ & H).
  apply bind_ok in H. destruct H as (t & _ & H). injection H as <-.
  destruct (Z.ltb_spec t 0); lia.
Qed.

Lemma scale_alpha_WM_OPACITY_size pil :
  exists px, scale_alpha WM_OPACITY pil = Ok (Image (size pil) px).
Proof.
  unfold scale_alpha. change (ltb WM_OPACITY one) with true. cbv iota.
  rewrite point_table_WM_OPACITY. cbn [bind]. eauto.
Qed.

(** What [compose] has done when it returns. *)
Lemma compose_ok w vw vh c :
  compose w vw vh = Ok c ->
  exists pil px,
    plan vw vh = Ok (c_plan c) /\
    image_open w = Ok pil /\
    target_wm_w vw (uniform_scale w) = Ok (fst (c_resized c)) /\
    target_h_wm (snd (size pil)) (fst (c_resized c)) (fst (size pil))
      = Ok (snd (c_resized c)) /\
    c_wm c = size (rotate w (uniform_angle w) (Image (c_resized c) px)) /\
    resolve (choice_corner w) (c_wm c) vw (dest_h (c_plan c) vh) MARGIN_X MARGIN_Y
      = Ok (c_pos c).
Proof.
  unfold compose. intros H.
  apply bind_ok in H. destruct H as (p & Hp & H).
  apply bind_ok in H. destruct H as (pil & Hpil & H).
  apply bind_ok in H. destruct H as (tw & Htw & H).
  destruct (size pil) as [w0 h0] eqn:Es.
  apply bind_ok in H. destruct H as (th & Hth & H).
  destruct (scale_alpha_WM_OPACITY_size (Image (tw, th) (resize w pil (tw, th))))
    as (px & Hsa).
  rewrite Hsa in H. cbn [bind size] in H.
  apply bind_ok in H. destruct H as (u & _ & H).
  apply bind_ok in H. destruct H as (pos & Hpos & H).
  injection H as <-. cbn [c_plan c_resized c_wm c_pos fst snd].
  exists pil, px. rewrite Es. cbn [fst snd]. auto 10.
Qed.

(** X7 (lines 68-141): whatever the collaborators answer, when the
    preparation of one video succeeds the watermark was resized to at least
    8 x 1, the ordinate handed to ffmpeg is not negative, and the filter is
    well formed: with padding, the canvas has the width of the video, is
    higher than it, and holds it at the offset [pad_top], the bars above
    and below differing by one line at most; without padding, the video is
    at least as high as the target height. *)
Theorem compose_invariants w vw vh c :
  compose w vw vh = Ok c ->
  plan vw vh = Ok (c_plan c) /\
  8 <= fst (c_resized c) /\ 1 <= snd (c_resized c) /\
  0 <= snd (c_pos c) /\
  match filter_of vw c with
  | PadOverlay W H pad_y x y =>
      W = vw /\ vh < H /\ 0 <= pad_y /\ pad_y + vh <= H /\
      2 * pad_y <= H - vh <= 2 * pad_y + 1 /\ (x, y) = c_pos c
  | Overlay x y => target_h (c_plan c) <= vh /\ (x, y) = c_pos c
  end.
Proof.
  intros H. destruct (compose_ok w vw vh c H) as (pil & px & Hp & _ & Htw & Hth & _ & Hpos).
  split; [exact Hp|].
  split; [exact (target_wm_w_min _ _ _ Htw)|].
  split; [exact (target_h_wm_min _ _ _ _ Hth)|].
  split.
  { unfold resolve in Hpos. apply bind_ok in Hpos. destruct Hpos as (x & _ & Hpos).
    apply bind_ok in Hpos. destruct Hpos as (y & Hy & Hpos). injection Hpos as <-.
    cbn [snd]. exact (pos_y_min _ _ _ _ Hy). }
  pose proof (plan_cases vw vh) as Hc. rewrite Hp in Hc. destruct Hc as (th & Hpl & _).
  unfold filter_of. rewrite Hpl. unfold plan_of.
  destruct (Z.ltb_spec vh th) as [Hlt|Hge]; cbn [need_pad target_h pad_top].
  - repeat split; try lia; try (Z.div_mod_to_equations; lia).
    destruct (c_pos c); reflexivity.
  - split; [lia|]. destruct (c_pos c); reflexivity.
Qed.

Lemma compose_invariants_witness :
  plan 1080 1350 = Ok (CanvasPlan 1920 true 285 285) /\
  8 <= 270 /\ 1 <= 67 /\ 0 <= 893 /\
  1080 = 1080 /\ 1350 < 1920 /\ 0 <= 285 /\ 285 + 1350 <= 1920 /\
  2 * 285 <= 1920 - 1350 <= 2 * 285 + 1 /\ (54, 893) = (54, 893).
Proof.
  apply (compose_invariants (quiet_world Left (1080, 1350)) 1080 1350
           (Composition (CanvasPlan 1920 true 285 285) (270, 67) (270, 67) (54, 893))).
  vm_compute. reflexivity.
Defined.

Lemma resolve_total c vw dh wm_w wm_h :
  0 <= vw < 2 ^ 40 -> 0 <= dh < 2 ^ 40 ->
  0 <= wm_w < 2 ^ 40 -> 0 <= wm_h < 2 ^ 40 ->
  exists pos, resolve c (wm_w, wm_h) vw dh MARGIN_X MARGIN_Y = Ok pos.
Proof.
  intros Hvw Hdh Hww Hwh. unfold resolve. cbn [fst snd].
  rewrite (pos_y_MARGIN_Y dh wm_h Hdh Hwh).
  destruct c.
  - rewrite (pos_x_left_MARGIN_X vw wm_w Hvw). cbn [bind]. eauto.
  - destruct (pos_x_right vw wm_w MARGIN_X Hvw Hww unit_float_MARGIN_X) as (x & -> & _).
    cbn [bind]. eauto.
Qed.

(** X8 (lines 59-167): no arithmetic step fails on sizes that occur.  For a
    video width below [2^20], a watermark image with sides below [2^20], a
    draw of the scale in range and collaborators that succeed (a rotation
    that keeps sizes below [2^39] below [2^40]), the preparation of one
    video returns: no division by zero, no overflow, no conversion of a
    float that is not finite.  If the probe gave these sizes and ffmpeg
    succeeds, [process_one_video] prints its [Processing] line and its
    [Done] line and returns. *)
Theorem compose_succeeds w vw vh pil :
  0 <= vw < 2 ^ 20 -> 0 <= vh < 2 ^ 40 ->
  image_open w = Ok pil ->
  0 < fst (size pil) < 2 ^ 20 -> 0 < snd (size pil) < 2 ^ 20 ->
  valid_binary prec emax (uniform_scale w) = true ->
  leb (SFopp SCALE_VARIATION) (uniform_scale w) = true ->
  leb (uniform_scale w) SCALE_VARIATION = true ->
  (forall a i, 0 <= fst (size i) < 2 ^ 39 -> 0 <= snd (size i) < 2 ^ 39 ->
               0 <= fst (size (rotate w a i)) < 2 ^ 40 /\
               0 <= snd (size (rotate w a i)) < 2 ^ 40) ->
  (forall i, image_save w i = Ok tt) ->
  (exists c, compose w vw vh = Ok c) /\
  (probe_size w = Ok (vw, vh) -> (forall cmd, run_ffmpeg w cmd = Ok tt) ->
   forall input_path output_path,
     process_one_video w input_path output_path
     = ([Processing (basename input_path); Done (basename output_path)], Ok tt)).
Proof.
  intros Hvw Hvh Hopen Hw0 Hh0 Vu Ulo Uhi Hrot Hsave.
  assert (Hc : exists c, compose w vw vh = Ok c).
  { change (2 ^ 20) with 1048576 in *. change (2 ^ 40) with 1099511627776 in *.
    change (2 ^ 39) with 549755813888 in *.
    unfold compose.
    rewrite (plan_in_range vw vh) by (change (2 ^ 40) with 1099511627776; lia).
    cbn [bind]. rewrite Hopen. cbn [bind].
    destruct (target_wm_w_upper vw (uniform_scale w)) as (t0 & Htw & _ & Tup);
      [change (2 ^ 40) with 1099511627776; lia|assumption..|].
    rewrite Htw. cbn [bind].
    set (tw := Z.max 8 t0).
    assert (Htw19 : 8 <= tw < 524288) by (unfold tw; Z.div_mod_to_equations; lia).
    destruct (size pil) as [w0 h0]. cbn [fst snd] in Hw0, Hh0.
    destruct (target_h_wm_bracket h0 tw w0) as (t & Hth & Tcase);
      [lia|lia|change (2 ^ 50) with 1125899906842624; lia
      |change (2 ^ 50) with 1125899906842624; nia|].
    rewrite Hth. cbn [bind].
    assert (Hq : h0 * tw / w0 < 549755813888).
    { apply Z.div_lt_upper_bound; [lia|]. nia. }
    set (th := Z.max 1 t).
    assert (Hth39 : 1 <= th < 549755813888) by lia.
    destruct (scale_alpha_WM_OPACITY_size (Image (tw, th) (resize w pil (tw, th))))
      as (px & ->).
    cbn [bind size]. rewrite Hsave. cbn [bind].
    set (out := rotate w (uniform_angle w) (Image (tw, th) px)).
    destruct (Hrot (uniform_angle w) (Image (tw, th) px)) as [Rw Rh];
      [cbn [size fst]; lia|cbn [size snd]; lia|].
    fold out in Rw, Rh. destruct (size out) as [ww wh]. cbn [fst snd] in Rw, Rh.
    set (p := plan_of (- (- (vw * 16) / 9)) vh).
    assert (Hdh : 0 <= dest_h p vh < 1099511627776).
    { unfold p, plan_of, dest_h.
      destruct (Z.ltb_spec vh (- (- (vw * 16) / 9))); cbn [need_pad target_h]; [|lia].
      Z.div_mod_to_equations. lia. }
    destruct (resolve_total (choice_corner w) vw (dest_h p vh) ww wh) as (pos & ->);
      try (change (2 ^ 40) with 1099511627776; lia).
    cbn [bind]. eauto. }
  split; [exact Hc|].
  intros Hprobe Hrun input_path output_path. destruct Hc as (c & Hc).
  unfold process_one_video. rewrite Hprobe, Hc, Hrun. reflexivity.
Qed.

Lemma compose_succeeds_witness :
  (exists c, compose (quiet_world Right (1080, 1920)) 1080 1920 = Ok c) /\
  (probe_size (quiet_world Right (1080, 1920)) = Ok (1080, 1920) ->
   (forall cmd, run_ffmpeg (quiet_world Right (1080, 1920)) cmd = Ok tt) ->
   forall input_path output_path,
     process_one_video (quiet_world Right (1080, 1920)) input_path output_path
     = ([Processing (basename input_path); Done (basename output_path)], Ok tt)).
Proof.
  apply (compose_succeeds (quiet_world Right (1080, 1920)) 1080 1920
           (Image (400, 100) [Pixel 255 255 255 255])).
  - lia.
  - lia.
  - reflexivity.
  - cbn [size fst]. lia.
  - cbn [size snd]. lia.
  - reflexivity.
  - reflexivity.
  - reflexivity.
  - intros a i Hw Hh. cbn [quiet_world rotate]. lia.
  - intros i. reflexivity.
Defined.

(** ** More on file names *)

Lemma rfind_bounds c s : -1 <= rfind c s < Z.of_nat (String.length s).
Proof.
  induction s as [|a s IH]; cbn [rfind String.length]; [lia|].
  destruct (Z.leb_spec 0 (rfind c s)); [lia|].
  destruct (Ascii.eqb a c); lia.
Qed.

Lemma rfind_app c s t :
  rfind c (s ++ t)
  = if 0 <=? rfind c t then Z.of_nat (String.length s) + rfind c t else rfind c s.
Proof.
  induction s as [|a s IH]; cbn [append rfind String.length].
  - destruct (Z.leb_spec 0 (rfind c t)); [lia|].
    pose proof (rfind_bounds c t). lia.
  - rewrite IH. destruct (Z.leb_spec 0 (rfind c t)) as [H|H].
    + destruct (Z.leb_spec 0 (Z.of_nat (String.length s) + rfind c t)); lia.
    + reflexivity.
Qed.

Lemma substring_0_app s t : substring 0 (String.length s) (s ++ t) = s.
Proof.
  induction s as [|a s IH]; cbn [append String.length substring].
  - destruct t; reflexivity.
  - rewrite IH. reflexivity.
Qed.

Lemma substring_all s : substring 0 (String.length s) s = s.
Proof. induction s as [|a s IH]; cbn; [reflexivity|]. rewrite IH. reflexivity. Qed.

Lemma substring_skip_app s t n : substring (String.length s) n (s ++ t) = substring 0 n t.
Proof. induction s as [|a s IH]; cbn [append String.length substring]; auto. Qed.

Lemma length_app s t : String.length (s ++ t) = (String.length s + String.length t)%nat.
Proof. induction s as [|a s IH]; cbn; [reflexivity|]. rewrite IH. reflexivity. Qed.

Lemma slice_to_app s t : slice_to (Z.of_nat (String.length s)) (s ++ t) = s.
Proof. unfold slice_to. rewrite Nat2Z.id. apply substring_0_app. Qed.

Lemma slice_from_app s t : slice_from (Z.of_nat (String.length s)) (s ++ t) = t.
Proof.
  unfold slice_from. rewrite Nat2Z.id, substring_skip_app, length_app.
  replace (String.length s + String.length t - String.length s)%nat
    with (String.length t) by lia.
  apply substring_all.
Qed.

Lemma has_non_dot_cons a p i n :
  has_non_dot (String a p) (S i) n = has_non_dot p i n.
Proof.
  revert i. induction n as [|n IH]; intros i; cbn [has_non_dot get]; [reflexivity|].
  destruct (get i p) as [c|]; [|reflexivity].
  destruct (Ascii.eqb c "."); [apply IH|reflexivity].
Qed.

Lemma has_non_dot_app s t :
  has_non_dot (s ++ t) 0 (String.length s) = negb (all_dots s).
Proof.
  induction s as [|a s IH]; cbn [append String.length has_non_dot get all_dots];
    [reflexivity|].
  destruct (Ascii.eqb a "."); [|reflexivity].
  rewrite has_non_dot_cons. exact IH.
Qed.

(** The shape of the eight extensions, in any letter case. *)
Lemma video_extension_shape ext :
  In (lower ext) video_extensions -> rfind "." ext = 0 /\ rfind "/" ext = -1.
Proof.
  intros H. apply lower_video_extensions in H.
  assert (C : forallb (fun x => (rfind "." x =? 0) && (rfind "/" x =? -1))
                      (flat_map case_variants video_extensions) = true)
    by (vm_compute; reflexivity).
  pose proof (forallb_In _ _ _ C H) as G. cbv beta in G.
  apply andb_true_iff in G. destruct G as [G1 G2].
  apply Z.eqb_eq in G1, G2. auto.
Qed.

Lemma splitext_stem_ext stem ext :
  no_sep stem -> rfind "." ext = 0 -> rfind "/" ext = -1 ->
  splitext (stem ++ ext)
  = if all_dots stem then ((stem ++ ext)%string, EmptyString) else (stem, ext).
Proof.
  unfold no_sep. intros Hs Hd Hx. unfold splitext.
  rewrite !rfind_app, Hd, Hx, Hs. cbn [Z.leb Z.compare].
  rewrite Z.add_0_r.
  replace (-1 <? Z.of_nat (String.length stem)) with true by (symmetry; apply Z.ltb_lt; lia).
  cbn [andb]. change (-1 + 1) with 0. rewrite Z.sub_0_r, Nat2Z.id. cbn [Z.to_nat].
  rewrite has_non_dot_app.
  destruct (all_dots stem); cbn [negb]; [reflexivity|].
  rewrite slice_to_app, slice_from_app. reflexivity.
Qed.

Lemma basename_join dir f :
  no_sep f -> dir <> EmptyString -> ends_with_sep dir = false ->
  path_join dir f = (dir ++ "/" ++ f)%string /\ basename (path_join dir f) = f.
Proof.
  unfold no_sep. intros Hf Hd He.
  assert (Hj : path_join dir f = (dir ++ "/" ++ f)%string).
  { unfold path_join. rewrite He.
    destruct dir as [|c dir]; [congruence|]. cbn [String.length Nat.eqb orb].
    destruct f as [|a f]; [reflexivity|].
    destruct (Ascii.eqb_spec a "/") as [->|Hne].
    - cbn [rfind] in Hf. destruct (Z.leb_spec 0 (rfind "/" f)); [|discriminate].
      pose proof (rfind_bounds "/" f). lia.
    - destruct a as [[] [] [] [] [] [] [] []]; try reflexivity. congruence. }
  split; [exact Hj|]. rewrite Hj. unfold basename.
  replace (dir ++ "/" ++ f)%string with ((dir ++ "/") ++ f)%string.
  - rewrite rfind_app, Hf. cbn [Z.leb Z.compare].
    rewrite rfind_app. cbn [rfind Z.leb Z.compare Ascii.eqb Bool.eqb]. cbn.
    replace (Z.of_nat (String.length dir) + 0 + 1)
      with (Z.of_nat (String.length (dir ++ "/"))).
    + apply slice_from_app.
    + rewrite length_app. cbn [String.length]. lia.
  - clear. induction dir as [|c dir IH]; cbn [append]; [reflexivity|]. rewrite IH. reflexivity.
Qed.

Lemma no_sep_app s t : no_sep s -> no_sep t -> no_sep (s ++ t).
Proof. unfold no_sep. intros Hs Ht. rewrite rfind_app, Ht. exact Hs. Qed.

(** X9 (lines 171-173): a name made of a stem without separator and of one
    of the eight extensions, in any letter case, is a video file exactly
    when the stem has a character other than a dot; [splitext] then cuts it
    into that stem and that extension.  A name such as [.mp4] is no video
    file. *)
Theorem is_video_file_by_extension stem ext :
  no_sep stem -> In (lower ext) video_extensions ->
  is_video_file (stem ++ ext) = negb (all_dots stem) /\
  (all_dots stem = false -> splitext (stem ++ ext) = (stem, ext)).
Proof.
  intros Hs He. destruct (video_extension_shape ext He) as [Hd Hx].
  unfold is_video_file. rewrite (splitext_stem_ext stem ext Hs Hd Hx).
  destruct (all_dots stem); cbn [snd negb].
  - split; [reflexivity|discriminate].
  - split; [|reflexivity].
    apply existsb_exists. exists (lower ext). split; [exact He|apply String.eqb_refl].
Qed.

Lemma is_video_file_by_extension_witness :
  is_video_file ("my.clip" ++ ".MP4") = negb (all_dots "my.clip") /\
  (all_dots "my.clip" = false -> splitext ("my.clip" ++ ".MP4") = ("my.clip", ".MP4")%string).
Proof.
  apply (is_video_file_by_extension "my.clip" ".MP4").
  - reflexivity.
  - vm_compute. tauto.
Defined.

(** X10 (lines 181-184, 60 and 167): for a video file [stem ++ ext] of the
    listing, one iteration reads [videos/stem.ext], writes
    [output/stem_wm.mp4], whatever the extension was, and the two names that
    may be printed are [stem.ext] and [stem_wm.mp4]. *)
Theorem one_file_names w stem ext :
  no_sep stem -> all_dots stem = false -> In (lower ext) video_extensions ->
  let fname := (stem ++ ext)%string in
  let in_path := ("videos/" ++ fname)%string in
  let out_path := ("output/" ++ stem ++ "_wm.mp4")%string in
  path_join videos_folder fname = in_path /\
  path_join output_folder (fst (splitext fname) ++ "_wm.mp4") = out_path /\
  one_file w fname
  = match process_one_video w in_path out_path with
    | (out, Ok _) => out
    | (out, Raise e) => out ++ [ErrorProcessing fname e]
    end /\
  basename in_path = fname /\ basename out_path = (stem ++ "_wm.mp4")%string.
Proof.
  intros Hs Hd He fname in_path out_path.
  destruct (video_extension_shape ext He) as [Hdot Hsep].
  assert (Hf : no_sep fname) by (apply no_sep_app; assumption).
  assert (Ho : no_sep (stem ++ "_wm.mp4")) by (apply no_sep_app; [assumption|reflexivity]).
  pose proof (splitext_stem_ext stem ext Hs Hdot Hsep) as Hsp. rewrite Hd in Hsp.
  destruct (basename_join videos_folder fname Hf) as [J1 B1]; [discriminate|reflexivity|].
  destruct (basename_join output_folder (stem ++ "_wm.mp4") Ho) as [J2 B2];
    [discriminate|reflexivity|].
  assert (E1 : path_join videos_folder fname = in_path) by exact J1.
  assert (E2 : path_join output_folder (fst (splitext fname) ++ "_wm.mp4") = out_path).
  { unfold fname. rewrite Hsp. cbn [fst]. exact J2. }
  split; [exact E1|]. split; [exact E2|]. split.
  - unfold one_file. fold fname. rewrite E1, E2. reflexivity.
  - rewrite J1 in B1. rewrite J2 in B2. split; [exact B1|exact B2].
Qed.

Lemma one_file_names_witness :
  path_join videos_folder ("my.clip" ++ ".MOV") = ("videos/" ++ "my.clip" ++ ".MOV")%string /\
  path_join output_folder (fst (splitext ("my.clip" ++ ".MOV")) ++ "_wm.mp4")
  = ("output/" ++ "my.clip" ++ "_wm.mp4")%string /\
  one_file broken_probe ("my.clip" ++ ".MOV")
  = match process_one_video broken_probe ("videos/" ++ "my.clip" ++ ".MOV")
            ("output/" ++ "my.clip" ++ "_wm.mp4") with
    | (out, Ok _) => out
    | (out, Raise e) => out ++ [ErrorProcessing ("my.clip" ++ ".MOV") e]
    end /\
  basename ("videos/" ++ "my.clip" ++ ".MOV") = ("my.clip" ++ ".MOV")%string /\
  basename ("output/" ++ "my.clip" ++ "_wm.mp4") = ("my.clip" ++ "_wm.mp4")%string.
Proof.
  apply (one_file_names broken_probe "my.clip" ".MOV").
  - reflexivity.
  - reflexivity.
  - vm_compute. tauto.
Defined.

(** ** More on the batch *)






(** X12 (lines 176-179): [main] prints the message about an empty folder,
    and nothing else, exactly when no name of the listing is a video
    file. *)
Theorem main_no_videos listing worlds :
  main listing worlds = [NoVideos]
  <-> Forall (fun f => is_video_file f = false) listing.
Proof.
  split.
  - intros Hm. apply Forall_forall. intros f Hf.
    destruct (is_video_file f) eqn:E; [exfalso|reflexivity].
    assert (Hin : In f (filter is_video_file (sorted listing))).
    { apply filter_In. split; [apply sorted_In; exact Hf|exact E]. }
    unfold main in Hm.
    destruct (filter is_video_file (sorted listing)) as [|g rest]; [contradiction|].
    cbn [for_files] in Hm. rewrite one_file_recorded in Hm. discriminate.
  - intros Hall. unfold main.
    destruct (filter is_video_file (sorted listing)) as [|g rest] eqn:E; [reflexivity|].
    assert (Hin : In g (filter is_video_file (sorted listing))) by (rewrite E; left; reflexivity).
    apply filter_In in Hin. destruct Hin as [Hin Hv]. apply (proj1 (sorted_In _ _)) in Hin.
    rewrite Forall_forall in Hall. rewrite (Hall g Hin) in Hv. discriminate.
Qed.

Lemma main_no_videos_witness :
  main ["notes.txt"; "cover.jpg"]%string one_broken = [NoVideos].
Proof.
  apply (proj2 (main_no_videos ["notes.txt"; "cover.jpg"]%string one_broken)).
  repeat constructor.
Defined.

Lemma string_leb_antisym a b :
  str_leb a b = true -> str_leb b a = true -> a = b.
Proof.
  unfold str_leb. intros Hab Hba.
  rewrite <- (fsencode_fsdecode a), <- (fsencode_fsdecode b).
  f_equal. exact (points_leb_antisym _ _ Hab Hba).
Qed.

Lemma StronglySorted_unique l1 l2 :
  StronglySorted name_le l1 -> StronglySorted name_le l2 ->
  Permutation l1 l2 -> l1 = l2.
Proof.
  intros H1. revert l2. induction H1 as [|a l1 Hs1 IH Ha]; intros l2 H2 Hp.
  - apply Permutation_nil in Hp. congruence.
  - destruct H2 as [|b l2 Hs2 Hb].
    + apply Permutation_sym, Permutation_nil in Hp. discriminate.
    + rewrite Forall_forall in Ha, Hb.
      assert (Hab : a = b).
      { assert (Hin1 : In a (b :: l2)) by (eapply Permutation_in; [exact Hp|left; reflexivity]).
        assert (Hin2 : In b (a :: l1))
          by (eapply Permutation_in; [apply Permutation_sym; exact Hp|left; reflexivity]).
        destruct Hin1 as [->|Hin1]; [reflexivity|].
        destruct Hin2 as [->|Hin2]; [reflexivity|].
        apply string_leb_antisym; [apply Ha, Hin2|apply Hb, Hin1]. }
      subst b. f_equal. apply IH; [exact Hs2|].
      eapply Permutation_cons_inv; exact Hp.
Qed.

(** X13 (line 176): the order in which [os.listdir] returns the names does
    not matter: two listings with the same names give the same sorted list
    and the same run. *)
Theorem main_listing_order listing listing' worlds :
  Permutation listing listing' ->
  sorted listing = sorted listing' /\ main listing worlds = main listing' worlds.
Proof.
  intros Hp.
  assert (Hs : sorted listing = sorted listing').
  { apply StronglySorted_unique; try apply sorted_StronglySorted.
    eapply Permutation_trans; [apply Permutation_sym, StringSort.Permuted_sort|].
    eapply Permutation_trans; [exact Hp|apply StringSort.Permuted_sort]. }
  split; [exact Hs|]. unfold main. rewrite Hs. reflexivity.
Qed.

Lemma main_listing_order_witness :
  sorted ["b.mp4"; "a.MOV"]%string = sorted ["a.MOV"; "b.mp4"]%string /\
  main ["b.mp4"; "a.MOV"]%string one_broken = main ["a.MOV"; "b.mp4"]%string one_broken.
Proof.
  apply (main_listing_order ["b.mp4"; "a.MOV"]%string ["a.MOV"; "b.mp4"]%string one_broken).
  apply perm_swap.
Defined.

(** ** What the probe reads *)

Lemma all_chars_app p s t :
  all_chars p (s ++ t) = all_chars p s && all_chars p t.
Proof.
  induction s as [|c s IH]; cbn [append all_chars]; [reflexivity|].
  rewrite IH, andb_assoc. reflexivity.
Qed.

Lemma all_chars_impl (p q : ascii -> bool) s :
  (forall c, p c = true -> q c = true) -> all_chars p s = true -> all_chars q s = true.
Proof.
  intros Hpq. induction s as [|c s IH]; cbn [all_chars]; [reflexivity|].
  intros H. apply andb_true_iff in H. destruct H as [H1 H2].
  rewrite (Hpq c H1), (IH H2). reflexivity.
Qed.

Lemma drop_while_all p s t :
  all_chars p s = true -> drop_while p (s ++ t) = drop_while p t.
Proof.
  induction s as [|c s IH]; cbn [append all_chars drop_while]; [reflexivity|].
  intros H. apply andb_true_iff in H. destruct H as [-> H2]. exact (IH H2).
Qed.

Lemma drop_while_all_nil p s :
  all_chars p s = true -> drop_while p s = EmptyString.
Proof.
  induction s as [|c s IH]; cbn [all_chars drop_while]; [reflexivity|].
  intros H. apply andb_true_iff in H. destruct H as [-> H2]. exact (IH H2).
Qed.

Lemma rstrip_cons c s :
  is_space c = false -> rstrip (String c s) = String c (rstrip s).
Proof. intros H. cbn [rstrip]. rewrite H. destruct (rstrip s); reflexivity. Qed.

Lemma rstrip_app s t :
  all_chars not_space s = true -> rstrip (s ++ t) = (s ++ rstrip t)%string.
Proof.
  induction s as [|c s IH]; cbn [append all_chars]; [reflexivity|].
  intros H. apply andb_true_iff in H. destruct H as [H1 H2].
  apply negb_true_iff in H1. rewrite (rstrip_cons c _ H1), (IH H2). reflexivity.
Qed.

Lemma rstrip_spaces s : all_chars is_space s = true -> rstrip s = EmptyString.
Proof.
  induction s as [|c s IH]; cbn [all_chars rstrip]; [reflexivity|].
  intros H. apply andb_true_iff in H. destruct H as [H1 H2].
  rewrite (IH H2), H1. reflexivity.
Qed.

Lemma rstrip_empty s : rstrip s = EmptyString -> all_chars is_space s = true.
Proof.
  induction s as [|c s IH]; cbn [all_chars rstrip]; [reflexivity|].
  destruct (rstrip s) as [|a r]; [|discriminate].
  destruct (is_space c); [|discriminate]. intros _. exact (IH eq_refl).
Qed.

Lemma drop_while_spaces s :
  all_chars is_space (drop_while is_space s) = all_chars is_space s.
Proof.
  induction s as [|c s IH]; cbn [all_chars drop_while]; [reflexivity|].
  destruct (is_space c) eqn:E; cbn [andb all_chars]; [exact IH|].
  rewrite E. reflexivity.
Qed.

(** [not s.strip()]: nothing but whitespace. *)
Lemma strip_empty s :
  (String.length (strip s) =? 0)%nat = all_chars is_space s.
Proof.
  unfold strip. rewrite <- drop_while_spaces.
  destruct (all_chars is_space (drop_while is_space s)) eqn:E.
  - rewrite (rstrip_spaces _ E). reflexivity.
  - destruct (rstrip (drop_while is_space s)) as [|a r] eqn:E'; [|reflexivity].
    apply rstrip_empty in E'. congruence.
Qed.

Lemma append_assoc (s t u : string) : ((s ++ t) ++ u = s ++ (t ++ u))%string.
Proof. induction s as [|a s IH]; cbn [append]; [reflexivity|]. rewrite IH. reflexivity. Qed.

Lemma append_nil_r s : (s ++ EmptyString)%string = s.
Proof. induction s as [|a s IH]; cbn [append]; [reflexivity|]. rewrite IH. reflexivity. Qed.

(** Whitespace around a text that has none at its ends. *)
Lemma strip_around pre core tail c :
  all_chars is_space pre = true -> all_chars not_space (String c core) = true ->
  strip (pre ++ String c core ++ tail) = (String c core ++ rstrip tail)%string.
Proof.
  intros Hpre Hcore. unfold strip. rewrite (drop_while_all _ _ _ Hpre).
  assert (Hc : is_space c = false).
  { cbn [all_chars] in Hcore. apply andb_true_iff in Hcore. destruct Hcore as [H _].
    apply negb_true_iff in H. exact H. }
  cbn [append drop_while]. rewrite Hc.
  change (String c (core ++ tail)) with (String c core ++ tail)%string.
  apply rstrip_app, Hcore.
Qed.

Lemma split_no_sep sep s : all_chars (not_sep sep) s = true -> split sep s = [s].
Proof.
  induction s as [|c s IH]; cbn [all_chars split]; [reflexivity|].
  intros H. apply andb_true_iff in H. destruct H as [H1 H2].
  apply negb_true_iff in H1. rewrite H1, (IH H2). reflexivity.
Qed.

Lemma split_cons sep s : exists w ws, split sep s = w :: ws.
Proof.
  induction s as [|c s (w & ws & IH)]; cbn [split]; [eauto|].
  destruct (Ascii.eqb c sep); [eauto|]. rewrite IH. eauto.
Qed.

Lemma split_app sep s t :
  all_chars (not_sep sep) s = true ->
  split sep (s ++ t)
  = match split sep t with
    | w :: ws => (s ++ w)%string :: ws
    | [] => [s]
    end.
Proof.
  induction s as [|c s IH]; cbn [append all_chars split].
  - intros _. destruct (split_cons sep t) as (w & ws & ->). reflexivity.
  - intros H. apply andb_true_iff in H. destruct H as [H1 H2].
    apply negb_true_iff in H1. rewrite H1, (IH H2).
    destruct (split_cons sep t) as (w & ws & ->). reflexivity.
Qed.

Lemma split_app_sep sep s t :
  all_chars (not_sep sep) s = true ->
  split sep (s ++ String sep t) = s :: split sep t.
Proof.
  intros H. rewrite (split_app sep s _ H). cbn [split]. rewrite Ascii.eqb_refl.
  f_equal. clear. induction s as [|c s IH]; cbn [append]; [reflexivity|]. rewrite IH. reflexivity.
Qed.

Lemma is_digit_cases c :
  is_digit c = true ->
  digit c = Some (Z.of_nat (nat_of_ascii c - 48)) /\
  is_space c = false /\ int_space c = false /\
  Ascii.eqb c "x" = false /\ Ascii.eqb c "_" = false /\
  Ascii.eqb c "+" = false /\ Ascii.eqb c "-" = false.
Proof.
  destruct c as [[] [] [] [] [] [] [] []]; cbv; intros H; try discriminate H;
    repeat split.
Qed.

Lemma digits_not_space s : all_chars is_digit s = true -> all_chars not_space s = true.
Proof.
  apply all_chars_impl. intros c H. unfold not_space.
  destruct (is_digit_cases c H) as (_ & -> & _). reflexivity.
Qed.

Lemma digits_not_x s : all_chars is_digit s = true -> all_chars (not_sep "x") s = true.
Proof.
  apply all_chars_impl. intros c H. unfold not_sep.
  destruct (is_digit_cases c H) as (_ & _ & _ & -> & _). reflexivity.
Qed.

Lemma scan_digits_numeral ds rest acc n :
  all_chars is_digit ds = true -> stops rest ->
  scan_digits (ds ++ rest) acc n false
  = Some (decimal_value acc ds, (n + String.length ds)%nat, rest).
Proof.
  intros Hd Hr. revert acc n.
  induction ds as [|c ds IH]; intros acc n; cbn [append all_chars] in *.
  - cbn [decimal_value String.length]. rewrite Nat.add_0_r.
    destruct rest as [|c r]; [reflexivity|]. destruct Hr as [H1 H2].
    cbn [scan_digits]. rewrite H1, H2. reflexivity.
  - apply andb_true_iff in Hd. destruct Hd as [H1 H2].
    destruct (is_digit_cases c H1) as (Hdig & _).
    cbn [scan_digits decimal_value String.length]. rewrite Hdig, (IH H2).
    do 3 f_equal. lia.
Qed.

(** [int] of a numeral, with whitespace after it. *)
Lemma py_int_numeral ds tail :
  numeral ds -> all_chars int_space tail = true ->
  py_int (ds ++ tail) = Some (decimal_value 0 ds).
Proof.
  intros [Hd [Hlo Hhi]] Ht. unfold py_int.
  destruct ds as [|c ds]; [cbn in Hlo; lia|].
  pose proof Hd as Hd'. cbn [all_chars] in Hd'. apply andb_true_iff in Hd'.
  destruct Hd' as [Hc Hds]. destruct (is_digit_cases c Hc) as (Hdig & _ & Hsp & _ & Hus & Hpl & Hmi).
  cbn [append drop_while]. rewrite Hsp.
  assert (Hsign : match String c (ds ++ tail) with
                  | String "+" r => (false, r)
                  | String "-" r => (true, r)
                  | _ => (false, String c (ds ++ tail))
                  end = (false, String c (ds ++ tail))).
  { destruct c as [[] [] [] [] [] [] [] []]; try reflexivity; discriminate. }
  rewrite Hsign.
  assert (Hnus : forall (A : Type) (x y : A),
             match String c (ds ++ tail) with String "_" _ => x | _ => y end = y).
  { intros A x y. destruct c as [[] [] [] [] [] [] [] []]; try reflexivity; discriminate. }
  rewrite Hnus.
  change (String c (ds ++ tail)) with (String c ds ++ tail)%string.
  assert (Hstop : stops tail).
  { destruct tail as [|a r]; [exact I|]. cbn [all_chars] in Ht.
    apply andb_true_iff in Ht. destruct Ht as [Ha _].
    destruct a as [[] [] [] [] [] [] [] []]; try discriminate Ha; split; reflexivity. }
  rewrite (scan_digits_numeral _ _ 0 0%nat Hd Hstop). cbn [Nat.add].
  destruct (Nat.eqb_spec (String.length (String c ds)) 0) as [E|_]; [cbn in E; lia|].
  destruct (Nat.ltb_spec int_max_str_digits (String.length (String c ds))) as [E|_]; [lia|].
  rewrite (drop_while_all_nil int_space tail Ht). reflexivity.
Qed.

(** [int] on a text that starts with a digit: no whitespace, no sign. *)
Lemma py_int_digit_head c s :
  is_digit c = true ->
  py_int (String c s)
  = match scan_digits (String c s) 0 0 false with
    | Some (v, count, rest) =>
        if (count =? 0)%nat then None
        else if (int_max_str_digits <? count)%nat then None
        else match drop_while int_space rest with
             | EmptyString => Some v
             | _ => None
             end
    | None => None
    end.
Proof.
  intros Hc. unfold py_int. cbn [drop_while].
  destruct (is_digit_cases c Hc) as (_ & _ & -> & _).
  destruct c as [[] [] [] [] [] [] [] []]; try discriminate Hc; reflexivity.
Qed.

(** A numeral, a line break, and more digits: no integer. *)
Lemma py_int_two_lines ds d w :
  all_chars is_digit ds = true -> ds <> EmptyString -> is_digit d = true ->
  py_int (ds ++ newline ++ String d w) = None.
Proof.
  intros Hd Hne Hdd. destruct ds as [|c ds]; [congruence|].
  pose proof Hd as Hd'. cbn [all_chars] in Hd'. apply andb_true_iff in Hd'.
  destruct Hd' as [Hc _].
  change (String c ds ++ newline ++ String d w)%string
    with (String c (ds ++ newline ++ String d w)).
  rewrite (py_int_digit_head c _ Hc).
  change (String c (ds ++ newline ++ String d w))
    with (String c ds ++ (newline ++ String d w))%string.
  rewrite (scan_digits_numeral (String c ds) _ 0 0%nat Hd); [|split; reflexivity].
  cbn [Nat.add]. destruct (_ =? 0)%nat; [reflexivity|].
  destruct (_ <? _)%nat; [reflexivity|].
  unfold newline. cbn [append drop_while].
  change (int_space (ascii_of_nat 10)) with true. cbv iota.
  destruct (is_digit_cases d Hdd) as (_ & _ & -> & _). reflexivity.
Qed.

Lemma all_chars_drop_while p q s :
  all_chars p s = true -> all_chars p (drop_while q s) = true.
Proof.
  induction s as [|c s IH]; cbn [all_chars drop_while]; [reflexivity|].
  intros H. destruct (q c); [|exact H].
  apply andb_true_iff in H. apply IH, H.
Qed.

Lemma all_chars_rstrip p s : all_chars p s = true -> all_chars p (rstrip s) = true.
Proof.
  induction s as [|c s IH]; cbn [all_chars rstrip]; [reflexivity|].
  intros H. apply andb_true_iff in H. destruct H as [H1 H2]. specialize (IH H2).
  destruct (rstrip s) as [|a r].
  - destruct (is_space c); [reflexivity|]. cbn [all_chars]. rewrite H1. reflexivity.
  - cbn [all_chars] in *. rewrite H1, IH. reflexivity.
Qed.

Lemma append_x_assoc c w h t :
  (String c (w ++ "x" ++ h) ++ t = String c w ++ String "x" (h ++ t))%string.
Proof.
  change (String c (w ++ "x" ++ h) ++ t)%string with (String c ((w ++ "x" ++ h) ++ t)).
  rewrite append_assoc. reflexivity.
Qed.

(** X14 (lines 46-50): when ffprobe succeeds and prints a width and a height
    in decimal with an [x] between them, with whitespace around them or
    further fields after another [x], [probe_size] returns the two numbers. *)
Theorem probe_size_reads_decimal pre w h tail :
  all_chars is_space pre = true -> numeral w -> numeral h ->
  all_chars is_space tail = true \/ (exists rest, tail = String "x" rest) ->
  probe_size_of 0 (pre ++ w ++ "x" ++ h ++ tail)
  = Probed (decimal_value 0 w) (decimal_value 0 h).
Proof.
  intros Hpre Hw Hh Htail.
  pose proof (py_int_numeral w EmptyString Hw eq_refl) as Iw.
  pose proof (py_int_numeral h EmptyString Hh eq_refl) as Ih.
  rewrite append_nil_r in Iw, Ih.
  destruct Hw as [Dw [Lw _]], Hh as [Dh [Lh _]].
  destruct w as [|c w]; [cbn in Lw; lia|].
  assert (Hcore : all_chars not_space (String c (w ++ "x" ++ h)) = true).
  { change (String c (w ++ "x" ++ h)) with (String c w ++ "x" ++ h)%string.
    rewrite !all_chars_app, (digits_not_space _ Dw), (digits_not_space _ Dh). reflexivity. }
  assert (Hstrip : strip (pre ++ String c w ++ "x" ++ h ++ tail)
                   = (String c w ++ String "x" (h ++ rstrip tail))%string).
  { change (pre ++ String c w ++ "x" ++ h ++ tail)%string
      with (pre ++ (String c w ++ String "x" (h ++ tail)))%string.
    rewrite <- append_x_assoc, (strip_around pre _ tail c Hpre Hcore).
    apply append_x_assoc. }
  unfold probe_size_of. rewrite Hstrip. cbn [Z.eqb negb orb String.length append Nat.eqb].
  change (String c (w ++ String "x" (h ++ rstrip tail)))
    with (String c w ++ String "x" (h ++ rstrip tail))%string.
  rewrite (split_app_sep "x" _ _ (digits_not_x _ Dw)).
  cbn [nth nth_error]. rewrite Iw.
  assert (Hsplit : exists ws, split "x" (h ++ rstrip tail) = h :: ws).
  { destruct Htail as [Hsp|(rest & ->)].
    - rewrite (rstrip_spaces _ Hsp), append_nil_r, (split_no_sep "x" h (digits_not_x _ Dh)).
      eauto.
    - rewrite (rstrip_cons "x" rest eq_refl).
      rewrite (split_app_sep "x" _ _ (digits_not_x _ Dh)). eauto. }
  destruct Hsplit as (ws & ->). rewrite Ih. reflexivity.
Qed.

Lemma probe_size_reads_decimal_witness :
  probe_size_of 0 (" " ++ "1920" ++ "x" ++ "1080" ++ newline)
  = Probed (decimal_value 0 "1920") (decimal_value 0 "1080").
Proof.
  apply (probe_size_reads_decimal " " "1920" "1080" newline).
  - reflexivity.
  - split; [reflexivity|]. unfold int_max_str_digits. cbn. lia.
  - split; [reflexivity|]. unfold int_max_str_digits. cbn. lia.
  - left. reflexivity.
Defined.

(** X15 (lines 49-50): when ffprobe prints a second line that starts with a
    digit after the height, [probe_size] raises ValueError: the second field
    is then no integer. *)
Theorem probe_size_two_lines w h d more :
  numeral w -> all_chars is_digit h = true -> h <> EmptyString -> is_digit d = true ->
  probe_size_of 0 (w ++ "x" ++ h ++ newline ++ String d more)
  = ProbeRaises ProbeValueError.
Proof.
  intros Hw Dh Hne Hd.
  pose proof (py_int_numeral w EmptyString Hw eq_refl) as Iw.
  rewrite append_nil_r in Iw.
  destruct Hw as [Dw [Lw _]].
  destruct w as [|c w]; [cbn in Lw; lia|].
  destruct (is_digit_cases d Hd) as (_ & Hds & _ & Hdx & _).
  assert (Hcore : all_chars not_space (String c (w ++ "x" ++ h)) = true).
  { change (String c (w ++ "x" ++ h)) with (String c w ++ "x" ++ h)%string.
    rewrite !all_chars_app, (digits_not_space _ Dw), (digits_not_space _ Dh). reflexivity. }
  assert (Hstrip : strip (String c w ++ "x" ++ h ++ newline ++ String d more)
                   = (String c w ++ String "x" (h ++ newline ++ String d (rstrip more)))%string).
  { change (String c w ++ "x" ++ h ++ newline ++ String d more)%string
      with (EmptyString ++ (String c w ++ String "x" (h ++ (newline ++ String d more))))%string.
    rewrite <- append_x_assoc, (strip_around EmptyString _ _ c eq_refl Hcore).
    assert (Hr : rstrip (newline ++ String d more) = (newline ++ String d (rstrip more))%string).
    { unfold newline. cbn [append].
      change (rstrip (String (ascii_of_nat 10) (String d more)))
        with (match rstrip (String d more) with
              | EmptyString => if is_space (ascii_of_nat 10) then EmptyString
                               else String (ascii_of_nat 10) EmptyString
              | r => String (ascii_of_nat 10) r
              end).
      rewrite (rstrip_cons d more Hds). reflexivity. }
    rewrite Hr. apply append_x_assoc. }
  unfold probe_size_of. rewrite Hstrip. cbn [Z.eqb negb orb String.length append Nat.eqb].
  change (String c (w ++ String "x" (h ++ newline ++ String d (rstrip more))))
    with (String c w ++ String "x" (h ++ newline ++ String d (rstrip more)))%string.
  rewrite (split_app_sep "x" _ _ (digits_not_x _ Dw)).
  cbn [nth nth_error]. rewrite Iw.
  rewrite (split_app "x" h _ (digits_not_x _ Dh)).
  unfold newline at 1. cbn [append split].
  change (Ascii.eqb (ascii_of_nat 10) "x") with false. cbv iota. rewrite Hdx.
  destruct (split_cons "x" (rstrip more)) as (f & fs & ->).
  change (String (ascii_of_nat 10) (String d f)) with (newline ++ String d f)%string.
  rewrite (py_int_two_lines h d f Dh Hne Hd). reflexivity.
Qed.

Lemma probe_size_two_lines_witness :
  probe_size_of 0 ("1920" ++ "x" ++ "1080" ++ newline ++ String "1" "920x1080")
  = ProbeRaises ProbeValueError.
Proof.
  apply (probe_size_two_lines "1920" "1080" "1" "920x1080").
  - split; [reflexivity|]. unfold int_max_str_digits. cbn. lia.
  - reflexivity.
  - discriminate.
  - reflexivity.
Defined.

(** X16 (lines 46-48): [probe_size] raises RuntimeError exactly when ffprobe
    returns a code other than 0 or prints nothing but whitespace. *)
Theorem probe_size_runtime_error returncode stdout :
  probe_size_of returncode stdout = ProbeRaises ProbeRuntimeError
  <-> returncode <> 0 \/ all_chars is_space stdout = true.
Proof.
  unfold probe_size_of. rewrite strip_empty.
  destruct (Z.eqb_spec returncode 0) as [E|E]; cbn [negb orb].
  - destruct (all_chars is_space stdout).
    + split; [right; reflexivity|reflexivity].
    + split; [|intros [H|H]; [contradiction|discriminate]].
      destruct (py_int _); [|discriminate].
      destruct (nth_error _ 1); [|discriminate].
      destruct (py_int _); discriminate.
  - split; [left; exact E|reflexivity].
Qed.

Lemma probe_size_runtime_error_witness :
  probe_size_of 1 "1920x1080" = ProbeRaises ProbeRuntimeError.
Proof.
  apply (proj2 (probe_size_runtime_error 1 "1920x1080")). left. lia.
Defined.

(** X17 (lines 49-50): an output without [x] never gives a size.  If ffprobe
    succeeded and printed something, [probe_size] raises IndexError when the
    output is an integer and ValueError when it is not. *)
Theorem probe_size_without_x returncode stdout :
  all_chars (not_sep "x") stdout = true ->
  probe_size_of returncode stdout
  = (if negb (returncode =? 0) || all_chars is_space stdout
     then ProbeRaises ProbeRuntimeError
     else match py_int (strip stdout) with
          | Some _ => ProbeRaises ProbeIndexError
          | None => ProbeRaises ProbeValueError
          end) /\
  forall w h, probe_size_of returncode stdout <> Probed w h.
Proof.
  intros Hx.
  assert (Hs : split "x" (strip stdout) = [strip stdout]).
  { apply split_no_sep. unfold strip. apply all_chars_rstrip, all_chars_drop_while, Hx. }
  assert (E : probe_size_of returncode stdout
              = (if negb (returncode =? 0) || all_chars is_space stdout
                 then ProbeRaises ProbeRuntimeError
                 else match py_int (strip stdout) with
                      | Some _ => ProbeRaises ProbeIndexError
                      | None => ProbeRaises ProbeValueError
                      end)).
  { unfold probe_size_of. rewrite strip_empty, Hs. cbn [nth nth_error]. reflexivity. }
  split; [exact E|]. intros w h. rewrite E.
  destruct (negb _ || _); [discriminate|]. destruct (py_int _); discriminate.
Qed.

Lemma probe_size_without_x_witness :
  probe_size_of 0 "1920" = ProbeRaises ProbeIndexError /\
  forall w h, probe_size_of 0 "1920" <> Probed w h.
Proof. apply (probe_size_without_x 0 "1920"). reflexivity. Defined.
